(** * Google Tasks to Super Productivity converter: model and properties

    A shallow embedding of [google_tasks_to_sp.py]: the utility functions,
    the two-pass conversion ([convert_task_with_assigned_id],
    [convert_task_list], [build_subtask_relationships],
    [convert_google_tasks_to_sp]), the older [convert_task] and the
    validator ([validate_sp_data]).

    Data.  A JSON object read field by field with [dict.get] is a record of
    optional fields, typed as the export format types them (strings, flags,
    lists of records).  Python dictionaries whose iteration order is
    observable are insertion-ordered association lists ([PyDict]); the
    first-occurrence table [id_mapping], which is only looked up and
    extended, is a [gmap]; the set of subtask identifiers is a [gset].

    Effects.  The dictionaries the conversion mutates are threaded through
    its loops as explicit state.  What the program takes from the Python
    runtime is a parameter of the model ([runtime]): the stream of
    [uuid.uuid4()] draws, the stream of [datetime.now()] readings and the
    two [datetime] parsers.  Warnings and the [verbose] printing change no
    result and are left out, as are the constant sub-documents of the
    backup.

    Strings.  A Python string is held as the string of its UTF-8 bytes:
    comparison, truthiness and the splits on ASCII characters read the
    same on the bytes as on the characters, and [strip] removes the
    encodings of the white-space characters.

    Convention taken from the code: every test on an identifier is a Python
    truthiness test, so the empty string counts as no identifier
    throughout ([truthy]). *)

From Stdlib Require Import ZArith Ascii String List Relations.
From stdpp Require Import base tactics option list strings pretty gmap sets sorting.

Open Scope string_scope.
Open Scope list_scope.
Open Scope nat_scope.

(** ** Python values: truthiness and string helpers *)

(** [bool(s)] for a string. *)
Definition truthy (s : string) : bool :=
  match s with
  | EmptyString => false
  | String _ _ => true
  end.

(** [bool(d.get(k))] for an optional string field. *)
Definition truthy_opt (o : option string) : bool :=
  match o with
  | Some s => truthy s
  | None => false
  end.

(** [bool(d.get(k))] for an optional boolean field. *)
Definition truthy_flag (o : option bool) : bool :=
  match o with
  | Some b => b
  | None => false
  end.

Module PyStr.

(** [ch.isspace()] for the character with code point [cp]: the white space
    that [str.strip()] removes. *)
Definition is_space (cp : N) : bool :=
  ((9 <=? cp) && (cp <=? 13) || (28 <=? cp) && (cp <=? 32)
   || (cp =? 133) || (cp =? 160) || (cp =? 5760)
   || (8192 <=? cp) && (cp <=? 8202)
   || (cp =? 8232) || (cp =? 8233) || (cp =? 8239) || (cp =? 8287)
   || (cp =? 12288))%N.

(** The code point of a character written with one, two or three UTF-8
    bytes; [None] when the bytes are not such a character.  (A character of
    four bytes is no white space.) *)
Definition continuation (b : ascii) : bool :=
  ((128 <=? N_of_ascii b) && (N_of_ascii b <? 192))%N.

Definition code1 (a : ascii) : option N :=
  if (N_of_ascii a <? 128)%N then Some (N_of_ascii a) else None.

Definition code2 (a b : ascii) : option N :=
  if ((194 <=? N_of_ascii a) && (N_of_ascii a <? 224))%N && continuation b
  then Some ((N_of_ascii a - 192) * 64 + (N_of_ascii b - 128))%N
  else None.

Definition code3 (a b c : ascii) : option N :=
  let cp := (((N_of_ascii a - 224) * 64 + (N_of_ascii b - 128)) * 64
             + (N_of_ascii c - 128))%N in
  if ((224 <=? N_of_ascii a) && (N_of_ascii a <? 240))%N
     && continuation b && continuation c && (2048 <=? cp)%N
  then Some cp else None.

Definition space (cp : option N) : bool :=
  match cp with
  | Some n => is_space n
  | None => false
  end.

(** A string of white space only. *)
Fixpoint blank (s : string) : bool :=
  match s with
  | EmptyString => true
  | String a r =>
      if space (code1 a) then blank r
      else match r with
           | EmptyString => false
           | String b r2 =>
               if space (code2 a b) then blank r2
               else match r2 with
                    | EmptyString => false
                    | String c r3 => space (code3 a b c) && blank r3
                    end
           end
  end.

Fixpoint lstrip (s : string) : string :=
  match s with
  | EmptyString => EmptyString
  | String a r =>
      if space (code1 a) then lstrip r
      else match r with
           | EmptyString => s
           | String b r2 =>
               if space (code2 a b) then lstrip r2
               else match r2 with
                    | EmptyString => s
                    | String c r3 =>
                        if space (code3 a b c) then lstrip r3 else s
                    end
           end
  end.

(** The string is cut where what follows is white space only. *)
Fixpoint rstrip (s : string) : string :=
  match s with
  | EmptyString => EmptyString
  | String a r => if blank s then EmptyString else String a (rstrip r)
  end.

Definition strip (s : string) : string := rstrip (lstrip s).

(** [c in s] for a one-character [c]. *)
Fixpoint contains (c : ascii) (s : string) : bool :=
  match s with
  | EmptyString => false
  | String a r => if decide (a = c) then true else contains c r
  end.

(** [s.split(c)]: one more part than there are occurrences of [c]. *)
Fixpoint split (c : ascii) (s : string) : list string :=
  match s with
  | EmptyString => [EmptyString]
  | String a r =>
      if decide (a = c) then EmptyString :: split c r
      else match split c r with
           | p :: ps => String a p :: ps
           | [] => [String a EmptyString]
           end
  end.

(** [s.rsplit(c, 1)] when [c] occurs in [s]: the text before and after
    the last occurrence. *)
Fixpoint rsplit1 (c : ascii) (s : string) : option (string * string) :=
  match s with
  | EmptyString => None
  | String a r =>
      match rsplit1 c r with
      | Some (p, q) => Some (String a p, q)
      | None => if decide (a = c) then Some (EmptyString, r) else None
      end
  end.

(** [s.replace('Z', '+00:00')]. *)
Fixpoint replace_Z (s : string) : string :=
  match s with
  | EmptyString => EmptyString
  | String a r =>
      if decide (a = "Z"%char) then "+00:00" +:+ replace_Z r
      else String a (replace_Z r)
  end.

End PyStr.

(** ** Insertion-ordered dictionaries *)

Module PyDict.
Section Ops.
Context {V : Type}.

(** [d.get(k)]. *)
Fixpoint get (k : string) (d : list (string * V)) : option V :=
  match d with
  | [] => None
  | (k', v) :: r => if decide (k' = k) then Some v else get k r
  end.

(** [k in d]. *)
Definition mem (k : string) (d : list (string * V)) : bool :=
  bool_decide (is_Some (get k d)).

(** [d[k] = v]: an existing key keeps its position, a new key goes last. *)
Fixpoint set (k : string) (v : V) (d : list (string * V)) : list (string * V) :=
  match d with
  | [] => [(k, v)]
  | (k', v') :: r =>
      if decide (k' = k) then (k, v) :: r else (k', v') :: set k v r
  end.

(** In-place mutation of the object stored at [k] (no effect when absent). *)
Fixpoint update (k : string) (f : V → V) (d : list (string * V)) : list (string * V) :=
  match d with
  | [] => []
  | (k', v') :: r =>
      if decide (k' = k) then (k', f v') :: r else (k', v') :: update k f r
  end.

Definition keys (d : list (string * V)) : list string := d.*1.
End Ops.
End PyDict.

Abbreviation pydict V := (list (string * V)).

(** ** Source documents (Google Tasks export) *)

(** A task record of the export; every field is read with [dict.get]. *)
Record gtask := GTask {
  g_id : option string;
  g_title : option string;
  g_notes : option string;
  g_status : option string;
  g_completed : option string;
  g_due : option string;
  g_parent : option string;
  g_updated : option string;
  g_deleted : option bool;
  g_hidden : option bool
}.

Record task_list := TaskList {
  tl_title : option string;
  tl_items : option (list gtask)
}.

(** The [kind] marker is only compared with ['tasks#taskLists'] to emit a
    warning. *)
Record google_tasks_data := GoogleTasks {
  gd_kind : option string;
  gd_items : option (list task_list)
}.

(** [gtask.get('id', '')]. *)
Definition original_id (g : gtask) : string := default EmptyString (g_id g).

(** [gtask.get('deleted') or gtask.get('hidden')]. *)
Definition dropped (g : gtask) : bool :=
  truthy_flag (g_deleted g) || truthy_flag (g_hidden g).

Definition eligible (g : gtask) : bool := negb (dropped g).

(** The declared parent, when the [parent] field is truthy. *)
Definition declared_parent (g : gtask) : option string :=
  match g_parent g with
  | Some p => if truthy p then Some p else None
  | None => None
  end.

(** ** Converted documents (Super Productivity backup) *)

Record sp_task := SpTask {
  t_id : string;
  t_title : string;
  t_notes : string;
  t_projectId : string;
  t_isDone : bool;
  t_doneOn : option Z;
  t_dueDay : option string;
  t_parentId : option string;
  t_subTaskIds : list string;
  t_created : Z;
  t_updated : Z;
  t_originalGoogleTaskId : option string
}.

Record sp_project := SpProject {
  p_id : string;
  p_title : string;
  p_taskIds : list string
}.

(** The backup envelope; of [data] only the [project] and [task]
    sub-documents, the ones the conversion fills, are kept. *)
Record sp_backup := SpBackup {
  b_timestamp : Z;
  b_lastUpdate : Z;
  b_project_ids : list string;
  b_project_entities : pydict sp_project;
  b_task_ids : list string;
  b_task_entities : pydict sp_task
}.

Definition set_parentId (p : string) (t : sp_task) : sp_task :=
  SpTask (t_id t) (t_title t) (t_notes t) (t_projectId t) (t_isDone t)
         (t_doneOn t) (t_dueDay t) (Some p) (t_subTaskIds t)
         (t_created t) (t_updated t) (t_originalGoogleTaskId t).

Definition append_subTaskId (c : string) (t : sp_task) : sp_task :=
  SpTask (t_id t) (t_title t) (t_notes t) (t_projectId t) (t_isDone t)
         (t_doneOn t) (t_dueDay t) (t_parentId t) (t_subTaskIds t ++ [c])
         (t_created t) (t_updated t) (t_originalGoogleTaskId t).

Definition set_taskIds (l : list string) (p : sp_project) : sp_project :=
  SpProject (p_id p) (p_title p) l.

(** ** Utility functions *)

(** [sanitize_title]. *)
Definition sanitize_title (title : option string) : string :=
  match title with
  | None => "Untitled Task"
  | Some s =>
      if truthy s && truthy (PyStr.strip s) then PyStr.strip s
      else "Untitled Task"
  end.

(** [x or y] on an optional integer: zero is falsy, like [None]. *)
Definition py_or (x : option Z) (y : Z) : Z :=
  match x with
  | Some v => if decide (v = 0%Z) then y else v
  | None => y
  end.

(** ** The runtime services *)

(** What the program takes from the Python runtime.
    - [uuid n] is the string of the [n]-th [uuid.uuid4()] draw of the run;
    - [clock n] is [int(datetime.now().timestamp() * 1000)] at the [n]-th
      reading of the run;
    - [fromisoformat_ms s] is [datetime.fromisoformat(s)] followed by
      [int(dt.timestamp() * 1000)], [None] standing for the [ValueError] of
      a rejected string;
    - [strptime_ymd s] tells whether [datetime.strptime(s, '%Y-%m-%d')]
      accepts [s]. *)
Record runtime := Runtime {
  uuid : nat → string;
  clock : nat → Z;
  fromisoformat_ms : string → option Z;
  strptime_ymd : string → bool
}.

Section Conversion.
Context (rt : runtime).

(** The retry of [parse_iso_to_unix_ms] after [fromisoformat] rejected the
    string: the text to parse again, or [None] where an unpacking
    assignment raises [ValueError]. *)
Definition strip_fraction (iso : string) : option string :=
  if PyStr.contains "." iso then
    match PyStr.split "." iso with
    | [base; frac_and_tz] =>
        if PyStr.contains "+" frac_and_tz then
          match PyStr.split "+" frac_and_tz with
          | [_; tz] => Some (base +:+ "+" +:+ tz)
          | _ => None
          end
        else if PyStr.contains "-" frac_and_tz then
          match PyStr.rsplit1 "-" frac_and_tz with
          | Some (_, tz) =>
              if PyStr.contains ":" tz then Some (base +:+ "-" +:+ tz)
              else Some base
          | None => Some base
          end
        else Some base
    | _ => None
    end
  else Some iso.

(** [parse_iso_to_unix_ms]. *)
Definition parse_iso_to_unix_ms (iso_string : option string) : option Z :=
  match iso_string with
  | None => None
  | Some s =>
      if truthy s then
        let iso := PyStr.replace_Z s in
        match fromisoformat_ms rt iso with
        | Some ms => Some ms
        | None => strip_fraction iso ≫= fromisoformat_ms rt
        end
      else None
  end.

(** [parse_iso_to_date_string]. *)
Definition parse_iso_to_date_string (iso_string : option string) : option string :=
  match iso_string with
  | None => None
  | Some s =>
      if truthy s then
        match PyStr.split "T" s with
        | date_part :: _ =>
            if strptime_ymd rt date_part then Some date_part else None
        | [] => None
        end
      else None
  end.

(** [convert_task_with_assigned_id].  [current_ts] is the value of the
    [datetime.now()] reading the function makes once the task has passed
    the deleted/hidden test. *)
Definition convert_task_with_assigned_id
    (g : gtask) (project_id assigned_id : string)
    (id_mapping : gmap string string) (current_ts : Z) : option sp_task :=
  if dropped g then None
  else
    let original := original_id g in
    let is_done := bool_decide (g_status g = Some "completed") in
    let done_on := if is_done then parse_iso_to_unix_ms (g_completed g) else None in
    let updated_ts := parse_iso_to_unix_ms (g_updated g) in
    let due_day := parse_iso_to_date_string (g_due g) in
    let parent_id := declared_parent g ≫= λ p, id_mapping !! p in
    Some {| t_id := assigned_id;
            t_title := sanitize_title (g_title g);
            t_notes := default EmptyString (g_notes g);
            t_projectId := project_id;
            t_isDone := is_done;
            t_doneOn := done_on;
            t_dueDay := due_day;
            t_parentId := parent_id;
            t_subTaskIds := [];
            t_created := py_or updated_ts current_ts;
            t_updated := py_or updated_ts current_ts;
            t_originalGoogleTaskId :=
              if truthy original then Some original else None |}.

(** *** First pass *)

(** The dictionaries the first pass mutates, with the number of
    [generate_uuid()] calls and of clock readings made so far. *)
Record conv_state := ConvState {
  cs_uuids : nat;
  cs_clock : nat;
  cs_id_mapping : gmap string string;
  cs_all_tasks : pydict sp_task;
  cs_task_id_to_original : pydict gtask
}.

(** One iteration of the loop of [convert_task_list]; the second
    component is the local list [task_ids]. *)
Definition convert_item (project_id : string)
    (acc : conv_state * list string) (g : gtask) : conv_state * list string :=
  let s := acc.1 in
  let original := original_id g in
  let new_id := uuid rt (cs_uuids s) in
  let id_mapping :=
    if truthy original && bool_decide (cs_id_mapping s !! original = None)
    then <[original := new_id]> (cs_id_mapping s)
    else cs_id_mapping s in
  match convert_task_with_assigned_id g project_id new_id id_mapping
          (clock rt (cs_clock s)) with
  | Some task =>
      (ConvState (S (cs_uuids s)) (S (cs_clock s)) id_mapping
         (PyDict.set (t_id task) task (cs_all_tasks s))
         (PyDict.set (t_id task) g (cs_task_id_to_original s)),
       acc.2 ++ [t_id task])
  | None =>
      (ConvState (S (cs_uuids s)) (cs_clock s) id_mapping
         (cs_all_tasks s) (cs_task_id_to_original s),
       acc.2)
  end.

(** [convert_task_list]: the state after the call, the project and the
    list of task identifiers of the project. *)
Definition convert_task_list (tl : task_list) (s : conv_state)
    : conv_state * sp_project * list string :=
  let project_id := uuid rt (cs_uuids s) in
  let s0 := ConvState (S (cs_uuids s)) (cs_clock s) (cs_id_mapping s)
              (cs_all_tasks s) (cs_task_id_to_original s) in
  let items := default [] (tl_items tl) in
  let r := foldl (convert_item project_id) (s0, []) items in
  (r.1, SpProject project_id (sanitize_title (tl_title tl)) r.2, r.2).

(** *** Second pass *)

(** One iteration of the loop of [build_subtask_relationships]. *)
Definition link_subtask (id_mapping : gmap string string)
    (acc : pydict sp_task * gset string) (entry : string * gtask)
    : pydict sp_task * gset string :=
  let tasks := acc.1 in
  let task_id := entry.1 in
  match declared_parent entry.2 with
  | None => acc
  | Some parent_original_id =>
      if negb (PyDict.mem task_id tasks) then acc
      else
        match id_mapping !! parent_original_id with
        | Some parent_new_id =>
            if truthy parent_new_id && PyDict.mem parent_new_id tasks then
              let tasks1 := PyDict.update task_id (set_parentId parent_new_id) tasks in
              let listed :=
                match PyDict.get parent_new_id tasks1 with
                | Some parent => bool_decide (task_id ∈ t_subTaskIds parent)
                | None => false
                end in
              let tasks2 :=
                if listed then tasks1
                else PyDict.update parent_new_id (append_subTaskId task_id) tasks1 in
              (tasks2, {[task_id]} ∪ acc.2)
            else acc
        | None => acc
        end
  end.

(** [build_subtask_relationships]: the mutated task table and the
    returned set. *)
Definition build_subtask_relationships (tasks : pydict sp_task)
    (id_mapping : gmap string string) (task_id_to_original : pydict gtask)
    : pydict sp_task * gset string :=
  foldl (link_subtask id_mapping) (tasks, ∅) task_id_to_original.

(** *** Whole conversion *)

(** The state of the first loop of [convert_google_tasks_to_sp]. *)
Record assembly := Assembly {
  as_state : conv_state;
  as_project_ids : list string;
  as_project_entities : pydict sp_project;
  as_project_task_ids : pydict (list string)
}.

(** One iteration of that loop: the group is converted, its task list is
    copied into [project_task_ids] and its project is registered. *)
Definition add_task_list (a : assembly) (tl : task_list) : assembly :=
  let r := convert_task_list tl (as_state a) in
  let project := r.1.2 in
  Assembly r.1.1
    (as_project_ids a ++ [p_id project])
    (PyDict.set (p_id project) project (as_project_entities a))
    (PyDict.set (p_id project) r.2 (as_project_task_ids a)).

(** The loop that removes the subtasks from every project's [taskIds]; the
    key is one of [project_entities], the two dictionaries being filled
    together. *)
Definition filter_project_task_ids (subtask_ids : gset string)
    (entities : pydict sp_project) (entry : string * list string)
    : pydict sp_project :=
  PyDict.update entry.1
    (set_taskIds (filter (λ tid, tid ∉ subtask_ids) entry.2)) entities.

(** The final loop: [ids.append(task_id); entities[task_id] = task]. *)
Definition add_task (acc : list string * pydict sp_task)
    (entry : string * sp_task) : list string * pydict sp_task :=
  (acc.1 ++ [entry.1], PyDict.set entry.1 entry.2 acc.2).

(** Everything a run leaves behind: the returned backup together with the
    local tables of [convert_google_tasks_to_sp]. *)
Record conversion := Conversion {
  cv_backup : sp_backup;
  cv_id_mapping : gmap string string;
  cv_task_id_to_original : pydict gtask;
  cv_project_task_ids : pydict (list string);
  cv_subtask_ids : gset string
}.

Definition run_conversion (doc : google_tasks_data) : conversion :=
  (* create_empty_sp_data() makes the first clock reading *)
  let current_ts := clock rt 0 in
  let init := Assembly (ConvState 0 1 ∅ [] []) [] [] [] in
  let task_lists := default [] (gd_items doc) in
  let a := foldl add_task_list init task_lists in
  let s := as_state a in
  let second := build_subtask_relationships (cs_all_tasks s)
                  (cs_id_mapping s) (cs_task_id_to_original s) in
  let projects := foldl (filter_project_task_ids second.2)
                    (as_project_entities a) (as_project_task_ids a) in
  let tasks := foldl add_task ([], []) second.1 in
  Conversion
    (SpBackup current_ts current_ts (as_project_ids a) projects tasks.1 tasks.2)
    (cs_id_mapping s) (cs_task_id_to_original s)
    (as_project_task_ids a) second.2.

(** [convert_google_tasks_to_sp]. *)
Definition convert_google_tasks_to_sp (doc : google_tasks_data) : sp_backup :=
  cv_backup (run_conversion doc).

End Conversion.

(** ** A reference runtime

    One concrete runtime, used to run the model on sample documents:
    identifiers [uuid-0], [uuid-1], ..., a clock that advances by one
    millisecond at each reading, and a parser for timestamps of the shape
    [YYYY-MM-DD[Thh:mm:ss[.fff[fff]][(+|-)hh:mm]]] read in UTC.  It is a
    stand-in, not the parser of a Python release: it takes fewer shapes
    than [datetime.fromisoformat] (no time without seconds, fractions of
    three or six digits only), computes in exact integers, and reads a
    stamp without offset as UTC.  The theorems hold for every runtime;
    only the sample runs use this one. *)

Module Reference.

Definition uuid (n : nat) : string := "uuid-" +:+ pretty n.

Definition clock (n : nat) : Z := (1767225600000 + Z.of_nat n)%Z.

Definition digit (a : ascii) : option Z :=
  let n := nat_of_ascii a in
  if Nat.leb 48 n && Nat.leb n 57 then Some (Z.of_nat (n - 48)) else None.

(** Reads exactly [k] decimal digits. *)
Fixpoint digits (k : nat) (acc : Z) (s : string) : option (Z * string) :=
  match k with
  | 0 => Some (acc, s)
  | S k' =>
      match s with
      | String a r => digit a ≫= λ d, digits k' (10 * acc + d)%Z r
      | EmptyString => None
      end
  end.

Definition expect (c : ascii) (s : string) : option string :=
  match s with
  | String a r => if decide (a = c) then Some r else None
  | EmptyString => None
  end.

Definition is_leap (y : Z) : bool :=
  ((y mod 4 =? 0) && negb (y mod 100 =? 0) || (y mod 400 =? 0))%Z.

Definition days_in_month (y m : Z) : Z :=
  (if m =? 2 then (if is_leap y then 29 else 28)
   else if (m =? 4) || (m =? 6) || (m =? 9) || (m =? 11) then 30
   else 31)%Z.

(** Days between 1970-01-01 and the given civil date. *)
Definition days_from_civil (y m d : Z) : Z :=
  (let y' := if m <=? 2 then y - 1 else y in
   let era := y' / 400 in
   let yoe := y' - era * 400 in
   let mp := (m + 9) mod 12 in
   let doy := (153 * mp + 2) / 5 + d - 1 in
   let doe := yoe * 365 + yoe / 4 - yoe / 100 + doy in
   era * 146097 + doe - 719468)%Z.

Definition parse_date (s : string) : option (Z * string) :=
  '(y, s) ← digits 4 0 s;
  s ← expect "-" s;
  '(m, s) ← digits 2 0 s;
  s ← expect "-" s;
  '(d, s) ← digits 2 0 s;
  if ((1 <=? y) && (1 <=? m) && (m <=? 12) && (1 <=? d)
      && (d <=? days_in_month y m))%Z
  then Some (days_from_civil y m d, s) else None.

(** [hh:mm], both below the given bounds, in seconds. *)
Definition parse_hm (s : string) : option (Z * string) :=
  '(h, s) ← digits 2 0 s;
  s ← expect ":" s;
  '(m, s) ← digits 2 0 s;
  if ((h <? 24) && (m <? 60))%Z then Some (h * 3600 + m * 60, s)%Z else None.

(** An optional fraction of three or six digits, in microseconds. *)
Definition parse_fraction (s : string) : option (Z * string) :=
  match s with
  | String "." r =>
      match digits 6 0 r with
      | Some res => Some res
      | None => '(ms, r') ← digits 3 0 r; Some (ms * 1000, r')%Z
      end
  | _ => Some (0%Z, s)
  end.

(** An optional UTC offset, in seconds; nothing may follow it. *)
Definition parse_offset (s : string) : option Z :=
  match s with
  | EmptyString => Some 0%Z
  | String "+" r =>
      '(o, r') ← parse_hm r;
      if decide (r' = EmptyString) then Some o else None
  | String "-" r =>
      '(o, r') ← parse_hm r;
      if decide (r' = EmptyString) then Some (- o)%Z else None
  | _ => None
  end.

Definition fromisoformat_ms (s : string) : option Z :=
  '(days, s) ← parse_date s;
  match s with
  | EmptyString => Some (days * 86400000)%Z
  | String _ r =>
      '(hm, r) ← parse_hm r;
      r ← expect ":" r;
      '(sec, r) ← digits 2 0 r;
      if (sec <? 60)%Z then
        '(us, r) ← parse_fraction r;
        off ← parse_offset r;
        Some (Z.quot (((days * 86400 + hm + sec - off) * 1000000) + us) 1000)
      else None
  end.

Definition strptime_ymd (s : string) : bool :=
  match parse_date s with
  | Some (_, EmptyString) => true
  | _ => false
  end.

Definition rt : runtime := Runtime uuid clock fromisoformat_ms strptime_ymd.

End Reference.

(** ** The validator *)

(** Documents as the validator reads them: a task or project entity may be
    any dictionary, so each field it reads with [dict.get] is optional; the
    envelope keys it tests with [in] are presence flags.  The three
    sub-documents of [data] that it reaches with subscripts are there in a
    [v_data]; the documents that lack one of them, on which a subscript
    raises, are those of [Raw] further down. *)
Record v_task := VTask {
  vt_projectId : option string;
  vt_parentId : option string;
  vt_subTaskIds : option (list string)
}.

Record v_project := VProject {
  vp_taskIds : option (list string)
}.

Record v_data := VData {
  vd_task_ids : list string;
  vd_task_entities : pydict v_task;
  vd_project_entities : pydict v_project
}.

Record v_backup := VBackup {
  vb_data : option v_data;
  vb_crossModelVersion : bool;
  vb_timestamp : bool;
  vb_lastUpdate : bool
}.

(** The messages, one constructor per [errors.append] of the source. *)
Inductive validation_error :=
| MissingData
| MissingCrossModelVersion
| MissingTimestamp
| MissingLastUpdate
| DuplicateTaskIds
| TaskIdWithoutEntity (task_id : string)
| NonExistentProject (task_id project_id : string)
| NonExistentParent (task_id parent_id : string)
| OwnParent (task_id : string)
| CircularParent (task_id : string)
| NonExistentSubtask (task_id subtask_id : string)
| SubtaskParentMismatch (subtask_id task_id : string)
| ProjectMissingTask (project_id task_id : string)
| ProjectListsSubtask (project_id task_id : string).

Definition message (e : validation_error) : string :=
  match e with
  | MissingData => "Missing 'data' field in backup"
  | MissingCrossModelVersion => "Missing 'crossModelVersion' field in backup"
  | MissingTimestamp => "Missing 'timestamp' field in backup"
  | MissingLastUpdate => "Missing 'lastUpdate' field in backup"
  | DuplicateTaskIds => "Duplicate task IDs found"
  | TaskIdWithoutEntity t =>
      "Task ID '" +:+ t +:+ "' in ids list but not in entities"
  | NonExistentProject t p =>
      "Task '" +:+ t +:+ "' references non-existent project '" +:+ p +:+ "'"
  | NonExistentParent t p =>
      "Task '" +:+ t +:+ "' references non-existent parent '" +:+ p +:+ "'"
  | OwnParent t =>
      "Task '" +:+ t +:+ "' is its own parent (circular reference)"
  | CircularParent t =>
      "Circular parent reference detected involving task '" +:+ t +:+ "'"
  | NonExistentSubtask t s =>
      "Task '" +:+ t +:+ "' lists non-existent subtask '" +:+ s +:+ "'"
  | SubtaskParentMismatch s t =>
      "Subtask '" +:+ s +:+ "' doesn't reference parent '" +:+ t +:+ "'"
  | ProjectMissingTask p t =>
      "Project '" +:+ p +:+ "' lists non-existent task '" +:+ t +:+ "'"
  | ProjectListsSubtask p t =>
      "Project '" +:+ p +:+ "' lists subtask '" +:+ t
        +:+ "' (should only list top-level tasks)"
  end.

Module Validator.
Section Checks.
Context (task_entities : pydict v_task) (project_entities : pydict v_project).

(** [task_entities.get(current, {}).get('parentId')]. *)
Definition parent_of (current : string) : option string :=
  PyDict.get current task_entities ≫= vt_parentId.

(** The [while current:] loop of the circular-reference check: [Some
    true] when it appends the error and breaks, [Some false] when the
    loop condition fails, [None] when [fuel] iterations do not reach
    either. *)
Fixpoint walk (fuel : nat) (visited : list string) (current : option string)
    : option bool :=
  match fuel with
  | 0 => None
  | S fuel' =>
      if truthy_opt current then
        let c := default EmptyString current in
        if bool_decide (c ∈ visited) then Some true
        else walk fuel' (c :: visited) (parent_of c)
      else Some false
  end.

(** As many iterations as the loop can make, and two to spare. *)
Definition walk_fuel : nat := S (S (length task_entities)).

(** Body of the loop "Check all task IDs have entities". *)
Definition check_id (errors : list validation_error) (task_id : string)
    : list validation_error :=
  if PyDict.mem task_id task_entities then errors
  else errors ++ [TaskIdWithoutEntity task_id].

(** Body of the loop "Check project references". *)
Definition check_project_ref (errors : list validation_error)
    (entry : string * v_task) : list validation_error :=
  match vt_projectId entry.2 with
  | Some project_id =>
      if truthy project_id && negb (PyDict.mem project_id project_entities)
      then errors ++ [NonExistentProject entry.1 project_id]
      else errors
  | None => errors
  end.

(** Body of the loop "Check parent references and circular
    dependencies". *)
Definition check_parent (errors : option (list validation_error))
    (entry : string * v_task) : option (list validation_error) :=
  errs ← errors;
  match vt_parentId entry.2 with
  | Some parent_id =>
      if truthy parent_id then
        if negb (PyDict.mem parent_id task_entities) then
          Some (errs ++ [NonExistentParent entry.1 parent_id])
        else if bool_decide (parent_id = entry.1) then
          Some (errs ++ [OwnParent entry.1])
        else
          found ← walk walk_fuel [entry.1] (Some parent_id);
          Some (if found : bool then errs ++ [CircularParent entry.1] else errs)
      else Some errs
  | None => Some errs
  end.

(** Body of the inner loop of "Check subTaskIds consistency". *)
Definition check_subtask (task_id : string)
    (errors : list validation_error) (subtask_id : string)
    : list validation_error :=
  match PyDict.get subtask_id task_entities with
  | None => errors ++ [NonExistentSubtask task_id subtask_id]
  | Some subtask =>
      if bool_decide (vt_parentId subtask ≠ Some task_id)
      then errors ++ [SubtaskParentMismatch subtask_id task_id]
      else errors
  end.

Definition check_subtasks (errors : list validation_error)
    (entry : string * v_task) : list validation_error :=
  foldl (check_subtask entry.1) errors (default [] (vt_subTaskIds entry.2)).

(** Body of the inner loop of "Check project taskIds". *)
Definition check_listed (project_id : string)
    (errors : list validation_error) (task_id : string)
    : list validation_error :=
  match PyDict.get task_id task_entities with
  | None => errors ++ [ProjectMissingTask project_id task_id]
  | Some task =>
      if truthy_opt (vt_parentId task)
      then errors ++ [ProjectListsSubtask project_id task_id]
      else errors
  end.

Definition check_project (errors : list validation_error)
    (entry : string * v_project) : list validation_error :=
  foldl (check_listed entry.1) errors (default [] (vp_taskIds entry.2)).
End Checks.

(** The errors of [validate_sp_data], before they are rendered as text;
    [None] only if a circular-reference walk ran out of fuel. *)
Definition errors (sp_backup : v_backup) : option (list validation_error) :=
  match vb_data sp_backup with
  | None => Some [MissingData]
  | Some sp_data =>
      let e0 := [] in
      let e1 := if vb_crossModelVersion sp_backup then e0
                else e0 ++ [MissingCrossModelVersion] in
      let e2 := if vb_timestamp sp_backup then e1
                else e1 ++ [MissingTimestamp] in
      let e3 := if vb_lastUpdate sp_backup then e2
                else e2 ++ [MissingLastUpdate] in
      let task_ids := vd_task_ids sp_data in
      let e4 := if bool_decide (length task_ids ≠ length (remove_dups task_ids))
                then e3 ++ [DuplicateTaskIds] else e3 in
      let task_entities := vd_task_entities sp_data in
      let project_entities := vd_project_entities sp_data in
      let e5 := foldl (check_id task_entities) e4 task_ids in
      let e6 := foldl (check_project_ref project_entities) e5 task_entities in
      e7 ← foldl (check_parent task_entities) (Some e6) task_entities;
      let e8 := foldl (check_subtasks task_entities) e7 task_entities in
      Some (foldl (check_project task_entities) e8 project_entities)
  end.
End Validator.

(** [validate_sp_data], once the subscripts have found the sub-documents of
    [data]. *)
Definition validate_sp_data (sp_backup : v_backup) : option (list string) :=
  map message <$> Validator.errors sp_backup.

(** The converter's output as the validator reads it. *)
Definition view_task (t : sp_task) : v_task :=
  VTask (Some (t_projectId t)) (t_parentId t) (Some (t_subTaskIds t)).

Definition view_project (p : sp_project) : v_project :=
  VProject (Some (p_taskIds p)).

Definition view_backup (b : sp_backup) : v_backup :=
  VBackup
    (Some (VData (b_task_ids b)
             (prod_map id view_task <$> b_task_entities b)
             (prod_map id view_project <$> b_project_entities b)))
    true true true.

(** ** Vocabulary of the properties *)

(** *** Source tasks and the identifiers drawn for them

    [convert_task_list] draws one identifier for the project and then one
    for every item of the list, dropped or not, in order.  A _label_ is the
    number of the draw: the project or task labelled [k] receives the
    identifier [uuid rt k]. *)

Fixpoint label_items (n : nat) (items : list gtask) : list (nat * gtask) :=
  match items with
  | [] => []
  | g :: r => (n, g) :: label_items (S n) r
  end.

Definition items_of (tl : task_list) : list gtask := default [] (tl_items tl).

Fixpoint label_lists (n : nat) (lists : list task_list) : list (nat * task_list) :=
  match lists with
  | [] => []
  | tl :: r => (n, tl) :: label_lists (S n + length (items_of tl)) r
  end.

(** The groups of a document with the label of their project. *)
Definition source_groups (doc : google_tasks_data) : list (nat * task_list) :=
  label_lists 0 (default [] (gd_items doc)).

(** The labelled tasks of a labelled group. *)
Definition group_tasks (grp : nat * task_list) : list (nat * gtask) :=
  label_items (S grp.1) (items_of grp.2).

(** All tasks of a document, labelled, in processing order. *)
Definition source_tasks (doc : google_tasks_data) : list (nat * gtask) :=
  source_groups doc ≫= group_tasks.

Definition eligible_tasks (l : list (nat * gtask)) : list (nat * gtask) :=
  filter (λ e, eligible e.2 = true) l.

(** The first task, in processing order, whose original identifier is [p]. *)
Fixpoint first_occurrence (p : string) (l : list (nat * gtask)) : option (nat * gtask) :=
  match l with
  | [] => None
  | e :: r => if decide (original_id e.2 = p) then Some e else first_occurrence p r
  end.

(** The label of the task a source task's declared parent stands for: the
    first occurrence of the declared identifier, when that task is
    converted. *)
Definition resolved_parent (l : list (nat * gtask)) (g : gtask) : option nat :=
  p ← declared_parent g;
  e ← first_occurrence p l;
  if eligible e.2 then Some e.1 else None.

(** [source_link doc k j]: the converted source task labelled [k] declares a
    parent that stands for the converted task labelled [j]. *)
Definition source_link (doc : google_tasks_data) (k j : nat) : Prop :=
  ∃ g, (k, g) ∈ source_tasks doc ∧ eligible g = true
       ∧ resolved_parent (source_tasks doc) g = Some j.

(** [parent_link tasks a b]: the entity stored under [a] has [parentId] [b]. *)
Definition parent_link (tasks : pydict sp_task) (a b : string) : Prop :=
  ∃ t, PyDict.get a tasks = Some t ∧ t_parentId t = Some b.

(** *** What the validator is to report *)

Module Violations.
Section Chain.
Context (task_entities : pydict v_task).

(** The parent reference stored for a task, when there is a truthy one. *)
Definition next (c : string) : option string :=
  p ← Validator.parent_of task_entities c;
  if truthy p then Some p else None.

(** The task [n] steps up from [p]. *)
Fixpoint ancestor (p : string) (n : nat) : option string :=
  match n with
  | 0 => Some p
  | S n' => ancestor p n' ≫= next
  end.

(** The ancestors of a task [t] with parent [p] run in a circle: the chain
    that starts at [p] comes back to [t] or passes twice through one task. *)
Definition circular (t p : string) : Prop :=
  (∃ n, ancestor p n = Some t)
  ∨ (∃ (i j : nat) x, (i < j)%nat ∧ ancestor p i = Some x ∧ ancestor p j = Some x).
End Chain.

(** The violations of the seven checks. *)
Inductive violation (b : v_backup) : validation_error → Prop :=
(* 1. required top-level fields *)
| missing_data :
    vb_data b = None → violation b MissingData
| missing_version :
    vb_crossModelVersion b = false → violation b MissingCrossModelVersion
| missing_timestamp :
    vb_timestamp b = false → violation b MissingTimestamp
| missing_lastUpdate :
    vb_lastUpdate b = false → violation b MissingLastUpdate
(* 2. no duplicate in the task-identifier list *)
| duplicate_ids d :
    vb_data b = Some d → ¬ NoDup (vd_task_ids d) →
    violation b DuplicateTaskIds
(* 3. every listed identifier has an entity *)
| id_without_entity d t :
    vb_data b = Some d → t ∈ vd_task_ids d →
    PyDict.get t (vd_task_entities d) = None →
    violation b (TaskIdWithoutEntity t)
(* 4. every group reference resolves *)
| project_unresolved d t task p :
    vb_data b = Some d → (t, task) ∈ vd_task_entities d →
    vt_projectId task = Some p → p ≠ EmptyString →
    PyDict.get p (vd_project_entities d) = None →
    violation b (NonExistentProject t p)
(* 5. every parent reference resolves, to another task, without a cycle *)
| parent_unresolved d t task p :
    vb_data b = Some d → (t, task) ∈ vd_task_entities d →
    vt_parentId task = Some p → p ≠ EmptyString →
    PyDict.get p (vd_task_entities d) = None →
    violation b (NonExistentParent t p)
| parent_is_self d t task :
    vb_data b = Some d → (t, task) ∈ vd_task_entities d →
    vt_parentId task = Some t → t ≠ EmptyString →
    violation b (OwnParent t)
| parent_cycle d t task p :
    vb_data b = Some d → (t, task) ∈ vd_task_entities d →
    vt_parentId task = Some p → p ≠ EmptyString → p ≠ t →
    is_Some (PyDict.get p (vd_task_entities d)) →
    circular (vd_task_entities d) t p →
    violation b (CircularParent t)
(* 6. every listed child exists and points back *)
| subtask_unresolved d t task l s :
    vb_data b = Some d → (t, task) ∈ vd_task_entities d →
    vt_subTaskIds task = Some l → s ∈ l →
    PyDict.get s (vd_task_entities d) = None →
    violation b (NonExistentSubtask t s)
| subtask_mismatch d t task l s child :
    vb_data b = Some d → (t, task) ∈ vd_task_entities d →
    vt_subTaskIds task = Some l → s ∈ l →
    PyDict.get s (vd_task_entities d) = Some child →
    vt_parentId child ≠ Some t →
    violation b (SubtaskParentMismatch s t)
(* 7. every task a group lists exists and is top-level *)
| listed_unresolved d p proj l t :
    vb_data b = Some d → (p, proj) ∈ vd_project_entities d →
    vp_taskIds proj = Some l → t ∈ l →
    PyDict.get t (vd_task_entities d) = None →
    violation b (ProjectMissingTask p t)
| listed_subtask d p proj l t task :
    vb_data b = Some d → (p, proj) ∈ vd_project_entities d →
    vp_taskIds proj = Some l → t ∈ l →
    PyDict.get t (vd_task_entities d) = Some task →
    truthy_opt (vt_parentId task) = true →
    violation b (ProjectListsSubtask p t).

(** The check an error message belongs to. *)
Definition check_number (e : validation_error) : nat :=
  match e with
  | MissingData | MissingCrossModelVersion
  | MissingTimestamp | MissingLastUpdate => 1
  | DuplicateTaskIds => 2
  | TaskIdWithoutEntity _ => 3
  | NonExistentProject _ _ => 4
  | NonExistentParent _ _ | OwnParent _ | CircularParent _ => 5
  | NonExistentSubtask _ _ | SubtaskParentMismatch _ _ => 6
  | ProjectMissingTask _ _ | ProjectListsSubtask _ _ => 7
  end.

(** The messages come check after check. *)
Definition in_check_order (errs : list validation_error) : Prop :=
  ∀ (i j : nat) e1 e2, (i < j)%nat → errs !! i = Some e1 → errs !! j = Some e2 →
                       (check_number e1 ≤ check_number e2)%nat.
End Violations.

(** *** Invariants of the two passes *)

Section Invariants.
Context (rt : runtime).

(** The identifier drawn for a labelled task. *)
Definition new_id (e : nat * gtask) : string := uuid rt e.1.

(** The [parentId] the first pass writes for the labelled source task [e]:
    the identifier drawn for the first occurrence of the declared parent
    among the tasks up to and including [e] itself. *)
Definition first_guess (l : list (nat * gtask)) (t : sp_task) (e : nat * gtask) : Prop :=
  ∃ l1 l2, l = l1 ++ e :: l2
           ∧ t_parentId t
             = declared_parent e.2 ≫= λ p, new_id <$> first_occurrence p (l1 ++ [e]).

(** An entry of [all_tasks] as the first pass leaves it for the labelled
    source task [e]. *)
Definition fresh_task (l : list (nat * gtask))
    (kt : string * sp_task) (e : nat * gtask) : Prop :=
  kt.1 = new_id e ∧ t_id kt.2 = new_id e ∧ t_subTaskIds kt.2 = []
  ∧ first_guess l kt.2 e.

(** The state of the first pass once the labelled tasks [l] have been
    processed and [n] identifiers have been drawn. *)
Record first_pass_inv (l : list (nat * gtask)) (n : nat) (s : conv_state) : Prop :=
  FirstPassInv {
    fp_uuids : cs_uuids s = n;
    fp_mapping : ∀ p, cs_id_mapping s !! p =
                   if truthy p then new_id <$> first_occurrence p l else None;
    fp_originals : cs_task_id_to_original s =
                     (λ e, (new_id e, e.2)) <$> eligible_tasks l;
    fp_tasks : Forall2 (fresh_task l) (cs_all_tasks s) (eligible_tasks l)
  }.

(** The project entity of a labelled group, with the given task list. *)
Definition project_of (grp : nat * task_list) (ids : list string) : sp_project :=
  SpProject (uuid rt grp.1) (sanitize_title (tl_title grp.2)) ids.

(** The identifiers of the converted tasks of a group, in arrival order. *)
Definition arrival_ids (grp : nat * task_list) : list string :=
  new_id <$> eligible_tasks (group_tasks grp).

(** The state of the first loop of [convert_google_tasks_to_sp] once the
    labelled groups [grps] have been processed. *)
Record assembly_inv (grps : list (nat * task_list)) (n : nat) (a : assembly) : Prop :=
  AssemblyInv {
    ai_state : first_pass_inv (grps ≫= group_tasks) n (as_state a);
    ai_project_ids : as_project_ids a = (λ grp, uuid rt grp.1) <$> grps;
    ai_project_entities :
      as_project_entities a =
        (λ grp, (uuid rt grp.1, project_of grp (arrival_ids grp))) <$> grps;
    ai_project_task_ids :
      as_project_task_ids a = (λ grp, (uuid rt grp.1, arrival_ids grp)) <$> grps
  }.

(** The parent the second pass finds for a child with source task [g]. *)
Definition linked_parent (id_mapping : gmap string string)
    (tasks0 : pydict sp_task) (g : gtask) : option string :=
  p ← declared_parent g;
  x ← id_mapping !! p;
  if truthy x && PyDict.mem x tasks0 then Some x else None.

(** The children, among the entries [seen], that the second pass attaches
    to [key]. *)
Definition linked_children (id_mapping : gmap string string)
    (tasks0 : pydict sp_task) (seen : pydict gtask) (key : string) : list string :=
  (filter (λ e, linked_parent id_mapping tasks0 e.2 = Some key) seen).*1.

(** What the second pass has made of the first-pass entity [t0] stored
    under [key] once it has processed the entries [seen]. *)
Definition relinked (id_mapping : gmap string string) (tasks0 : pydict sp_task)
    (seen : pydict gtask) (key : string) (t0 : sp_task) : sp_task :=
  SpTask (t_id t0) (t_title t0) (t_notes t0) (t_projectId t0) (t_isDone t0)
    (t_doneOn t0) (t_dueDay t0)
    (match PyDict.get key seen ≫= linked_parent id_mapping tasks0 with
     | Some x => Some x
     | None => t_parentId t0
     end)
    (t_subTaskIds t0 ++ linked_children id_mapping tasks0 seen key)
    (t_created t0) (t_updated t0) (t_originalGoogleTaskId t0).

(** The state of the second pass once the entries [seen] of
    [task_id_to_original] have been processed. *)
Record second_pass_inv (id_mapping : gmap string string) (tasks0 : pydict sp_task)
    (seen : pydict gtask) (acc : pydict sp_task * gset string) : Prop :=
  SecondPassInv {
    sp_keys : acc.1.*1 = tasks0.*1;
    sp_tasks : ∀ key t0, PyDict.get key tasks0 = Some t0 →
                 PyDict.get key acc.1 = Some (relinked id_mapping tasks0 seen key t0);
    sp_subtasks : ∀ c, c ∈ acc.2 ↔
                    ∃ g, (c, g) ∈ seen ∧ is_Some (linked_parent id_mapping tasks0 g)
  }.
End Invariants.

(** Every label handed out so far is below the next draw. *)
Definition labels_below (n : nat) (grps : list (nat * task_list)) : Prop :=
  Forall (λ grp, grp.1 < n) grps ∧ Forall (λ e, e.1 < n) (grps ≫= group_tasks).

(** *** The circular-reference walk *)

Section WalkInvariant.
Context (task_entities : pydict v_task).

(** The truthy value of a loop variable. *)
Definition live (current : option string) : option string :=
  c ← current; if truthy c then Some c else None.

(** The entities whose key the walk has not visited. *)
Definition unvisited (visited : list string) : nat :=
  length (filter (λ kv : string * v_task, kv.1 ∉ visited) task_entities).

(** The state of the walk after [n] iterations: it has visited the task and
    its first [n] ancestors, which are pairwise distinct, and is about to
    test the next one. *)
Record walk_inv (t p : string) (n : nat) (visited : list string)
    (current : option string) : Prop := WalkInv {
  wi_visited : ∀ x, x ∈ visited ↔
                 x = t ∨ ∃ i, i < n ∧ Violations.ancestor task_entities p i = Some x;
  wi_fresh : ∀ i, i < n → Violations.ancestor task_entities p i ≠ Some t;
  wi_distinct : ∀ i j x, i < j → j < n →
                  Violations.ancestor task_entities p i = Some x →
                  Violations.ancestor task_entities p j ≠ Some x;
  wi_current : live current = Violations.ancestor task_entities p n
}.

(** What check 5 has to say about one entry. *)
Definition parent_violation (entry : string * v_task) (e : validation_error) : Prop :=
  ∃ p, vt_parentId entry.2 = Some p ∧ p ≠ EmptyString
       ∧ ((PyDict.get p task_entities = None ∧ e = NonExistentParent entry.1 p)
          ∨ (is_Some (PyDict.get p task_entities) ∧ p = entry.1
             ∧ e = OwnParent entry.1)
          ∨ (is_Some (PyDict.get p task_entities) ∧ p ≠ entry.1
             ∧ Violations.circular task_entities entry.1 p
             ∧ e = CircularParent entry.1)).

End WalkInvariant.

(** The messages of the first two checks. *)
Definition envelope_errors (b : v_backup) : list validation_error :=
  (if vb_crossModelVersion b then [] else [MissingCrossModelVersion])
  ++ (if vb_timestamp b then [] else [MissingTimestamp])
  ++ (if vb_lastUpdate b then [] else [MissingLastUpdate]).

Definition duplicate_errors (d : v_data) : list validation_error :=
  if bool_decide (length (vd_task_ids d) ≠ length (remove_dups (vd_task_ids d)))
  then [DuplicateTaskIds] else [].

(** ** Sample documents *)

Module Samples.

(** A task with the fields the samples use: identifier, title, parent and
    the deleted flag. *)
Definition task (id title : string) (parent : option string) (deleted : option bool)
    : gtask :=
  GTask (Some id) (Some title) None (Some "needsAction") None None parent None
        deleted None.

Definition one_list (items : list gtask) : google_tasks_data :=
  GoogleTasks (Some "tasks#taskLists")
    (Some [TaskList (Some "My Tasks") (Some items)]).

(** A parent and its child, as in [test_subtask_relationships]. *)
Definition parent_task : gtask := task "parent_task" "Parent Task" None None.
Definition child_task : gtask :=
  task "child_task" "Child Task" (Some "parent_task") None.
Definition doc_parent_child : google_tasks_data :=
  one_list [parent_task; child_task].

(** Four tasks with one identifier in two lists, as in
    [test_duplicate_task_ids]. *)
Definition doc_duplicates : google_tasks_data :=
  GoogleTasks (Some "tasks#taskLists")
    (Some [TaskList (Some "My Tasks")
             (Some [task "SAME_ID" "Task One" None None;
                    task "SAME_ID" "Task Two" None None]);
           TaskList (Some "Second List")
             (Some [task "SAME_ID" "Task Three" None None;
                    task "SAME_ID" "Task Four" None None])]).

(** A child whose parent, listed before it, is deleted. *)
Definition deleted_parent : gtask := task "p" "Parent" None (Some true).
Definition orphan : gtask := task "c" "Child" (Some "p") None.
Definition doc_dropped_parent : google_tasks_data :=
  one_list [deleted_parent; orphan].

(** A deleted task followed by a live task with the same identifier. *)
Definition doc_dropped_first : google_tasks_data :=
  one_list [deleted_parent; task "p" "Second" None None].

(** A task that declares itself as parent. *)
Definition doc_self_parent : google_tasks_data :=
  one_list [task "a" "A" (Some "a") None].

(** Three generations. *)
Definition grandparent : gtask := task "g" "Grandparent" None None.
Definition middle : gtask := task "p" "Parent" (Some "g") None.
Definition grandchild : gtask := task "c" "Child" (Some "p") None.
Definition doc_chain : google_tasks_data :=
  one_list [grandparent; middle; grandchild].

(** A list of a deleted and a hidden task only. *)
Definition hidden_task : gtask :=
  GTask (Some "h") (Some "Hidden") None (Some "needsAction") None None None None
        None (Some true).
Definition only_dropped : task_list :=
  TaskList (Some "Gone") (Some [deleted_parent; hidden_task]).
Definition doc_only_dropped : google_tasks_data :=
  GoogleTasks (Some "tasks#taskLists") (Some [only_dropped]).

(** Documents without [items]. *)
Definition doc_no_items : google_tasks_data :=
  GoogleTasks (Some "tasks#taskLists") None.
Definition list_no_items : task_list := TaskList (Some "Bare") None.
Definition doc_list_no_items : google_tasks_data :=
  GoogleTasks (Some "tasks#taskLists") (Some [list_no_items]).

(** A task last updated at the epoch, and one with an unreadable stamp. *)
Definition epoch_task : gtask :=
  GTask (Some "e") (Some "Epoch") None (Some "needsAction") None None None
        (Some "1970-01-01T00:00:00Z") None None.
Definition stamped_task : gtask :=
  GTask (Some "s") (Some "Stamped") None (Some "needsAction") None None None
        (Some "2020-10-10T03:46:42.098751Z") None None.
Definition unstamped_task : gtask :=
  GTask (Some "u") (Some "Unstamped") None (Some "needsAction") None None None
        (Some "yesterday") None None.

(** Backups for the validator. *)
Definition bare_backup : v_backup := VBackup None false true true.

Definition bad_project_backup : v_backup :=
  VBackup
    (Some (VData ["bad_task"]
             [("bad_task", VTask (Some "non_existent_project") None (Some []))]
             [("project", VProject (Some []))]))
    true true true.

Definition two_cycle_backup : v_backup :=
  VBackup
    (Some (VData ["task_a"; "task_b"]
             [("task_a", VTask (Some "project") (Some "task_b") (Some []));
              ("task_b", VTask (Some "project") (Some "task_a") (Some []))]
             [("project", VProject (Some []))]))
    true true true.

Definition listed_subtask_backup : v_backup :=
  VBackup
    (Some (VData ["task_a"; "task_b"]
             [("task_a", VTask (Some "project") None (Some ["task_b"]));
              ("task_b", VTask (Some "project") (Some "task_a") (Some []))]
             [("project", VProject (Some ["task_a"; "task_b"]))]))
    true true true.

End Samples.

(** ** The older conversion of one task

    [convert_task] is the variant the converter used before identifiers
    were assigned by [convert_task_list]: it takes the identifier of a task
    from [id_mapping] when the original identifier is already there, and
    writes the entry itself.  Its fourth argument, [original_id_to_task],
    is never read. *)

(** What [convert_task] reads and changes besides its arguments: the
    number of [generate_uuid()] calls and of clock readings made so far,
    and the dictionary [id_mapping]. *)
Record ct_state := CtState {
  ct_uuids : nat;
  ct_clock : nat;
  ct_id_mapping : gmap string string
}.

Section Legacy.
Context (rt : runtime).

(** [convert_task].  The default of [id_mapping.get(original_id,
    generate_uuid())] is an argument of the call, so the identifier is
    drawn whether or not the key is found. *)
Definition convert_task (g : gtask) (project_id : string) (s : ct_state)
    : option sp_task * ct_state :=
  if dropped g then (None, s)
  else
    let original := original_id g in
    let task_id := default (uuid rt (ct_uuids s)) (ct_id_mapping s !! original) in
    let id_mapping :=
      if truthy original then <[original := task_id]> (ct_id_mapping s)
      else ct_id_mapping s in
    let is_done := bool_decide (g_status g = Some "completed") in
    let done_on := if is_done then parse_iso_to_unix_ms rt (g_completed g) else None in
    let updated_ts := parse_iso_to_unix_ms rt (g_updated g) in
    let current_ts := clock rt (ct_clock s) in
    let due_day := parse_iso_to_date_string rt (g_due g) in
    let parent_id := declared_parent g ≫= λ p, id_mapping !! p in
    (Some {| t_id := task_id;
             t_title := sanitize_title (g_title g);
             t_notes := default EmptyString (g_notes g);
             t_projectId := project_id;
             t_isDone := is_done;
             t_doneOn := done_on;
             t_dueDay := due_day;
             t_parentId := parent_id;
             t_subTaskIds := [];
             t_created := py_or updated_ts current_ts;
             t_updated := py_or updated_ts current_ts;
             t_originalGoogleTaskId :=
               if truthy original then Some original else None |},
     CtState (S (ct_uuids s)) (S (ct_clock s)) id_mapping).

End Legacy.

(** ** Further vocabulary *)

(** The rest of a string after its first character, when that character
    is white space. *)
Definition skip_space (s : string) : option string :=
  match s with
  | EmptyString => None
  | String a r =>
      if PyStr.space (PyStr.code1 a) then Some r
      else match r with
           | EmptyString => None
           | String b r2 =>
               if PyStr.space (PyStr.code2 a b) then Some r2
               else match r2 with
                    | EmptyString => None
                    | String c r3 =>
                        if PyStr.space (PyStr.code3 a b c) then Some r3 else None
                    end
           end
  end.

(** [c not in s]. *)
Definition lacks (c : ascii) (s : string) : Prop := PyStr.contains c s = false.

(** What the second pass may do to an entity of a table with the given
    keys: give it the key of an entity as [parentId] and append keys to
    its [subTaskIds]; everything else stays. *)
Definition only_linked (keys : list string) (t t' : sp_task) : Prop :=
  t_id t' = t_id t ∧ t_title t' = t_title t ∧ t_notes t' = t_notes t
  ∧ t_projectId t' = t_projectId t ∧ t_isDone t' = t_isDone t
  ∧ t_doneOn t' = t_doneOn t ∧ t_dueDay t' = t_dueDay t
  ∧ t_created t' = t_created t ∧ t_updated t' = t_updated t
  ∧ t_originalGoogleTaskId t' = t_originalGoogleTaskId t
  ∧ (t_parentId t' = t_parentId t
     ∨ ∃ x, t_parentId t' = Some x ∧ x ≠ EmptyString ∧ x ∈ keys)
  ∧ ∃ added, t_subTaskIds t' = t_subTaskIds t ++ added
             ∧ Forall (λ c, c ∈ keys) added.

(** The entry [e] of [task_id_to_original] has been linked in [tasks]: the
    task has the parent the pass finds for it, and that parent lists it. *)
Definition settled (id_mapping : gmap string string) (tasks : pydict sp_task)
    (e : string * gtask) : Prop :=
  PyDict.mem e.1 tasks = true →
  ∀ x, linked_parent id_mapping tasks e.2 = Some x →
       (∃ t, PyDict.get e.1 tasks = Some t ∧ t_parentId t = Some x)
       ∧ (∃ tx, PyDict.get x tasks = Some tx ∧ e.1 ∈ t_subTaskIds tx).

(** The fields of a converted task that the first pass fixes for good: how
    they come from the source task [g], converted into the project
    [project_id] at the clock reading [now]. *)
Definition converted_fields (rt : runtime) (project_id : string) (now : Z)
    (g : gtask) (t : sp_task) : Prop :=
  t_title t = sanitize_title (g_title g)
  ∧ t_notes t = default EmptyString (g_notes g)
  ∧ t_projectId t = project_id
  ∧ t_isDone t = bool_decide (g_status g = Some "completed")
  ∧ t_doneOn t = (if bool_decide (g_status g = Some "completed")
                  then parse_iso_to_unix_ms rt (g_completed g) else None)
  ∧ t_dueDay t = parse_iso_to_date_string rt (g_due g)
  ∧ t_created t = py_or (parse_iso_to_unix_ms rt (g_updated g)) now
  ∧ t_updated t = py_or (parse_iso_to_unix_ms rt (g_updated g)) now
  ∧ t_originalGoogleTaskId t
    = (if truthy (original_id g) then Some (original_id g) else None).

(** The table of the first pass once the labelled tasks [l] have been
    processed: its [i]-th entry is the [i]-th converted task, built at the
    clock reading [S i] (the first reading is that of
    [create_empty_sp_data]) for a project that [owner] allows. *)
Definition payload_inv (rt : runtime) (owner : nat * gtask → string → Prop)
    (l : list (nat * gtask)) (s : conv_state) : Prop :=
  cs_clock s = S (length (eligible_tasks l))
  ∧ ∀ i kt, cs_all_tasks s !! i = Some kt →
      ∃ e project_id, eligible_tasks l !! i = Some e ∧ owner e project_id
                      ∧ kt.1 = new_id rt e
                      ∧ converted_fields rt project_id (clock rt (S i)) e.2 kt.2.

(** The project of a labelled task of a document: the identifier drawn for
    its group. *)
Definition project_of_task (rt : runtime) (doc : google_tasks_data)
    (e : nat * gtask) (project_id : string) : Prop :=
  ∃ grp, grp ∈ source_groups doc ∧ e ∈ group_tasks grp
         ∧ project_id = uuid rt grp.1.

(** The converted source task [e] declares a parent whose identifier first
    occurs on a task dropped before [e] was reached.  The first pass then
    gives [e] the identifier drawn for that dropped task as [parentId],
    and the second pass leaves it there. *)
Definition dangling (l : list (nat * gtask)) (e : nat * gtask) : Prop :=
  ∃ p ej, declared_parent e.2 = Some p ∧ first_occurrence p l = Some ej
          ∧ dropped ej.2 = true ∧ ej.1 < e.1.

(** [v_parent_link entities c x]: the entity stored under [c] has the
    truthy [parentId] [x]. *)
Definition v_parent_link (entities : pydict v_task) (c x : string) : Prop :=
  ∃ t, PyDict.get c entities = Some t ∧ vt_parentId t = Some x ∧ x ≠ EmptyString.

(** A backup whose task entities have lost their [subTaskIds] key. *)
Definition forget_subTaskIds (t : v_task) : v_task :=
  VTask (vt_projectId t) (vt_parentId t) None.

Definition forget_children (b : v_backup) : v_backup :=
  VBackup
    ((λ d, VData (vd_task_ids d)
             (prod_map id forget_subTaskIds <$> vd_task_entities d)
             (vd_project_entities d)) <$> vb_data b)
    (vb_crossModelVersion b) (vb_timestamp b) (vb_lastUpdate b).

(** ** The validator on any backup document

    [validate_sp_data] tests the presence of ['data'] with [in].  The
    sub-documents of [data] it reaches with subscripts,
    [sp_data['task']['ids']], [sp_data['task']['entities']] and
    [sp_data['project']['entities']], and a subscript raises [KeyError]
    when its key is missing. *)

(** The result of a call: the value returned, or the key of the
    [KeyError] raised. *)
Inductive outcome (A : Type) : Type :=
| Returns (value : A)
| KeyError (key : string).

Arguments Returns {A} value.
Arguments KeyError {A} key.

Module Raw.

(** The dictionaries the validator subscripts, each key possibly missing. *)
Record tasks := Tasks {
  ids : option (list string);
  entities : option (pydict v_task)
}.

Record projects := Projects {
  project_entities : option (pydict v_project)
}.

Record data := Data {
  task : option tasks;
  project : option projects
}.

Record backup := Backup {
  data_field : option data;
  crossModelVersion : bool;
  timestamp : bool;
  lastUpdate : bool
}.

(** The subscripts of [validate_sp_data], in the order in which they are
    evaluated: the three sub-documents, or the first key that is missing. *)
Definition sub_documents (sp_data : data) : outcome v_data :=
  match task sp_data with
  | None => KeyError "task"
  | Some t =>
      match ids t with
      | None => KeyError "ids"
      | Some task_ids =>
          match entities t with
          | None => KeyError "entities"
          | Some task_entities =>
              match project sp_data with
              | None => KeyError "project"
              | Some p =>
                  match project_entities p with
                  | None => KeyError "entities"
                  | Some proj_entities =>
                      Returns (VData task_ids task_entities proj_entities)
                  end
              end
          end
      end
  end.

(** The document with the sub-documents the subscripts have found. *)
Definition typed (sp_backup : backup) (d : v_data) : v_backup :=
  VBackup (Some d) (crossModelVersion sp_backup) (timestamp sp_backup)
          (lastUpdate sp_backup).

(** [validate_sp_data] on any document.  An exception takes the list
    [errors] with it, so nothing is lost by evaluating the subscripts
    before the checks that the source interleaves with them. *)
Definition validate_sp_data (sp_backup : backup) : outcome (option (list string)) :=
  match data_field sp_backup with
  | None => Returns (Some [message MissingData])
  | Some sp_data =>
      match sub_documents sp_data with
      | KeyError key => KeyError key
      | Returns d => Returns (map message <$> Validator.errors (typed sp_backup d))
      end
  end.

(** Every key that the validator subscripts is there. *)
Definition subscriptable (sp_backup : backup) : Prop :=
  ∀ sp_data, data_field sp_backup = Some sp_data →
    ∃ t p, task sp_data = Some t ∧ project sp_data = Some p
           ∧ is_Some (ids t) ∧ is_Some (entities t)
           ∧ is_Some (project_entities p).

End Raw.

(** ** More sample values *)

Module MoreSamples.

(** A table of two converted tasks and the source task of the second, whose
    parent is the first. *)
Definition plain_task (id : string) : sp_task :=
  SpTask id "Task" EmptyString "project" false None None None [] 0 0 None.

Definition two_tasks : pydict sp_task :=
  [("p", plain_task "p"); ("c", plain_task "c")].

(** The same table with the parent of the second task already written. *)
Definition guessed_tasks : pydict sp_task :=
  [("p", plain_task "p"); ("c", set_parentId "p" (plain_task "c"))].

Definition one_link : pydict gtask :=
  [("c", Samples.task "C" "Child" (Some "P") None)].

Definition one_mapping : gmap string string := {["P" := "p"]}.

(** A backup the validator accepts: a parent that lists its child. *)
Definition family_backup : v_backup :=
  VBackup
    (Some (VData ["task_a"; "task_b"]
             [("task_a", VTask (Some "project") None (Some ["task_b"]));
              ("task_b", VTask (Some "project") (Some "task_a") (Some []))]
             [("project", VProject (Some ["task_a"]))]))
    true true true.

(** Documents for the validator: one without [data] and without
    [crossModelVersion], one whose [data] is empty, and a complete one with
    two tasks that name each other as parent. *)
Definition raw_bare : Raw.backup := Raw.Backup None false true true.

Definition raw_empty_data : Raw.backup :=
  Raw.Backup (Some (Raw.Data None None)) true true true.

Definition raw_two_cycle : Raw.backup :=
  Raw.Backup
    (Some (Raw.Data
             (Some (Raw.Tasks (Some ["task_a"; "task_b"])
                      (Some [("task_a", VTask (Some "project") (Some "task_b") (Some []));
                             ("task_b", VTask (Some "project") (Some "task_a") (Some []))])))
             (Some (Raw.Projects (Some [("project", VProject (Some []))])))))
    false true true.

(** The UTF-8 bytes of a string, given by their numbers. *)
Definition utf8 (bytes : list nat) : string :=
  fold_right (λ n s, String (ascii_of_nat n) s) EmptyString bytes.

End MoreSamples.

#[local] Set Warnings "-clear-no-such-hyp".

(** * Properties *)

(** ** Truthiness *)

Lemma truthy_true s : truthy s = true ↔ s ≠ EmptyString.
Proof. destruct s; simpl; split; congruence. Qed.

Lemma truthy_false s : truthy s = false ↔ s = EmptyString.
Proof. destruct s; simpl; split; congruence. Qed.

Lemma declared_parent_Some g p :
  declared_parent g = Some p ↔ g_parent g = Some p ∧ p ≠ EmptyString.
Proof.
  unfold declared_parent. destruct (g_parent g) as [q|]; [|naive_solver].
  destruct (truthy q) eqn:Hq.
  - apply truthy_true in Hq. naive_solver.
  - apply truthy_false in Hq. naive_solver.
Qed.

Lemma declared_parent_truthy g p : declared_parent g = Some p → truthy p = true.
Proof. intros [_ ?]%declared_parent_Some. by apply truthy_true. Qed.

(** ** Dictionaries *)

Module PyDictFacts.
Section Facts.
Context {V : Type}.
Implicit Types (d : pydict V) (k : string) (v : V).

Lemma get_None d k : PyDict.get k d = None ↔ k ∉ d.*1.
Proof.
  induction d as [|[k' v'] d IH]; simpl.
  - split; [intros _; apply not_elem_of_nil | done].
  - rewrite not_elem_of_cons. case_decide; naive_solver.
Qed.

Lemma get_is_Some d k : is_Some (PyDict.get k d) ↔ k ∈ d.*1.
Proof.
  rewrite <-not_eq_None_Some, get_None.
  destruct (decide (k ∈ d.*1)); naive_solver.
Qed.

Lemma mem_true d k : PyDict.mem k d = true ↔ k ∈ d.*1.
Proof. unfold PyDict.mem. rewrite bool_decide_eq_true. apply get_is_Some. Qed.

Lemma mem_false d k : PyDict.mem k d = false ↔ k ∉ d.*1.
Proof. unfold PyDict.mem. rewrite bool_decide_eq_false, get_is_Some. done. Qed.

Lemma get_Some_elem d k v : PyDict.get k d = Some v → (k, v) ∈ d.
Proof.
  induction d as [|[k' v'] d IH]; simpl; [done|].
  case_decide; intros; simplify_eq; [left | right; auto].
Qed.

Lemma elem_get d k v : NoDup d.*1 → (k, v) ∈ d → PyDict.get k d = Some v.
Proof.
  induction d as [|[k' v'] d IH]; simpl; intros Hnd Hin.
  - by apply elem_of_nil in Hin.
  - apply NoDup_cons in Hnd as [Hk' Hnd]. apply elem_of_cons in Hin as [?|Hin].
    + simplify_eq. by rewrite decide_True.
    + rewrite decide_False; [auto|]. intros ->. apply Hk'.
      apply list_elem_of_fmap. by exists (k, v).
Qed.

Lemma elem_get_is_Some d k v : (k, v) ∈ d → is_Some (PyDict.get k d).
Proof. intros. apply get_is_Some, list_elem_of_fmap. by exists (k, v). Qed.

Lemma get_app d1 d2 k :
  PyDict.get k (d1 ++ d2) =
    match PyDict.get k d1 with Some v => Some v | None => PyDict.get k d2 end.
Proof. induction d1 as [|[k' v'] d1 IH]; simpl; [done|]. by case_decide. Qed.

Lemma set_fresh d k v : PyDict.get k d = None → PyDict.set k v d = d ++ [(k, v)].
Proof.
  induction d as [|[k' v'] d IH]; simpl; [done|].
  case_decide; [done|]. intros. f_equal. auto.
Qed.

Lemma keys_update d k (f : V → V) : (PyDict.update k f d).*1 = d.*1.
Proof.
  induction d as [|[k0 v0] d IH]; simpl; [done|].
  case_decide; simpl; by f_equal.
Qed.

Lemma get_update d k k' (f : V → V) :
  PyDict.get k' (PyDict.update k f d) =
    if decide (k = k') then f <$> PyDict.get k d else PyDict.get k' d.
Proof.
  induction d as [|[k0 v0] d IH]; simpl.
  - by case_decide.
  - destruct (decide (k0 = k)) as [->|Hne]; simpl.
    + repeat case_decide; naive_solver.
    + rewrite IH. repeat case_decide; naive_solver.
Qed.

End Facts.
End PyDictFacts.

(** ** Labels *)

Lemma label_items_bounds n items e :
  e ∈ label_items n items → n ≤ e.1 < n + length items.
Proof.
  revert n. induction items as [|g r IH]; simpl; intros n Hin.
  - by apply elem_of_nil in Hin.
  - apply elem_of_cons in Hin as [->|Hin]; simpl; [lia|].
    apply IH in Hin. lia.
Qed.

Lemma label_items_NoDup n items : NoDup (label_items n items).*1.
Proof.
  revert n. induction items as [|g r IH]; simpl; intros n; constructor; [|done].
  intros (e & He & Hin)%list_elem_of_fmap.
  apply label_items_bounds in Hin. simpl in *. lia.
Qed.

(** The number of identifiers a list of groups draws. *)
Lemma label_lists_bounds n lists grp e :
  grp ∈ label_lists n lists → e ∈ group_tasks grp →
  n ≤ grp.1 ∧ grp.1 < e.1.
Proof.
  revert n. induction lists as [|tl r IH]; simpl; intros n Hg He.
  - by apply elem_of_nil in Hg.
  - apply elem_of_cons in Hg as [->|Hg].
    + apply label_items_bounds in He. simpl in *. lia.
    + apply (IH _ Hg) in He. lia.
Qed.

Lemma label_lists_lower n lists grp : grp ∈ label_lists n lists → n ≤ grp.1.
Proof.
  revert n. induction lists as [|tl r IH]; simpl; intros n Hg.
  - by apply elem_of_nil in Hg.
  - apply elem_of_cons in Hg as [->|Hg]; simpl; [lia|]. apply IH in Hg. lia.
Qed.

Lemma source_tasks_group doc e :
  e ∈ source_tasks doc ↔ ∃ grp, grp ∈ source_groups doc ∧ e ∈ group_tasks grp.
Proof. unfold source_tasks. rewrite list_elem_of_bind. naive_solver. Qed.

(** ** First occurrences *)

Lemma first_occurrence_app p l1 l2 :
  first_occurrence p (l1 ++ l2) =
    match first_occurrence p l1 with
    | Some e => Some e
    | None => first_occurrence p l2
    end.
Proof. induction l1 as [|e l1 IH]; simpl; [done|]. by case_decide. Qed.

Lemma first_occurrence_Some p l e :
  first_occurrence p l = Some e → e ∈ l ∧ original_id e.2 = p.
Proof.
  induction l as [|e' l IH]; simpl; [done|].
  case_decide; intros; simplify_eq.
  - split; [left | done].
  - destruct IH as [? ?]; [done|]. split; [by right | done].
Qed.

(** ** The first pass *)

Section FirstPass.
Context (rt : runtime) (Hinj : Inj (=) (=) (uuid rt)).

Lemma eligible_tasks_app l1 l2 :
  eligible_tasks (l1 ++ l2) = eligible_tasks l1 ++ eligible_tasks l2.
Proof. apply filter_app. Qed.

Lemma eligible_tasks_elem e l :
  e ∈ eligible_tasks l ↔ e ∈ l ∧ eligible e.2 = true.
Proof. unfold eligible_tasks. rewrite list_elem_of_filter. naive_solver. Qed.

Lemma first_guess_mono l l' t e : first_guess rt l t e → first_guess rt (l ++ l') t e.
Proof.
  intros (l1 & l2 & -> & Hp). exists l1, (l2 ++ l').
  by rewrite <-app_assoc.
Qed.

(** A first-pass [parentId] names the first occurrence of the declared
    parent in the whole list. *)
Lemma first_guess_first_occurrence l t e x :
  first_guess rt l t e → t_parentId t = Some x →
  ∃ p e', declared_parent e.2 = Some p ∧ first_occurrence p l = Some e'
          ∧ x = new_id rt e'.
Proof.
  intros (l1 & l2 & -> & Hp) Hx. rewrite Hx in Hp.
  destruct (declared_parent e.2) as [p|]; [|done]. simpl in Hp.
  destruct (first_occurrence p (l1 ++ [e])) as [e'|] eqn:He'; [|done].
  exists p, e'. simpl in Hp. simplify_eq. repeat split.
  change (l1 ++ e :: l2) with (l1 ++ [e] ++ l2).
  by rewrite app_assoc, first_occurrence_app, He'.
Qed.

Lemma fresh_task_mono l l' kt e : fresh_task rt l kt e → fresh_task rt (l ++ l') kt e.
Proof. intros (? & ? & ? & ?). repeat split; auto using first_guess_mono. Qed.

Lemma first_pass_keys l n s :
  first_pass_inv rt l n s → (cs_all_tasks s).*1 = new_id rt <$> eligible_tasks l.
Proof.
  intros [_ _ _ H]. induction H as [|kt e d l' (? & _) _ IH]; simpl; [done|].
  by f_equal.
Qed.

Lemma first_pass_fresh l n s :
  first_pass_inv rt l n s → Forall (λ e, e.1 < n) l →
  PyDict.get (uuid rt n) (cs_all_tasks s) = None.
Proof.
  intros Hinv Hlt. apply PyDictFacts.get_None. rewrite (first_pass_keys _ _ _ Hinv).
  intros (e & He & [Hin _]%eligible_tasks_elem)%list_elem_of_fmap.
  apply Hinj in He. rewrite Forall_forall in Hlt. apply Hlt in Hin. lia.
Qed.

Lemma first_pass_init : first_pass_inv rt [] 0 (ConvState 0 1 ∅ [] []).
Proof.
  split; simpl; [done| |done|constructor].
  intros p. rewrite lookup_empty. by destruct (truthy p).
Qed.

(** One source task: the table of first occurrences is extended before the
    task is tested for deletion, the other tables only when it is converted. *)
Lemma convert_item_inv project_id l n s ids g :
  first_pass_inv rt l n s → Forall (λ e, e.1 < n) l →
  first_pass_inv rt (l ++ [(n, g)]) (S n) (convert_item rt project_id (s, ids) g).1
  ∧ (convert_item rt project_id (s, ids) g).2
      = ids ++ (new_id rt <$> eligible_tasks [(n, g)]).
Proof.
  intros Hinv Hlt. pose proof (first_pass_fresh _ _ _ Hinv Hlt) as Hfresh.
  destruct Hinv as [Hn Hmap Horig Htasks].
  unfold convert_item; simpl. rewrite Hn.
  set (m' := if truthy (original_id g) && bool_decide (cs_id_mapping s !! original_id g = None)
             then <[original_id g := uuid rt n]> (cs_id_mapping s)
             else cs_id_mapping s).
  assert (Hmap' : ∀ p, m' !! p =
            if truthy p then new_id rt <$> first_occurrence p (l ++ [(n, g)]) else None).
  { intros p. rewrite first_occurrence_app. simpl. subst m'.
    destruct (truthy (original_id g)) eqn:Hto; simpl.
    - case_bool_decide as Hnone.
      + destruct (decide (original_id g = p)) as [<-|Hne].
        * rewrite lookup_insert_eq, Hto.
          rewrite Hmap, Hto in Hnone.
          by destruct (first_occurrence (original_id g) l).
        * rewrite lookup_insert_ne, Hmap by done.
          destruct (truthy p); [|done].
          by destruct (first_occurrence p l).
      + rewrite Hmap. destruct (truthy p) eqn:Htp; [|done].
        destruct (first_occurrence p l) eqn:Hfo; [done|].
        case_decide as Hp; [|done]. subst p.
        rewrite Hmap, Hto, Hfo in Hnone. done.
    - rewrite Hmap. destruct (truthy p) eqn:Htp; [|done].
      destruct (first_occurrence p l); [done|].
      case_decide as Hp; [|done]. congruence. }
  assert (Hel : eligible_tasks [(n, g)] = if dropped g then [] else [(n, g)]).
  { unfold eligible_tasks, eligible. destruct (dropped g) eqn:Hd.
    - by rewrite filter_cons_False by (simpl; rewrite Hd; simpl; congruence).
    - by rewrite filter_cons_True by (simpl; by rewrite Hd). }
  unfold convert_task_with_assigned_id. rewrite Hel.
  destruct (dropped g) eqn:Hd; simpl.
  - rewrite app_nil_r. split; [|done].
    split; simpl; rewrite ?eligible_tasks_app, ?Hel, ?Hd, ?app_nil_r; [done..|].
    eapply Forall2_impl; [done|]. intros. by apply fresh_task_mono.
  - split; [|done].
    split; simpl; rewrite ?eligible_tasks_app, ?Hel, ?Hd; [done|done| |].
    + rewrite fmap_app, Horig. apply PyDictFacts.set_fresh.
      apply PyDictFacts.get_None. rewrite <-Horig.
      apply PyDictFacts.get_None in Hfresh.
      rewrite (first_pass_keys l n s) in Hfresh by (by split).
      rewrite Horig, <-list_fmap_compose. done.
    + rewrite PyDictFacts.set_fresh by done.
      apply Forall2_app.
      * eapply Forall2_impl; [done|]. intros. by apply fresh_task_mono.
      * constructor; [|constructor]. repeat split; simpl; [done..|].
        exists l, []. split; [done|]. simpl.
        destruct (declared_parent g) as [p|] eqn:Hp; [|done].
        simpl. by rewrite Hmap', (declared_parent_truthy _ _ Hp).
Qed.

Lemma convert_items_inv project_id items l n s ids :
  first_pass_inv rt l n s → Forall (λ e, e.1 < n) l →
  let r := foldl (convert_item rt project_id) (s, ids) items in
  first_pass_inv rt (l ++ label_items n items) (n + length items) r.1
  ∧ r.2 = ids ++ (new_id rt <$> eligible_tasks (label_items n items)).
Proof.
  revert l n s ids. induction items as [|g items IH]; intros l n s ids Hinv Hlt; simpl.
  - rewrite !app_nil_r, Nat.add_0_r. done.
  - destruct (convert_item_inv project_id l n s ids g Hinv Hlt) as [Hinv' Hids'].
    destruct (convert_item rt project_id (s, ids) g) as [s' ids'] eqn:Hstep.
    simpl in *. subst ids'.
    destruct (IH (l ++ [(n, g)]) (S n) s'
                (ids ++ (new_id rt <$> eligible_tasks [(n, g)])) Hinv') as [H1 H2].
    { apply Forall_app. split; [|by repeat constructor].
      eapply Forall_impl; [done|]. simpl. lia. }
    rewrite <-app_assoc in H1. simpl in H1.
    rewrite Nat.add_succ_r. split; [done|].
    rewrite H2, <-app_assoc. f_equal.
    change ((n, g) :: label_items (S n) items) with ([(n, g)] ++ label_items (S n) items).
    by rewrite eligible_tasks_app, fmap_app.
Qed.

(** One group: a project identifier is drawn, then the items are converted. *)
Lemma convert_task_list_inv l n s tl :
  first_pass_inv rt l n s → Forall (λ e, e.1 < n) l →
  let r := convert_task_list rt tl s in
  first_pass_inv rt (l ++ group_tasks (n, tl)) (S n + length (items_of tl)) r.1.1
  ∧ r.1.2 = project_of rt (n, tl) (arrival_ids rt (n, tl))
  ∧ r.2 = arrival_ids rt (n, tl).
Proof.
  intros Hinv Hlt. unfold convert_task_list. simpl.
  destruct Hinv as [Hn Hmap Horig Htasks]. rewrite Hn.
  destruct (convert_items_inv (uuid rt n) (items_of tl) l (S n)
              (ConvState (S n) (cs_clock s) (cs_id_mapping s)
                 (cs_all_tasks s) (cs_task_id_to_original s)) []) as [H1 H2].
  { by split. }
  { eapply Forall_impl; [done|]. simpl. lia. }
  unfold items_of in *. simpl in *. rewrite H2. done.
Qed.
End FirstPass.

(** ** The loop over the groups *)

Section Groups.
Context (rt : runtime) (Hinj : Inj (=) (=) (uuid rt)).


Lemma labels_below_snoc n grps tl :
  labels_below n grps →
  labels_below (S n + length (items_of tl)) (grps ++ [(n, tl)]).
Proof.
  intros [Hg Ht]. split.
  - apply Forall_app. split; [|apply Forall_singleton; simpl; lia].
    eapply Forall_impl; [done|]. simpl. lia.
  - rewrite bind_app. apply Forall_app. split.
    + eapply Forall_impl; [done|]. simpl. lia.
    + simpl. rewrite app_nil_r. apply Forall_forall. intros e He.
      apply label_items_bounds in He. simpl in He. lia.
Qed.

Lemma add_task_list_inv grps n a tl :
  assembly_inv rt grps n a → labels_below n grps →
  assembly_inv rt (grps ++ [(n, tl)]) (S n + length (items_of tl))
    (add_task_list rt a tl).
Proof.
  intros [Hs Hids Hents Htids] [Hg Ht].
  destruct (convert_task_list_inv rt Hinj _ _ _ tl Hs Ht) as (H1 & H2 & H3).
  assert (Hfresh : uuid rt n ∉ (λ grp : nat * task_list, uuid rt grp.1) <$> grps).
  { intros (grp & He & Hin)%list_elem_of_fmap. apply Hinj in He.
    rewrite Forall_forall in Hg. apply Hg in Hin. lia. }
  unfold add_task_list.
  destruct (convert_task_list rt tl (as_state a)) as [[s' proj] ids].
  simpl in H1, H2, H3. subst proj ids. split; simpl.
  - rewrite bind_app. simpl. by rewrite app_nil_r.
  - rewrite fmap_app, Hids. done.
  - rewrite fmap_app, Hents. simpl. apply PyDictFacts.set_fresh.
    apply PyDictFacts.get_None. by rewrite <-list_fmap_compose.
  - rewrite fmap_app, Htids. simpl. apply PyDictFacts.set_fresh.
    apply PyDictFacts.get_None. by rewrite <-list_fmap_compose.
Qed.

Lemma add_task_lists_inv lists grps n a :
  assembly_inv rt grps n a → labels_below n grps →
  ∃ n', assembly_inv rt (grps ++ label_lists n lists) n' (foldl (add_task_list rt) a lists)
        ∧ labels_below n' (grps ++ label_lists n lists).
Proof.
  revert grps n a. induction lists as [|tl lists IH]; intros grps n a Hinv Hb; simpl.
  - exists n. by rewrite app_nil_r.
  - destruct (IH (grps ++ [(n, tl)]) (S n + length (items_of tl))
                (add_task_list rt a tl)) as (n' & H1 & H2).
    + by apply add_task_list_inv.
    + by apply labels_below_snoc.
    + exists n'. by rewrite <-app_assoc in H1, H2.
Qed.

Lemma assembly_init :
  assembly_inv rt [] 0 (Assembly (ConvState 0 1 ∅ [] []) [] [] []).
Proof. split; simpl; [apply first_pass_init|done..]. Qed.

(** The state in which the first loop of [convert_google_tasks_to_sp]
    leaves its tables. *)
Lemma first_loop_inv doc :
  ∃ n, assembly_inv rt (source_groups doc) n
         (foldl (add_task_list rt)
            (Assembly (ConvState 0 1 ∅ [] []) [] [] [])
            (default [] (gd_items doc)))
       ∧ labels_below n (source_groups doc).
Proof.
  destruct (add_task_lists_inv (default [] (gd_items doc)) [] 0 _ assembly_init)
    as (n & H1 & H2); [by split; constructor|].
  by exists n.
Qed.

Lemma source_groups_NoDup doc : NoDup (source_groups doc).*1.
Proof.
  unfold source_groups. generalize 0 (default [] (gd_items doc)).
  intros n lists. revert n. induction lists as [|tl r IH]; intros n; simpl;
    constructor; [|done].
  intros (grp & He & Hin)%list_elem_of_fmap.
  apply label_lists_lower in Hin. simpl in *. lia.
Qed.

Lemma label_lists_tasks_lower n lists e :
  e ∈ label_lists n lists ≫= group_tasks → n < e.1.
Proof.
  intros (grp & He & Hg)%list_elem_of_bind.
  destruct (label_lists_bounds _ _ _ _ Hg He). lia.
Qed.

Lemma source_tasks_NoDup doc : NoDup (source_tasks doc).*1.
Proof.
  unfold source_tasks, source_groups. generalize 0 (default [] (gd_items doc)).
  intros n lists. revert n. induction lists as [|tl r IH]; intros n; simpl.
  - constructor.
  - rewrite fmap_app. apply NoDup_app. split; [apply label_items_NoDup|].
    split; [|done].
    intros k (e & -> & He)%list_elem_of_fmap (e' & Hk & He')%list_elem_of_fmap.
    apply label_items_bounds in He. apply label_lists_tasks_lower in He'.
    simpl in *. lia.
Qed.

(** A label belongs to one source task only. *)
Lemma source_tasks_label doc k g g' :
  (k, g) ∈ source_tasks doc → (k, g') ∈ source_tasks doc → g = g'.
Proof.
  intros H1 H2. pose proof (source_tasks_NoDup doc) as Hnd.
  apply list_elem_of_lookup in H1 as [i Hi], H2 as [j Hj].
  assert (i = j) as ->; [|congruence].
  eapply NoDup_lookup; [done| |]; rewrite list_lookup_fmap.
  - by rewrite Hi.
  - by rewrite Hj.
Qed.

(** No task draws the identifier of a project. *)
Lemma source_labels_disjoint doc grp e :
  grp ∈ source_groups doc → e ∈ source_tasks doc → grp.1 ≠ e.1.
Proof.
  unfold source_tasks, source_groups. generalize 0 (default [] (gd_items doc)).
  intros n lists. revert n. induction lists as [|tl r IH]; intros n; simpl.
  - by intros []%elem_of_nil.
  - intros Hg He. apply elem_of_cons in Hg. apply elem_of_app in He.
    destruct Hg as [->|Hg], He as [He|He]; simpl.
    + apply label_items_bounds in He. simpl in *. lia.
    + apply label_lists_tasks_lower in He. simpl in *. lia.
    + apply label_lists_lower in Hg. apply label_items_bounds in He. simpl in *. lia.
    + eauto.
Qed.
End Groups.

(** Labels grow along the processing order. *)
Lemma label_items_sorted n items : StronglySorted lt (label_items n items).*1.
Proof.
  revert n. induction items as [|g r IH]; intros n; simpl; constructor; [done|].
  apply Forall_forall. intros k (e & -> & He)%list_elem_of_fmap.
  apply label_items_bounds in He. lia.
Qed.

Lemma source_tasks_sorted doc : StronglySorted lt (source_tasks doc).*1.
Proof.
  unfold source_tasks, source_groups. generalize 0 (default [] (gd_items doc)).
  intros n lists. revert n. induction lists as [|tl r IH]; intros n; simpl.
  - constructor.
  - rewrite fmap_app. apply StronglySorted_app_2; [|apply label_items_sorted|done].
    intros k1 k2 (e1 & -> & He1)%list_elem_of_fmap (e2 & -> & He2)%list_elem_of_fmap.
    apply label_items_bounds in He1. apply label_lists_tasks_lower in He2.
    simpl in *. lia.
Qed.

(** Around a task of the document: smaller labels before, larger after. *)
Lemma source_tasks_split doc l1 e l2 :
  source_tasks doc = l1 ++ e :: l2 →
  (∀ x, x ∈ l1 → x.1 < e.1) ∧ (∀ x, x ∈ l2 → e.1 < x.1).
Proof.
  intros Heq. pose proof (source_tasks_sorted doc) as Hs.
  rewrite Heq, fmap_app, fmap_cons in Hs.
  apply StronglySorted_app in Hs as (Hlt & _ & Htail). split.
  - intros x Hx. apply (Hlt x.1 e.1); [|left].
    apply list_elem_of_fmap. by exists x.
  - intros x Hx. apply StronglySorted_cons in Htail as [Hall _].
    rewrite Forall_forall in Hall. apply Hall.
    apply list_elem_of_fmap. by exists x.
Qed.

(** ** The second pass *)

Section SecondPass.
Context (id_mapping : gmap string string) (tasks0 : pydict sp_task).
Context (Hleaf : ∀ key t0, PyDict.get key tasks0 = Some t0 → t_subTaskIds t0 = []).

#[local] Abbreviation linked := (linked_parent id_mapping tasks0).
#[local] Abbreviation children := (linked_children id_mapping tasks0).

Lemma linked_children_snoc seen c g key :
  children (seen ++ [(c, g)]) key
  = children seen key ++ (if decide (linked g = Some key) then [c] else []).
Proof.
  unfold linked_children. rewrite filter_app, fmap_app. f_equal.
  case_decide.
  - by rewrite filter_cons_True.
  - by rewrite filter_cons_False.
Qed.

Lemma linked_children_seen seen key c : c ∈ children seen key → c ∈ seen.*1.
Proof.
  unfold linked_children. intros (e & -> & [_ ?]%list_elem_of_filter)%list_elem_of_fmap.
  apply list_elem_of_fmap. by exists e.
Qed.

Lemma get_snoc_linked seen c g key :
  c ∉ seen.*1 →
  PyDict.get key (seen ++ [(c, g)]) ≫= linked
  = if decide (key = c) then linked g else PyDict.get key seen ≫= linked.
Proof.
  intros Hc. rewrite PyDictFacts.get_app. simpl.
  destruct (decide (key = c)) as [->|Hk].
  - apply PyDictFacts.get_None in Hc. rewrite Hc. by rewrite decide_True.
  - destruct (PyDict.get key seen); [done|]. by rewrite decide_False.
Qed.

Lemma relinked_nil key t0 :
  t_subTaskIds t0 = [] → relinked id_mapping tasks0 [] key t0 = t0.
Proof. destruct t0. unfold relinked. simpl. by intros ->. Qed.

Lemma second_pass_init : second_pass_inv id_mapping tasks0 [] (tasks0, ∅).
Proof.
  split; simpl; [done| |].
  - intros key t0 Hk. rewrite relinked_nil; eauto.
  - intros c. split; [by intros ?%not_elem_of_empty|].
    by intros (g & []%elem_of_nil & _).
Qed.

Lemma second_pass_mem seen acc x :
  second_pass_inv id_mapping tasks0 seen acc →
  PyDict.mem x acc.1 = PyDict.mem x tasks0.
Proof.
  intros [Hk _ _]. destruct (PyDict.mem x tasks0) eqn:Hm.
  - apply PyDictFacts.mem_true. rewrite Hk. by apply PyDictFacts.mem_true.
  - apply PyDictFacts.mem_false. rewrite Hk. by apply PyDictFacts.mem_false.
Qed.

(** The guards of the loop body select exactly the children that
    [linked_parent] attaches. *)
Lemma link_subtask_skip seen acc c g :
  second_pass_inv id_mapping tasks0 seen acc →
  linked g = None → link_subtask id_mapping acc (c, g) = acc.
Proof.
  intros Hinv. unfold link_subtask, linked_parent. simpl.
  destruct (declared_parent g) as [p|]; simpl; [|done].
  destruct (negb (PyDict.mem c acc.1)); [done|].
  destruct (id_mapping !! p) as [x|]; simpl; [|done].
  rewrite (second_pass_mem seen acc x Hinv).
  by destruct (truthy x && PyDict.mem x tasks0).
Qed.

Lemma link_subtask_link seen acc c g x :
  second_pass_inv id_mapping tasks0 seen acc →
  c ∉ seen.*1 → c ∈ tasks0.*1 → linked g = Some x →
  link_subtask id_mapping acc (c, g)
  = (PyDict.update x (append_subTaskId c)
       (PyDict.update c (set_parentId x) acc.1), {[c]} ∪ acc.2).
Proof.
  intros Hinv Hc Hin. unfold link_subtask, linked_parent. simpl.
  destruct (declared_parent g) as [p|]; simpl; [|done].
  rewrite (second_pass_mem seen acc c Hinv).
  apply PyDictFacts.mem_true in Hin as ->. simpl.
  destruct (id_mapping !! p) as [y|]; simpl; [|done].
  rewrite (second_pass_mem seen acc y Hinv).
  destruct (truthy y && PyDict.mem y tasks0) eqn:Hy; [|done].
  intros [= ->]. apply andb_true_iff in Hy as [_ Hy].
  apply PyDictFacts.mem_true, PyDictFacts.get_is_Some in Hy as [t0 Ht0].
  destruct Hinv as [_ Htasks _]. rewrite PyDictFacts.get_update.
  pose proof (Htasks x t0 Ht0) as Hx.
  assert (Hnot : c ∉ t_subTaskIds (relinked id_mapping tasks0 seen x t0)).
  { simpl. rewrite (Hleaf x t0 Ht0). simpl. by intros ?%linked_children_seen. }
  case_decide as Hcx.
  - subst x. rewrite Hx. simpl. rewrite bool_decide_eq_false_2; done.
  - rewrite Hx. rewrite bool_decide_eq_false_2; done.
Qed.

Lemma link_subtask_inv seen acc c g :
  second_pass_inv id_mapping tasks0 seen acc →
  c ∉ seen.*1 → c ∈ tasks0.*1 →
  second_pass_inv id_mapping tasks0 (seen ++ [(c, g)])
    (link_subtask id_mapping acc (c, g)).
Proof.
  intros Hinv Hc Hin. destruct (linked g) as [x|] eqn:Hl.
  - rewrite (link_subtask_link seen acc c g x) by done.
    destruct Hinv as [Hk Htasks Hsub]. split; simpl.
    + by rewrite !PyDictFacts.keys_update.
    + intros key t0 Ht0. rewrite !PyDictFacts.get_update.
      pose proof (Htasks key t0 Ht0) as Hget.
      unfold relinked in *. rewrite get_snoc_linked, linked_children_snoc by done.
      rewrite Hl.
      destruct (decide (x = key)) as [->|Hxk], (decide (c = key)) as [->|Hck];
        rewrite ?Hget; simpl;
        repeat (case_decide; simplify_eq); simpl;
        rewrite ?app_nil_r, ?app_assoc; done.
    + intros c'. rewrite elem_of_union, elem_of_singleton, Hsub. split.
      * intros [->|(g' & ? & ?)].
        -- exists g. rewrite elem_of_app, list_elem_of_singleton, Hl. eauto.
        -- exists g'. rewrite elem_of_app. eauto.
      * intros (g' & [?|Heq%list_elem_of_singleton]%elem_of_app & ?);
          [right; eauto | left; congruence].
  - rewrite (link_subtask_skip seen acc c g) by done.
    destruct Hinv as [Hk Htasks Hsub]. split; simpl; [done| |].
    + intros key t0 Ht0. rewrite (Htasks key t0 Ht0). f_equal.
      unfold relinked. rewrite get_snoc_linked, linked_children_snoc by done.
      rewrite Hl, app_nil_r. case_decide as Hkc; [|done].
      subst key. apply PyDictFacts.get_None in Hc. by rewrite Hc.
    + intros c'. rewrite Hsub. split.
      * intros (g' & ? & ?). exists g'. rewrite elem_of_app. eauto.
      * intros (g' & [?|Heq%list_elem_of_singleton]%elem_of_app & Hs); [eauto|].
        simplify_eq. rewrite Hl in Hs. by destruct Hs.
Qed.

Lemma link_subtasks_inv rest seen acc :
  second_pass_inv id_mapping tasks0 seen acc →
  NoDup (seen ++ rest).*1 → Forall (λ e, e.1 ∈ tasks0.*1) rest →
  second_pass_inv id_mapping tasks0 (seen ++ rest)
    (foldl (link_subtask id_mapping) acc rest).
Proof.
  revert seen acc. induction rest as [|[c g] rest IH]; intros seen acc Hinv Hnd Hin; simpl.
  - by rewrite app_nil_r.
  - apply Forall_cons in Hin as [Hc Hin].
    replace (seen ++ (c, g) :: rest) with ((seen ++ [(c, g)]) ++ rest) in *
      by (by rewrite <-app_assoc).
    apply IH; [|done..]. apply link_subtask_inv; [done| |done].
    rewrite !fmap_app in Hnd. apply NoDup_app in Hnd as [Hnd _].
    apply NoDup_app in Hnd as (_ & Hnd & _). intros ?. eapply Hnd; [done|].
    simpl. left.
Qed.

Lemma build_subtask_relationships_inv entries :
  NoDup entries.*1 → Forall (λ e, e.1 ∈ tasks0.*1) entries →
  second_pass_inv id_mapping tasks0 entries
    (build_subtask_relationships tasks0 id_mapping entries).
Proof.
  intros. apply (link_subtasks_inv entries [] _ second_pass_init); done.
Qed.
End SecondPass.

(** ** The closing loops *)

Lemma update_app_fresh {V} k (f : V → V) (d1 d2 : pydict V) :
  k ∉ d1.*1 → PyDict.update k f (d1 ++ d2) = d1 ++ PyDict.update k f d2.
Proof.
  induction d1 as [|[k' v'] d1 IH]; simpl; [done|].
  rewrite not_elem_of_cons. intros [? ?]. rewrite decide_False by done.
  f_equal. auto.
Qed.

Lemma add_tasks_spec (d d0 : pydict sp_task) ids :
  NoDup (d0 ++ d).*1 → foldl add_task (ids, d0) d = (ids ++ d.*1, d0 ++ d).
Proof.
  revert d0 ids. induction d as [|[k t] d IH]; intros d0 ids Hnd; simpl.
  - by rewrite !app_nil_r.
  - unfold add_task at 2. simpl.
    rewrite PyDictFacts.set_fresh.
    + rewrite IH by (by rewrite <-app_assoc). by rewrite <-!app_assoc.
    + apply PyDictFacts.get_None. rewrite fmap_app in Hnd.
      apply NoDup_app in Hnd as (_ & Hnd & _). intros ?. eapply Hnd; [done|left].
Qed.

Lemma filter_projects_spec {A} (key : A → string) (val : A → sp_project)
    (arg : A → list string) (subs : gset string) (rest seen : list A)
    (acc : pydict sp_project) :
  NoDup (key <$> seen ++ rest) → acc.*1 = key <$> seen →
  foldl (filter_project_task_ids subs)
    (acc ++ ((λ x, (key x, val x)) <$> rest))
    ((λ x, (key x, arg x)) <$> rest)
  = acc ++ ((λ x, (key x, set_taskIds (filter (λ tid, tid ∉ subs) (arg x)) (val x)))
              <$> rest).
Proof.
  revert seen acc. induction rest as [|x rest IH]; intros seen acc Hnd Hacc; simpl; [done|].
  unfold filter_project_task_ids at 2. simpl.
  rewrite update_app_fresh.
  - simpl. rewrite decide_True by done.
    specialize (IH (seen ++ [x])
      (acc ++ [(key x, set_taskIds (filter (λ tid, tid ∉ subs) (arg x)) (val x))])).
    rewrite <-!app_assoc in IH. simpl in IH. apply IH; [done|].
    by rewrite !fmap_app, Hacc.
  - rewrite Hacc. rewrite fmap_app in Hnd. apply NoDup_app in Hnd as (_ & Hnd & _).
    intros ?. eapply Hnd; [done|]. simpl. left.
Qed.

(** ** The whole conversion *)

Section Whole.
Context (rt : runtime).
Context (Hinj : Inj (=) (=) (uuid rt)) (Hne : ∀ n, uuid rt n ≠ EmptyString).
Context (doc : google_tasks_data).

#[local] Abbreviation run := (run_conversion rt doc).
#[local] Abbreviation out := (cv_backup (run_conversion rt doc)).
#[local] Abbreviation L := (source_tasks doc).
#[local] Abbreviation E := (eligible_tasks (source_tasks doc)).

Lemma new_id_NoDup : NoDup (new_id rt <$> E).
Proof.
  replace (new_id rt <$> E) with (uuid rt <$> E.*1)
    by (by rewrite <-list_fmap_compose).
  apply NoDup_fmap_2; [done|].
  apply (sublist_NoDup _ L.*1); [apply source_tasks_NoDup|].
  apply fmap_sublist, sublist_filter.
Qed.

Lemma new_id_eligible e e' :
  e ∈ L → e' ∈ E → new_id rt e = new_id rt e' → eligible e.2 = true.
Proof.
  intros He [He' Hel]%eligible_tasks_elem Heq. apply Hinj in Heq.
  destruct e as [k g], e' as [k' g']. simpl in *. subst k'.
  by rewrite (source_tasks_label doc k g g').
Qed.

Lemma new_id_inj e e' : e ∈ L → e' ∈ L → new_id rt e = new_id rt e' → e = e'.
Proof.
  intros He He' Heq. apply Hinj in Heq.
  destruct e as [k g], e' as [k' g']. simpl in *. subst k'.
  by rewrite (source_tasks_label doc k g g').
Qed.

(** The mapping table records first occurrences, dropped or not. *)
Lemma run_id_mapping p :
  cv_id_mapping run !! p =
    if truthy p then new_id rt <$> first_occurrence p L else None.
Proof.
  destruct (first_loop_inv rt Hinj doc) as (n & [[_ Hm _ _] _ _ _] & _). apply Hm.
Qed.

Lemma run_task_id_to_original :
  cv_task_id_to_original run = (λ e, (new_id rt e, e.2)) <$> E.
Proof.
  destruct (first_loop_inv rt Hinj doc) as (n & [[_ _ Ho _] _ _ _] & _). apply Ho.
Qed.

Lemma run_project_ids :
  b_project_ids out = (λ grp, uuid rt grp.1) <$> source_groups doc.
Proof.
  destruct (first_loop_inv rt Hinj doc) as (n & [_ Hi _ _] & _). apply Hi.
Qed.

Lemma project_keys_NoDup :
  NoDup ((λ grp : nat * task_list, uuid rt grp.1) <$> source_groups doc).
Proof.
  replace ((λ grp : nat * task_list, uuid rt grp.1) <$> source_groups doc)
    with (uuid rt <$> (source_groups doc).*1) by (by rewrite <-list_fmap_compose).
  apply NoDup_fmap_2; [done|]. apply source_groups_NoDup.
Qed.

Lemma run_project_entities :
  b_project_entities out
  = (λ grp, (uuid rt grp.1,
             project_of rt grp
               (filter (λ tid, tid ∉ cv_subtask_ids run) (arrival_ids rt grp))))
      <$> source_groups doc.
Proof.
  destruct (first_loop_inv rt Hinj doc) as (n & [_ _ He Ht] & _).
  unfold run_conversion. simpl. rewrite He, Ht.
  apply (filter_projects_spec (λ grp : nat * task_list, uuid rt grp.1)
           (λ grp, project_of rt grp (arrival_ids rt grp)) (arrival_ids rt)
           _ (source_groups doc) [] []); [|done].
  apply project_keys_NoDup.
Qed.
End Whole.

Lemma filter_fmap_keys {A} (f : A → string) (h : A → gtask) (P : gtask → Prop)
    `{∀ g, Decision (P g)} (l : list A) :
  (filter (λ e : string * gtask, P e.2) ((λ x, (f x, h x)) <$> l)).*1
  = f <$> filter (λ x, P (h x)) l.
Proof.
  induction l as [|x l IH]; simpl; [done|].
  destruct (decide (P (h x))).
  - rewrite !filter_cons_True by done. simpl. by f_equal.
  - by rewrite !filter_cons_False by done.
Qed.

Section Entities.
Context (rt : runtime).
Context (Hinj : Inj (=) (=) (uuid rt)) (Hne : ∀ n, uuid rt n ≠ EmptyString).
Context (doc : google_tasks_data).

#[local] Abbreviation run := (run_conversion rt doc).
#[local] Abbreviation out := (cv_backup (run_conversion rt doc)).
#[local] Abbreviation L := (source_tasks doc).
#[local] Abbreviation E := (eligible_tasks (source_tasks doc)).

(** The parent the loop guards accept is the converted first occurrence of
    the declared identifier. *)
Lemma linked_resolved (tasks0 : pydict sp_task) g :
  tasks0.*1 = new_id rt <$> E →
  linked_parent (cv_id_mapping run) tasks0 g = uuid rt <$> resolved_parent L g.
Proof.
  intros Hkeys. unfold linked_parent, resolved_parent.
  destruct (declared_parent g) as [p|] eqn:Hp; simpl; [|done].
  rewrite (run_id_mapping rt Hinj doc), (declared_parent_truthy _ _ Hp).
  destruct (first_occurrence p L) as [e|] eqn:He; simpl; [|done].
  apply first_occurrence_Some in He as [He _].
  assert (truthy (new_id rt e) = true) as -> by apply truthy_true, Hne.
  simpl. destruct (eligible e.2) eqn:Hel.
  - rewrite (proj2 (PyDictFacts.mem_true tasks0 (new_id rt e))); [done|].
    rewrite Hkeys. apply list_elem_of_fmap. exists e. split; [done|].
    by apply eligible_tasks_elem.
  - rewrite (proj2 (PyDictFacts.mem_false tasks0 (new_id rt e))); [done|].
    rewrite Hkeys. intros (e' & Heq & He')%list_elem_of_fmap.
    pose proof (new_id_eligible rt Hinj doc e e' He He' Heq). congruence.
Qed.

(** What the two passes leave in the task table. *)
Lemma run_tasks :
  ∃ tasks0,
    Forall2 (fresh_task rt L) tasks0 E
    ∧ b_task_ids out = new_id rt <$> E
    ∧ (b_task_entities out).*1 = new_id rt <$> E
    ∧ second_pass_inv (cv_id_mapping run) tasks0 (cv_task_id_to_original run)
        (b_task_entities out, cv_subtask_ids run).
Proof.
  destruct (first_loop_inv rt Hinj doc) as (n & [Hs _ _ _] & _).
  pose proof (first_pass_keys rt _ _ _ Hs) as Hkeys.
  destruct Hs as [_ _ Ho Ht].
  unfold run_conversion. simpl.
  set (s := as_state (foldl (add_task_list rt)
                        (Assembly (ConvState 0 1 ∅ [] []) [] [] [])
                        (default [] (gd_items doc)))) in *.
  exists (cs_all_tasks s). split; [done|].
  assert (Hinv : second_pass_inv (cs_id_mapping s) (cs_all_tasks s)
                   (cs_task_id_to_original s)
                   (build_subtask_relationships (cs_all_tasks s) (cs_id_mapping s)
                      (cs_task_id_to_original s))).
  { apply build_subtask_relationships_inv.
    - intros key t0 Hget. apply PyDictFacts.get_Some_elem in Hget.
      apply list_elem_of_lookup in Hget as [i Hi].
      destruct (Forall2_lookup_l _ _ _ _ _ Ht Hi) as (e & _ & _ & _ & Hsub & _).
      done.
    - rewrite Ho, <-list_fmap_compose. apply (new_id_NoDup rt Hinj doc).
    - rewrite Ho, Hkeys. apply Forall_forall.
      intros x (e & -> & He)%list_elem_of_fmap. simpl.
      apply list_elem_of_fmap. by exists e. }
  destruct (build_subtask_relationships (cs_all_tasks s) (cs_id_mapping s)
              (cs_task_id_to_original s)) as [tasks subs] eqn:Hb.
  pose proof (sp_keys _ _ _ _ Hinv) as Hk. simpl in Hk. simpl.
  rewrite (add_tasks_spec tasks [] []).
  - simpl. rewrite Hk, Hkeys. done.
  - simpl. rewrite Hk, Hkeys. apply (new_id_NoDup rt Hinj doc).
Qed.

Lemma original_of_entity e :
  e ∈ E → PyDict.get (new_id rt e) (cv_task_id_to_original run) = Some e.2.
Proof.
  intros He. rewrite (run_task_id_to_original rt Hinj doc).
  apply PyDictFacts.elem_get.
  - rewrite <-list_fmap_compose. apply (new_id_NoDup rt Hinj doc).
  - apply list_elem_of_fmap. by exists e.
Qed.

(** The entity of a converted source task. *)
Lemma run_entity e :
  e ∈ E →
  ∃ t, PyDict.get (new_id rt e) (b_task_entities out) = Some t
       ∧ t_id t = new_id rt e
       ∧ t_subTaskIds t
         = new_id rt <$> filter (λ c, resolved_parent L c.2 = Some e.1) E
       ∧ (∀ j, resolved_parent L e.2 = Some j → t_parentId t = Some (uuid rt j))
       ∧ (∀ x, t_parentId t = Some x →
            ∃ p e', declared_parent e.2 = Some p
                    ∧ first_occurrence p L = Some e' ∧ x = new_id rt e').
Proof.
  intros He. destruct run_tasks as (tasks0 & Hfresh & _ & Hkeys & [Hk Htasks _]).
  cbn [fst] in Hk.
  assert (Hk0 : tasks0.*1 = new_id rt <$> E) by (rewrite <-Hk; exact Hkeys).
  assert (is_Some (PyDict.get (new_id rt e) tasks0)) as [t0 Ht0].
  { apply PyDictFacts.get_is_Some. rewrite Hk0. apply list_elem_of_fmap. eauto. }
  exists (relinked (cv_id_mapping run) tasks0 (cv_task_id_to_original run)
            (new_id rt e) t0).
  split; [by apply Htasks|].
  apply PyDictFacts.get_Some_elem, list_elem_of_lookup in Ht0 as [i Hi].
  destruct (Forall2_lookup_l _ _ _ _ _ Hfresh Hi) as (e0 & He0 & Hkey & Hid & Hsub & Hguess).
  simpl in Hkey, Hid, Hsub, Hguess.
  assert (e0 = e) as ->.
  { apply (new_id_inj rt Hinj doc); [| |done].
    - apply list_elem_of_lookup_2 in He0. by apply eligible_tasks_elem in He0 as [? _].
    - by apply eligible_tasks_elem in He as [? _]. }
  assert (Hpar : t_parentId (relinked (cv_id_mapping run) tasks0
                    (cv_task_id_to_original run) (new_id rt e) t0)
                 = match uuid rt <$> resolved_parent L e.2 with
                   | Some x => Some x
                   | None => t_parentId t0
                   end).
  { unfold relinked. cbn [t_parentId]. rewrite (original_of_entity e He).
    cbn [mbind option_bind]. by rewrite (linked_resolved tasks0 e.2 Hk0). }
  rewrite Hpar. unfold relinked. cbn [t_id t_subTaskIds]. repeat split.
  - done.
  - rewrite Hsub. cbn [app]. unfold linked_children.
    rewrite (run_task_id_to_original rt Hinj doc).
    pose proof (filter_fmap_keys (new_id rt) snd
               (λ g, linked_parent (cv_id_mapping run) tasks0 g = Some (new_id rt e)) E)
      as Hf.
    etrans; [exact Hf|]. f_equal. apply list_filter_iff. intros c.
    rewrite (linked_resolved tasks0 c.2 Hk0). unfold new_id.
    destruct (resolved_parent L c.2) as [j|]; simpl; [|naive_solver].
    split; [intros [= ->%Hinj]; done | by intros [= ->]].
  - intros j ->. done.
  - intros x. destruct (resolved_parent L e.2) as [j|] eqn:Hj; simpl.
    + intros [= <-]. unfold resolved_parent in Hj.
      destruct (declared_parent e.2) as [p|]; simpl in Hj; [|done].
      destruct (first_occurrence p L) as [e'|] eqn:Hfo; simpl in Hj; [|done].
      exists p, e'. destruct (eligible e'.2); by simplify_eq.
    + by apply (first_guess_first_occurrence rt L).
Qed.

(** The [parentId] of a converted source task, in every case: the
    identifier drawn for the first task that bears the declared identifier,
    when that task is converted (second pass) or is a dropped task met
    before the child (first pass, never revised); none otherwise. *)
Lemma run_entity_parent e :
  e ∈ E →
  ∃ t, PyDict.get (new_id rt e) (b_task_entities out) = Some t
       ∧ t_parentId t
         = (p ← declared_parent e.2;
            ej ← first_occurrence p L;
            if eligible ej.2 then Some (new_id rt ej)
            else if decide (ej.1 < e.1) then Some (new_id rt ej) else None).
Proof.
  intros He. destruct run_tasks as (tasks0 & Hfresh & _ & Hkeys & [Hk Htasks _]).
  cbn [fst] in Hk.
  assert (Hk0 : tasks0.*1 = new_id rt <$> E) by (rewrite <-Hk; exact Hkeys).
  assert (is_Some (PyDict.get (new_id rt e) tasks0)) as [t0 Ht0].
  { apply PyDictFacts.get_is_Some. rewrite Hk0. apply list_elem_of_fmap. eauto. }
  exists (relinked (cv_id_mapping run) tasks0 (cv_task_id_to_original run)
            (new_id rt e) t0).
  split; [by apply Htasks|].
  apply PyDictFacts.get_Some_elem, list_elem_of_lookup in Ht0 as [i Hi].
  destruct (Forall2_lookup_l _ _ _ _ _ Hfresh Hi)
    as (e0 & He0 & Hkey & _ & _ & l1 & l2 & HL & Hguess).
  simpl in Hkey, Hguess.
  assert (e0 = e) as ->.
  { apply (new_id_inj rt Hinj doc); [| |done].
    - apply list_elem_of_lookup_2 in He0. by apply eligible_tasks_elem in He0 as [? _].
    - by apply eligible_tasks_elem in He as [? _]. }
  unfold relinked. cbn [t_parentId]. rewrite (original_of_entity e He).
  cbn [mbind option_bind]. rewrite (linked_resolved tasks0 e.2 Hk0), Hguess.
  unfold resolved_parent.
  destruct (declared_parent e.2) as [p|]; [|done]. simpl.
  destruct (source_tasks_split doc l1 e l2 HL) as [Hbefore Hafter].
  assert (Hsplit : L = (l1 ++ [e]) ++ l2) by (by rewrite <-app_assoc).
  pose proof (first_occurrence_app p (l1 ++ [e]) l2) as Happ.
  rewrite <-Hsplit in Happ. rewrite Happ.
  apply eligible_tasks_elem in He as [_ Hel].
  destruct (first_occurrence p (l1 ++ [e])) as [e'|] eqn:He'; simpl.
  - destruct (eligible e'.2) eqn:Hel'; [done|]. simpl.
    apply first_occurrence_Some in He' as [Hin _].
    apply elem_of_app in Hin as [Hin|Hin].
    + apply Hbefore in Hin. by rewrite decide_True.
    + apply list_elem_of_singleton in Hin as ->. congruence.
  - destruct (first_occurrence p l2) as [ej|] eqn:Hej; simpl; [|done].
    destruct (eligible ej.2); [done|]. simpl.
    apply first_occurrence_Some in Hej as [Hin _]. apply Hafter in Hin.
    rewrite decide_False by lia. done.
Qed.

(** Every entity is the entity of a converted source task. *)
Lemma run_entity_inv a t :
  PyDict.get a (b_task_entities out) = Some t → ∃ e, e ∈ E ∧ a = new_id rt e.
Proof.
  intros Hget. destruct run_tasks as (_ & _ & _ & Hkeys & _).
  assert (a ∈ (b_task_entities out).*1) as Ha by (apply PyDictFacts.get_is_Some; eauto).
  rewrite Hkeys in Ha. apply list_elem_of_fmap in Ha as (e & -> & He). eauto.
Qed.

(** The returned set: the converted tasks whose declared parent resolves. *)
Lemma run_subtask_ids c :
  c ∈ cv_subtask_ids run ↔
  ∃ e, e ∈ E ∧ c = new_id rt e ∧ is_Some (resolved_parent L e.2).
Proof.
  destruct run_tasks as (tasks0 & _ & _ & Hkeys & [Hk _ Hsub]).
  cbn [fst snd] in Hk, Hsub.
  assert (Hk0 : tasks0.*1 = new_id rt <$> E) by (rewrite <-Hk; exact Hkeys).
  rewrite Hsub, (run_task_id_to_original rt Hinj doc). split.
  - intros (g & (e & [= -> ->] & He)%list_elem_of_fmap & Hl).
    exists e. rewrite (linked_resolved tasks0 e.2 Hk0) in Hl.
    repeat split; [done|]. by apply fmap_is_Some in Hl.
  - intros (e & He & -> & Hr). exists e.2. split.
    + apply list_elem_of_fmap. by exists e.
    + rewrite (linked_resolved tasks0 e.2 Hk0). by apply fmap_is_Some.
Qed.
End Entities.

(** ** Links between converted tasks *)

Section Links.
Context (rt : runtime).
Context (Hinj : Inj (=) (=) (uuid rt)) (Hne : ∀ n, uuid rt n ≠ EmptyString).
Context (doc : google_tasks_data).

#[local] Abbreviation tasks := (b_task_entities (cv_backup (run_conversion rt doc))).
#[local] Abbreviation L := (source_tasks doc).
#[local] Abbreviation E := (eligible_tasks (source_tasks doc)).

Lemma entity_of_label k g t :
  (k, g) ∈ L → PyDict.get (uuid rt k) tasks = Some t → (k, g) ∈ E.
Proof.
  intros Hin Hget.
  destruct (run_entity_inv rt Hinj doc _ _ Hget) as (e & He & Heq).
  assert ((k, g) = e) as <-; [|done].
  apply (new_id_inj rt Hinj doc); [done| |done].
  by apply eligible_tasks_elem in He as [? _].
Qed.

(** A [parentId] that names an entity names the one the declared parent
    resolves to. *)
Lemma parent_link_resolved e t x :
  e ∈ E → PyDict.get (new_id rt e) tasks = Some t → t_parentId t = Some x →
  is_Some (PyDict.get x tasks) →
  ∃ e', e' ∈ E ∧ x = new_id rt e' ∧ resolved_parent L e.2 = Some e'.1.
Proof.
  intros He Hget Hpar [tx Hx].
  destruct (run_entity rt Hinj Hne doc e He) as (t' & Hget' & _ & _ & _ & Hany).
  assert (t' = t) as -> by congruence.
  destruct (Hany x Hpar) as (p & e' & Hp & Hfo & ->).
  destruct (run_entity_inv rt Hinj doc _ _ Hx) as (e'' & He'' & Heq).
  pose proof (first_occurrence_Some _ _ _ Hfo) as [He' _].
  assert (e' = e'') as <-.
  { apply (new_id_inj rt Hinj doc); [done| |done].
    by apply eligible_tasks_elem in He'' as [? _]. }
  exists e'. repeat split; [done|].
  unfold resolved_parent. rewrite Hp. simpl. rewrite Hfo. simpl.
  by apply eligible_tasks_elem in He'' as [_ ->].
Qed.

Lemma parent_link_source a b :
  parent_link tasks a b → is_Some (PyDict.get b tasks) →
  ∃ e e', e ∈ E ∧ e' ∈ E ∧ a = new_id rt e ∧ b = new_id rt e'
          ∧ source_link doc e.1 e'.1.
Proof.
  intros (t & Hget & Hpar) Hb.
  destruct (run_entity_inv rt Hinj doc _ _ Hget) as (e & He & ->).
  destruct (parent_link_resolved e t b He Hget Hpar Hb) as (e' & He' & -> & Hres).
  exists e, e'. repeat split; [done..|].
  exists e.2. apply eligible_tasks_elem in He as [? ?].
  by destruct e.
Qed.

(** A chain of [parentId] links between entities follows a chain of
    declared parents in the source. *)
Lemma parent_chain_source a c :
  clos_trans_1n string (parent_link tasks) a c → is_Some (PyDict.get c tasks) →
  ∃ e e', e ∈ E ∧ e' ∈ E ∧ a = new_id rt e ∧ c = new_id rt e'
          ∧ clos_trans nat (source_link doc) e.1 e'.1.
Proof.
  induction 1 as [a c Hac|a b c Hab Hbc IH]; intros Hc.
  - destruct (parent_link_source a c Hac Hc) as (e & e' & ? & ? & ? & ? & ?).
    exists e, e'. repeat split; [done..|]. by apply t_step.
  - assert (is_Some (PyDict.get b tasks)) as Hb.
    { inversion Hbc as [? (t & Hget & _)|? ? (t & Hget & _) _]; eauto. }
    destruct (parent_link_source a b Hab Hb) as (e & e1 & ? & He1 & ? & ? & ?).
    destruct (IH Hc) as (e2 & e' & He2 & ? & ? & ? & ?).
    assert (e1 = e2) as <-.
    { apply eligible_tasks_elem in He1 as [? _], He2 as [? _].
      apply (new_id_inj rt Hinj doc); [done..|]. congruence. }
    exists e, e'. repeat split; [done..|].
    eapply t_trans; [by apply t_step | done].
Qed.

Lemma parent_cycle_source a :
  clos_trans string (parent_link tasks) a a →
  ∃ k, clos_trans nat (source_link doc) k k.
Proof.
  intros Hc%clos_trans_t1n.
  assert (is_Some (PyDict.get a tasks)) as Ha.
  { inversion Hc as [? (t & Hget & _)|? ? (t & Hget & _) _]; eauto. }
  destruct (parent_chain_source a a Hc Ha) as (e & e' & He & He' & ? & ? & Hcyc).
  assert (e = e') as <-.
  { apply eligible_tasks_elem in He as [? _], He' as [? _].
    apply (new_id_inj rt Hinj doc); [done..|]. congruence. }
  eauto.
Qed.
End Links.

(** ** The reference runtime *)

Lemma reference_uuid_inj : Inj (=) (=) (uuid Reference.rt).
Proof.
  intros n m H. simpl in H. unfold Reference.uuid in H.
  apply (inj (String.app "uuid-")) in H. by apply (inj pretty) in H.
Qed.

Lemma reference_uuid_nonempty n : uuid Reference.rt n ≠ EmptyString.
Proof. done. Qed.

(** ** Facts shared by the statements about a run *)

Section Run.
Context (rt : runtime) (Hinj : Inj (=) (=) (uuid rt)).
Context (doc : google_tasks_data).

#[local] Abbreviation run := (run_conversion rt doc).
#[local] Abbreviation out := (cv_backup (run_conversion rt doc)).
#[local] Abbreviation L := (source_tasks doc).
#[local] Abbreviation E := (eligible_tasks (source_tasks doc)).

Lemma run_task_ids : b_task_ids out = new_id rt <$> E.
Proof. by destruct (run_tasks rt Hinj doc) as (_ & _ & ? & _). Qed.

Lemma run_task_keys : (b_task_entities out).*1 = new_id rt <$> E.
Proof. by destruct (run_tasks rt Hinj doc) as (_ & _ & _ & ? & _). Qed.

Lemma run_entity_id a t :
  PyDict.get a (b_task_entities out) = Some t → t_id t = a.
Proof.
  intros Hget. destruct (run_tasks rt Hinj doc) as (tasks0 & Hfresh & _ & _ & [Hk Htasks _]).
  cbn [fst] in Hk.
  assert (is_Some (PyDict.get a tasks0)) as [t0 Ht0].
  { apply PyDictFacts.get_is_Some. rewrite <-Hk. apply PyDictFacts.get_is_Some. eauto. }
  pose proof (Htasks a t0 Ht0) as Ha. cbn [fst] in Ha.
  assert (t = relinked (cv_id_mapping run) tasks0 (cv_task_id_to_original run) a t0)
    as -> by congruence.
  unfold relinked. cbn [t_id].
  apply PyDictFacts.get_Some_elem, list_elem_of_lookup in Ht0 as [i Hi].
  destruct (Forall2_lookup_l _ _ _ _ _ Hfresh Hi) as (e0 & _ & Hkey & Hid & _).
  simpl in *. congruence.
Qed.

(** Only converted tasks are listed as children. *)
Lemma run_entity_children a t x :
  PyDict.get a (b_task_entities out) = Some t → x ∈ t_subTaskIds t →
  x ∈ new_id rt <$> E.
Proof.
  intros Hget Hx.
  destruct (run_tasks rt Hinj doc) as (tasks0 & Hfresh & _ & _ & [Hk Htasks _]).
  cbn [fst] in Hk.
  assert (is_Some (PyDict.get a tasks0)) as [t0 Ht0].
  { apply PyDictFacts.get_is_Some. rewrite <-Hk. apply PyDictFacts.get_is_Some. eauto. }
  pose proof (Htasks a t0 Ht0) as Ha. cbn [fst] in Ha.
  assert (t = relinked (cv_id_mapping run) tasks0 (cv_task_id_to_original run) a t0)
    as -> by congruence.
  unfold relinked in Hx. cbn [t_subTaskIds] in Hx.
  apply PyDictFacts.get_Some_elem, list_elem_of_lookup in Ht0 as [i Hi].
  destruct (Forall2_lookup_l _ _ _ _ _ Hfresh Hi) as (e0 & _ & _ & _ & Hsub & _).
  cbn [snd] in Hsub. rewrite Hsub in Hx. cbn [app] in Hx.
  apply linked_children_seen in Hx.
  by rewrite (run_task_id_to_original rt Hinj doc), <-list_fmap_compose in Hx.
Qed.

(** The identifier drawn for a dropped task names nothing. *)
Lemma dropped_not_converted k g :
  (k, g) ∈ L → dropped g = true → uuid rt k ∉ new_id rt <$> E.
Proof.
  intros Hin Hd (e & Heq & He)%list_elem_of_fmap.
  pose proof (new_id_eligible rt Hinj doc (k, g) e Hin He Heq) as Hel.
  unfold eligible in Hel. simpl in Hel. rewrite Hd in Hel. done.
Qed.

Lemma arrival_ids_converted grp x :
  grp ∈ source_groups doc → x ∈ arrival_ids rt grp → x ∈ new_id rt <$> E.
Proof.
  intros Hg (e & -> & [He Hel]%eligible_tasks_elem)%list_elem_of_fmap.
  apply list_elem_of_fmap. exists e. split; [done|].
  apply eligible_tasks_elem. split; [|done].
  apply source_tasks_group. eauto.
Qed.

Lemma run_project_entity grp :
  grp ∈ source_groups doc →
  PyDict.get (uuid rt grp.1) (b_project_entities out)
  = Some (project_of rt grp
            (filter (λ tid, tid ∉ cv_subtask_ids run) (arrival_ids rt grp))).
Proof.
  intros Hg. rewrite (run_project_entities rt Hinj doc).
  apply PyDictFacts.elem_get.
  - rewrite <-list_fmap_compose. apply (project_keys_NoDup rt Hinj doc).
  - apply list_elem_of_fmap. by exists grp.
Qed.

Lemma run_project_listed q proj x :
  (q, proj) ∈ b_project_entities out → x ∈ p_taskIds proj →
  x ∈ new_id rt <$> E ∧ x ∉ cv_subtask_ids run.
Proof.
  rewrite (run_project_entities rt Hinj doc).
  intros (grp & [= -> ->] & Hg)%list_elem_of_fmap. simpl.
  intros [? ?]%list_elem_of_filter. split; [|done].
  by apply (arrival_ids_converted grp).
Qed.
End Run.

(** ** Statements about the conversion *)

Lemma label_lists_lookup n lists i tl :
  lists !! i = Some tl → ∃ m, label_lists n lists !! i = Some (m, tl).
Proof.
  revert n i. induction lists as [|tl' r IH]; intros n [|i] ?; simplify_eq/=; eauto.
Qed.

Lemma convert_items_dropped rt project_id items s ids :
  Forall (λ g, dropped g = true) items →
  let r := foldl (convert_item rt project_id) (s, ids) items in
  cs_all_tasks r.1 = cs_all_tasks s
  ∧ cs_task_id_to_original r.1 = cs_task_id_to_original s
  ∧ r.2 = ids.
Proof.
  revert s ids. induction items as [|g items IH]; intros s ids Hd; simpl; [done|].
  apply Forall_cons in Hd as [Hg Hd].
  unfold convert_item at 2 4 6, convert_task_with_assigned_id. simpl.
  rewrite Hg. simpl.
  destruct (IH (ConvState (S (cs_uuids s)) (cs_clock s)
                  (if truthy (original_id g)
                      && bool_decide (cs_id_mapping s !! original_id g = None)
                   then <[original_id g := uuid rt (cs_uuids s)]> (cs_id_mapping s)
                   else cs_id_mapping s)
                  (cs_all_tasks s) (cs_task_id_to_original s)) ids Hd)
    as (H1 & H2 & H3).
  done.
Qed.

(** C4. Under the contract of [uuid.uuid4()] (no two draws of a run give
    the same string), the identifiers of a run are pairwise distinct, those
    of the projects included: there is exactly one converted task for each
    source task that is not dropped, each under the identifier drawn for it
    and carrying it as [id], whatever the original identifiers are; the
    mapping table sends every original (non-empty) identifier to the
    identifier drawn for the first task that bears it, whatever follows;
    and no converted task has the identifier drawn for a dropped task. *)
Theorem identifiers_unique (rt : runtime) (doc : google_tasks_data) :
  Inj (=) (=) (uuid rt) →
  let run := run_conversion rt doc in
  let out := convert_google_tasks_to_sp rt doc in
  NoDup (b_project_ids out ++ b_task_ids out)
  ∧ b_task_ids out = (λ e, uuid rt e.1) <$> eligible_tasks (source_tasks doc)
  ∧ (b_task_entities out).*1 = b_task_ids out
  ∧ (∀ a t, PyDict.get a (b_task_entities out) = Some t → t_id t = a)
  ∧ (∀ p e, p ≠ EmptyString → first_occurrence p (source_tasks doc) = Some e →
       cv_id_mapping run !! p = Some (uuid rt e.1))
  ∧ (∀ k g, (k, g) ∈ source_tasks doc → dropped g = true →
       uuid rt k ∉ b_task_ids out).
Proof.
  intros Hinj run out. unfold out, run, convert_google_tasks_to_sp.
  split; [|split; [|split; [|split; [|split]]]].
  - rewrite (run_project_ids rt Hinj doc), (run_task_ids rt Hinj doc).
    apply NoDup_app. split; [apply (project_keys_NoDup rt Hinj doc)|].
    split; [|apply (new_id_NoDup rt Hinj doc)].
    intros x (grp & -> & Hg)%list_elem_of_fmap (e & Heq & He)%list_elem_of_fmap.
    apply Hinj in Heq. apply eligible_tasks_elem in He as [He _].
    by apply (source_labels_disjoint doc grp e).
  - apply (run_task_ids rt Hinj doc).
  - by rewrite (run_task_keys rt Hinj doc), (run_task_ids rt Hinj doc).
  - apply (run_entity_id rt Hinj doc).
  - intros p e Hp He. rewrite (run_id_mapping rt Hinj doc).
    apply truthy_true in Hp as ->. by rewrite He.
  - intros k g Hin Hd. rewrite (run_task_ids rt Hinj doc).
    by apply (dropped_not_converted rt Hinj doc k g).
Qed.

Lemma identifiers_unique_witness :
  Inj (=) (=) (uuid Reference.rt)
  ∧ NoDup (b_task_ids (convert_google_tasks_to_sp Reference.rt Samples.doc_duplicates))
  ∧ length (b_task_ids (convert_google_tasks_to_sp Reference.rt Samples.doc_duplicates)) = 4
  ∧ cv_id_mapping (run_conversion Reference.rt Samples.doc_duplicates) !! "SAME_ID"
    = Some "uuid-1".
Proof.
  split; [exact reference_uuid_inj|].
  destruct (identifiers_unique Reference.rt Samples.doc_duplicates reference_uuid_inj)
    as (Hnd & Hids & _ & _ & Hmap & _).
  split; [by apply NoDup_app in Hnd as (_ & _ & ?)|].
  split; [by rewrite Hids|].
  by apply (Hmap "SAME_ID" (1, Samples.task "SAME_ID" "Task One" None None)).
Defined.

(** C8. A source task marked deleted or hidden is dropped without error.
    A group made of such tasks only adds no task entity and gets an empty
    task list.  In the finished document, under the contract of
    [uuid.uuid4()], the identifier drawn for a dropped task is neither in
    the task list, nor a key of the task entities, nor in the [taskIds] of a
    project, nor in the [subTaskIds] of a task; and a document made of
    dropped tasks only has no task at all. *)
Theorem dropped_tasks_vanish (rt : runtime) (doc : google_tasks_data) :
  let out := convert_google_tasks_to_sp rt doc in
  (∀ tl s, Forall (λ g, dropped g = true) (items_of tl) →
     let r := convert_task_list rt tl s in
     cs_all_tasks r.1.1 = cs_all_tasks s ∧ p_taskIds r.1.2 = [] ∧ r.2 = [])
  ∧ (Inj (=) (=) (uuid rt) →
     (∀ k g, (k, g) ∈ source_tasks doc → dropped g = true →
        (uuid rt k ∉ b_task_ids out)
        ∧ PyDict.get (uuid rt k) (b_task_entities out) = None
        ∧ (∀ q proj, (q, proj) ∈ b_project_entities out → uuid rt k ∉ p_taskIds proj)
        ∧ (∀ a t, (a, t) ∈ b_task_entities out → uuid rt k ∉ t_subTaskIds t))
     ∧ ((∀ e, e ∈ source_tasks doc → dropped e.2 = true) →
          b_task_ids out = [] ∧ b_task_entities out = [])).
Proof.
  intros out. unfold out, convert_google_tasks_to_sp. split; [|intros Hinj; split].
  - intros tl s Hd. unfold convert_task_list. simpl.
    destruct (convert_items_dropped rt (uuid rt (cs_uuids s)) (items_of tl)
                (ConvState (S (cs_uuids s)) (cs_clock s) (cs_id_mapping s)
                   (cs_all_tasks s) (cs_task_id_to_original s)) [] Hd)
      as (H1 & _ & H3).
    unfold items_of in *. simpl in *. by rewrite H1, H3.
  - intros k g Hin Hd.
    pose proof (dropped_not_converted rt Hinj doc k g Hin Hd) as Hnot.
    repeat split.
    + by rewrite (run_task_ids rt Hinj doc).
    + apply PyDictFacts.get_None. by rewrite (run_task_keys rt Hinj doc).
    + intros q proj Hq Hx.
      by destruct (run_project_listed rt Hinj doc q proj _ Hq Hx).
    + intros a t Hat Hx. apply PyDictFacts.elem_get in Hat.
      2:{ rewrite (run_task_keys rt Hinj doc). apply (new_id_NoDup rt Hinj doc). }
      by apply (run_entity_children rt Hinj doc a t) in Hx.
  - intros Hall.
    assert (eligible_tasks (source_tasks doc) = []) as Hnil.
    { apply elem_of_nil_inv. intros e [He Hel]%eligible_tasks_elem.
      unfold eligible in Hel. by rewrite (Hall e He) in Hel. }
    pose proof (run_task_keys rt Hinj doc) as Hk.
    rewrite (run_task_ids rt Hinj doc), Hnil. rewrite Hnil in Hk.
    split; [done|]. by apply fmap_nil_inv in Hk.
Qed.

Lemma dropped_tasks_vanish_witness :
  Inj (=) (=) (uuid Reference.rt)
  ∧ (1, Samples.deleted_parent) ∈ source_tasks Samples.doc_only_dropped
  ∧ dropped Samples.deleted_parent = true
  ∧ PyDict.get (uuid Reference.rt 1)
      (b_task_entities (convert_google_tasks_to_sp Reference.rt Samples.doc_only_dropped))
    = None
  ∧ b_task_ids (convert_google_tasks_to_sp Reference.rt Samples.doc_only_dropped) = [].
Proof.
  split; [exact reference_uuid_inj|].
  assert (Hin : (1, Samples.deleted_parent) ∈ source_tasks Samples.doc_only_dropped)
    by (vm_compute; left).
  split; [done|]. split; [done|].
  destruct (dropped_tasks_vanish Reference.rt Samples.doc_only_dropped) as [_ Hrun].
  destruct (Hrun reference_uuid_inj) as [Hone Hall].
  split.
  - by destruct (Hone 1 Samples.deleted_parent Hin eq_refl) as (_ & ? & _).
  - apply Hall. intros e He. vm_compute in He.
    apply elem_of_cons in He as [->|He]; [done|].
    apply elem_of_cons in He as [->|He]; [done|]. by apply elem_of_nil in He.
Defined.

(** C9. The mapping entry is written before the deleted/hidden test: the
    iteration for a dropped task whose (non-empty) original identifier is
    new to the table records it with the identifier just drawn and adds no
    task.  Hence, under the contract of [uuid.uuid4()]: when the first task
    of a document bearing some original identifier is dropped, the table of
    the finished run sends that identifier to the one drawn for the dropped
    task, under which there is no converted task, whatever tasks with the
    same original identifier follow. *)
Theorem mapping_keeps_dropped_first_occurrence (rt : runtime) (doc : google_tasks_data) :
  (∀ project_id s ids g,
     dropped g = true → original_id g ≠ EmptyString →
     cs_id_mapping s !! original_id g = None →
     let r := convert_item rt project_id (s, ids) g in
     cs_id_mapping r.1 !! original_id g = Some (uuid rt (cs_uuids s))
     ∧ cs_all_tasks r.1 = cs_all_tasks s ∧ r.2 = ids)
  ∧ (Inj (=) (=) (uuid rt) →
     ∀ p k g,
       p ≠ EmptyString → first_occurrence p (source_tasks doc) = Some (k, g) →
       dropped g = true →
       cv_id_mapping (run_conversion rt doc) !! p = Some (uuid rt k)
       ∧ PyDict.get (uuid rt k) (b_task_entities (convert_google_tasks_to_sp rt doc))
         = None
       ∧ (uuid rt k ∉ b_task_ids (convert_google_tasks_to_sp rt doc))).
Proof.
  split.
  - intros project_id s ids g Hd Hid Hnone.
    unfold convert_item, convert_task_with_assigned_id. simpl.
    rewrite Hd. simpl. apply truthy_true in Hid as ->.
    rewrite bool_decide_eq_true_2 by done. simpl.
    by rewrite lookup_insert_eq.
  - intros Hinj p k g Hp Hfo Hd. unfold convert_google_tasks_to_sp.
    pose proof (first_occurrence_Some _ _ _ Hfo) as [Hin _].
    pose proof (dropped_not_converted rt Hinj doc k g Hin Hd) as Hnot.
    repeat split.
    + rewrite (run_id_mapping rt Hinj doc). apply truthy_true in Hp as ->.
      by rewrite Hfo.
    + apply PyDictFacts.get_None. by rewrite (run_task_keys rt Hinj doc).
    + by rewrite (run_task_ids rt Hinj doc).
Qed.

Lemma mapping_keeps_dropped_first_occurrence_witness :
  Inj (=) (=) (uuid Reference.rt)
  ∧ first_occurrence "p" (source_tasks Samples.doc_dropped_first)
    = Some (1, Samples.deleted_parent)
  ∧ cv_id_mapping (run_conversion Reference.rt Samples.doc_dropped_first) !! "p"
    = Some "uuid-1"
  ∧ PyDict.get "uuid-1"
      (b_task_entities (convert_google_tasks_to_sp Reference.rt Samples.doc_dropped_first))
    = None.
Proof.
  split; [exact reference_uuid_inj|]. split; [done|].
  destruct (mapping_keeps_dropped_first_occurrence Reference.rt
              Samples.doc_dropped_first) as [_ Hrun].
  destruct (Hrun reference_uuid_inj "p" 1 Samples.deleted_parent) as (Hm & Hg & _);
    [done..|].
  by split.
Defined.

(** C10. A document without [items] converts to no project and no task.
    For a group without [items], [convert_task_list] builds a project with
    an empty task list and adds no task; in the finished document, under the
    contract of [uuid.uuid4()], the project at the position of the group
    has an empty visible task list.  The conversion is a total function:
    neither case raises. *)
Theorem missing_items_tolerated (rt : runtime) (doc : google_tasks_data) :
  let out := convert_google_tasks_to_sp rt doc in
  (gd_items doc = None →
     b_project_ids out = [] ∧ b_project_entities out = []
     ∧ b_task_ids out = [] ∧ b_task_entities out = [])
  ∧ (∀ tl s, tl_items tl = None →
       let r := convert_task_list rt tl s in
       p_taskIds r.1.2 = [] ∧ r.2 = [] ∧ cs_all_tasks r.1.1 = cs_all_tasks s)
  ∧ (Inj (=) (=) (uuid rt) →
     ∀ lists i tl,
       gd_items doc = Some lists → lists !! i = Some tl → tl_items tl = None →
       ∃ pid proj, b_project_ids out !! i = Some pid
                   ∧ PyDict.get pid (b_project_entities out) = Some proj
                   ∧ p_taskIds proj = []).
Proof.
  intros out. unfold out, convert_google_tasks_to_sp. split; [|split].
  - intros Hnone. unfold run_conversion. rewrite Hnone. done.
  - intros tl s Hnone. unfold convert_task_list. rewrite Hnone. done.
  - intros Hinj lists i tl Hdoc Hi Hnone.
    destruct (label_lists_lookup 0 lists i tl Hi) as [m Hm].
    assert (Hgrp : source_groups doc !! i = Some (m, tl)).
    { unfold source_groups. by rewrite Hdoc. }
    exists (uuid rt m). eexists. split; [|split].
    + rewrite (run_project_ids rt Hinj doc), list_lookup_fmap, Hgrp. done.
    + apply (run_project_entity rt Hinj doc (m, tl)).
      by apply list_elem_of_lookup_2 in Hgrp.
    + simpl. unfold arrival_ids, group_tasks, items_of. simpl. by rewrite Hnone.
Qed.

Lemma missing_items_tolerated_witness :
  Inj (=) (=) (uuid Reference.rt)
  ∧ b_project_ids (convert_google_tasks_to_sp Reference.rt Samples.doc_no_items) = []
  ∧ b_task_ids (convert_google_tasks_to_sp Reference.rt Samples.doc_no_items) = []
  ∧ ∃ pid proj,
      b_project_ids (convert_google_tasks_to_sp Reference.rt Samples.doc_list_no_items)
        !! 0 = Some pid
      ∧ PyDict.get pid
          (b_project_entities
             (convert_google_tasks_to_sp Reference.rt Samples.doc_list_no_items))
        = Some proj
      ∧ p_taskIds proj = [].
Proof.
  split; [exact reference_uuid_inj|].
  destruct (missing_items_tolerated Reference.rt Samples.doc_no_items) as [Hdoc _].
  destruct (Hdoc eq_refl) as (? & _ & ? & _). split; [done|]. split; [done|].
  destruct (missing_items_tolerated Reference.rt Samples.doc_list_no_items)
    as (_ & _ & Hgrp).
  exact (Hgrp reference_uuid_inj [Samples.list_no_items] 0 Samples.list_no_items
           eq_refl eq_refl eq_refl).
Defined.

(** A relation that goes down along a rank has no cycle. *)
Lemma ranked_acyclic (R : nat → nat → Prop) :
  (∀ k j, R k j → j < k) → ∀ k, ¬ clos_trans nat R k k.
Proof.
  intros Hrank k Hc.
  assert (∀ a b, clos_trans nat R a b → b < a) as Hlt.
  { induction 1 as [a b Hab|a b c _ IH1 _ IH2]; [by apply Hrank | lia]. }
  apply Hlt in Hc. lia.
Qed.

(** C1, as the code has it.  Under the contract of [uuid.uuid4()] (distinct,
    non-empty strings), in the finished structure:
    - every entity is the converted task of a source task that is not
      dropped, stored under the identifier drawn for it;
    - the [parentId] of a converted task, when present, names a converted
      task, provided the identifier it declares as parent does not first
      occur on a deleted or hidden task;
    - no converted task is its own ancestor through [parentId], provided no
      source task is its own ancestor through the declared parents, each
      read as the first task bearing the declared identifier;
    - whenever the [parentId] of B is the identifier of A, the [subTaskIds]
      of A contain the identifier of B. *)
Theorem conversion_invariant (rt : runtime) (doc : google_tasks_data) :
  Inj (=) (=) (uuid rt) → (∀ n, uuid rt n ≠ EmptyString) →
  let tasks := b_task_entities (convert_google_tasks_to_sp rt doc) in
  (∀ a t, PyDict.get a tasks = Some t →
     ∃ k g, (k, g) ∈ source_tasks doc ∧ dropped g = false ∧ a = uuid rt k)
  ∧ (∀ k g t x,
       (k, g) ∈ source_tasks doc → PyDict.get (uuid rt k) tasks = Some t →
       t_parentId t = Some x →
       (∀ p e, g_parent g = Some p → first_occurrence p (source_tasks doc) = Some e →
               dropped e.2 = false) →
       is_Some (PyDict.get x tasks))
  ∧ ((∀ k, ¬ clos_trans nat (source_link doc) k k) →
     ∀ a, ¬ clos_trans string (parent_link tasks) a a)
  ∧ (∀ a b ta tb,
       PyDict.get a tasks = Some ta → PyDict.get b tasks = Some tb →
       t_parentId tb = Some (t_id ta) → t_id tb ∈ t_subTaskIds ta).
Proof.
  intros Hinj Hne tasks. unfold tasks, convert_google_tasks_to_sp.
  split; [|split; [|split]].
  - intros a t Hget.
    destruct (run_entity_inv rt Hinj doc a t Hget) as ([k g] & [He Hel]%eligible_tasks_elem & ->).
    exists k, g. repeat split; [done|].
    unfold eligible in Hel. simpl in Hel. by destruct (dropped g).
  - intros k g t x Hin Hget Hpar Hfirst.
    pose proof (entity_of_label rt Hinj doc k g t Hin Hget) as He.
    destruct (run_entity rt Hinj Hne doc (k, g) He) as (t' & Hget' & _ & _ & _ & Hany).
    change (new_id rt (k, g)) with (uuid rt k) in Hget'.
    assert (t' = t) as -> by congruence.
    destruct (Hany x Hpar) as (p & e' & [Hp _]%declared_parent_Some & Hfo & ->).
    pose proof (Hfirst p e' Hp Hfo) as Hd.
    pose proof (first_occurrence_Some _ _ _ Hfo) as [He' _].
    destruct (run_entity rt Hinj Hne doc e') as (tx & Hx & _).
    { apply eligible_tasks_elem. split; [done|]. unfold eligible. by rewrite Hd. }
    eauto.
  - intros Hacyclic a Hcycle.
    destruct (parent_cycle_source rt Hinj Hne doc a Hcycle) as [k Hk].
    by apply (Hacyclic k).
  - intros a b ta tb Ha Hb Hpar.
    rewrite (run_entity_id rt Hinj doc a ta Ha) in Hpar.
    rewrite (run_entity_id rt Hinj doc b tb Hb).
    destruct (run_entity_inv rt Hinj doc a ta Ha) as (ea & Hea & ->).
    destruct (run_entity_inv rt Hinj doc b tb Hb) as (eb & Heb & ->).
    destruct (parent_link_resolved rt Hinj Hne doc eb tb (new_id rt ea) Heb Hb Hpar)
      as (e' & He' & Heq & Hres); [eauto|].
    assert (ea = e') as <-.
    { apply eligible_tasks_elem in Hea as [? _], He' as [? _].
      by apply (new_id_inj rt Hinj doc). }
    destruct (run_entity rt Hinj Hne doc ea Hea) as (ta' & Ha' & _ & Hsub & _).
    assert (ta' = ta) as -> by congruence.
    rewrite Hsub. apply list_elem_of_fmap. exists eb. split; [done|].
    apply list_elem_of_filter. done.
Qed.

Lemma parent_child_acyclic k :
  ¬ clos_trans nat (source_link Samples.doc_parent_child) k k.
Proof.
  apply ranked_acyclic. intros a b (g & Hin & _ & Hres). vm_compute in Hin.
  apply elem_of_cons in Hin as [[= -> ->]|Hin]; [by vm_compute in Hres|].
  apply elem_of_cons in Hin as [[= -> ->]|Hin]; [|by apply elem_of_nil in Hin].
  vm_compute in Hres. simplify_eq. lia.
Qed.

Lemma conversion_invariant_witness :
  Inj (=) (=) (uuid Reference.rt) ∧ (∀ n, uuid Reference.rt n ≠ EmptyString)
  ∧ (∀ k, ¬ clos_trans nat (source_link Samples.doc_parent_child) k k)
  ∧ (∀ a, ¬ clos_trans string
            (parent_link (b_task_entities
               (convert_google_tasks_to_sp Reference.rt Samples.doc_parent_child))) a a)
  ∧ is_Some (PyDict.get "uuid-1"
               (b_task_entities
                  (convert_google_tasks_to_sp Reference.rt Samples.doc_parent_child))).
Proof.
  split; [exact reference_uuid_inj|]. split; [exact reference_uuid_nonempty|].
  split; [exact parent_child_acyclic|].
  destruct (conversion_invariant Reference.rt Samples.doc_parent_child
              reference_uuid_inj reference_uuid_nonempty) as (_ & Hpar & Hacyc & _).
  split; [exact (Hacyc parent_child_acyclic)|].
  eapply (Hpar 2 Samples.child_task).
  - vm_compute. right. left.
  - vm_compute. reflexivity.
  - reflexivity.
  - intros p e [= <-] Hfo. vm_compute in Hfo. by simplify_eq.
Defined.

(** C1 as stated fails: a task that declares itself as parent is converted
    into a task that is its own parent. *)
Lemma self_parent_is_own_ancestor :
  clos_trans string
    (parent_link (b_task_entities
       (convert_google_tasks_to_sp Reference.rt Samples.doc_self_parent)))
    "uuid-1" "uuid-1".
Proof. apply t_step. eexists. split; vm_compute; reflexivity. Qed.




(** ** Where the code departs from the specification *)

(** What becomes of a converted task whose declared parent does not
    resolve to a converted task: it stays in the visible list of its group;
    it has no [parentId], unless the declared identifier first occurs on a
    dropped task met before it, and then its [parentId] is the identifier
    drawn for that dropped task, which names no entity. *)
Lemma unresolved_parent_outcome (rt : runtime) (doc : google_tasks_data)
    (e : nat * gtask) (grp : nat * task_list) :
  Inj (=) (=) (uuid rt) → (∀ n, uuid rt n ≠ EmptyString) →
  grp ∈ source_groups doc → e ∈ group_tasks grp → dropped e.2 = false →
  resolved_parent (source_tasks doc) e.2 = None →
  let out := convert_google_tasks_to_sp rt doc in
  ∃ t proj,
    PyDict.get (uuid rt e.1) (b_task_entities out) = Some t
    ∧ PyDict.get (uuid rt grp.1) (b_project_entities out) = Some proj
    ∧ uuid rt e.1 ∈ p_taskIds proj
    ∧ ((t_parentId t = None
        ∧ ∀ p ej, declared_parent e.2 = Some p →
                  first_occurrence p (source_tasks doc) = Some ej → e.1 < ej.1)
       ∨ (∃ p ej, declared_parent e.2 = Some p
                  ∧ first_occurrence p (source_tasks doc) = Some ej
                  ∧ dropped ej.2 = true ∧ ej.1 < e.1
                  ∧ t_parentId t = Some (uuid rt ej.1)
                  ∧ PyDict.get (uuid rt ej.1) (b_task_entities out) = None)).
Proof.
  intros Hinj Hne Hg Hin Hd Hres out. unfold out, convert_google_tasks_to_sp.
  assert (HL : e ∈ source_tasks doc) by (apply source_tasks_group; eauto).
  assert (He : e ∈ eligible_tasks (source_tasks doc)).
  { apply eligible_tasks_elem. split; [done|]. unfold eligible. by rewrite Hd. }
  destruct (run_entity_parent rt Hinj Hne doc e He) as (t & Hget & Hpar).
  exists t. eexists. split; [done|].
  split; [by apply (run_project_entity rt Hinj doc grp)|]. split.
  - simpl. apply list_elem_of_filter. split.
    + intros (e' & He' & Heq & Hsome)%(run_subtask_ids rt Hinj Hne doc).
      assert (e = e') as <-.
      { apply eligible_tasks_elem in He' as [? _].
        by apply (new_id_inj rt Hinj doc). }
      rewrite Hres in Hsome. by destruct Hsome.
    + apply list_elem_of_fmap. exists e. split; [done|].
      apply eligible_tasks_elem. split; [done|]. unfold eligible. by rewrite Hd.
  - unfold resolved_parent in Hres.
    destruct (declared_parent e.2) as [p|]; cbn [mbind option_bind] in Hres, Hpar.
    2:{ left. split; [done|]. intros ? ? [=]. }
    destruct (first_occurrence p (source_tasks doc)) as [ej|] eqn:Hej;
      cbn [mbind option_bind] in Hres, Hpar.
    2:{ left. split; [done|]. intros ? ? [= <-] ?. congruence. }
    unfold eligible in Hres, Hpar.
    destruct (dropped ej.2) eqn:Hdj; cbn [negb] in Hres, Hpar; [|done].
    case_decide as Hlt.
    + right. exists p, ej. repeat split; try done.
      apply PyDictFacts.get_None. rewrite (run_task_keys rt Hinj doc).
      apply first_occurrence_Some in Hej as [Hjn _].
      destruct ej as [j gj]. by apply (dropped_not_converted rt Hinj doc j gj).
    + left. split; [done|]. intros p' ej' [= <-] Hfo.
      rewrite Hej in Hfo. injection Hfo as <-.
      assert (ej.1 ≠ e.1); [|lia]. intros Heq.
      apply first_occurrence_Some in Hej as [Hjn _].
      destruct e as [k g], ej as [j gj]. simpl in *. subst j.
      rewrite (source_tasks_label doc k g gj HL Hjn) in Hd. congruence.
Qed.

(** C2, at the failing input.  The parent is deleted and comes first; the
    first pass gives the child the identifier drawn for the deleted task as
    [parentId], and the second pass, which finds no such task, leaves it in
    place: the child stays top-level but keeps a parent reference that names
    no task, and the validator rejects the result. *)
Theorem dropped_parent_leaves_dangling_reference :
  let out := convert_google_tasks_to_sp Reference.rt Samples.doc_dropped_parent in
  (t_parentId <$> PyDict.get "uuid-2" (b_task_entities out)) = Some (Some "uuid-1")
  ∧ PyDict.get "uuid-1" (b_task_entities out) = None
  ∧ (p_taskIds <$> PyDict.get "uuid-0" (b_project_entities out)) = Some ["uuid-2"]
  ∧ validate_sp_data (view_backup out)
    = Some ["Task 'uuid-2' references non-existent parent 'uuid-1'";
            "Project 'uuid-0' lists subtask 'uuid-2' (should only list top-level tasks)"].
Proof. repeat split; vm_compute; reflexivity. Qed.

(** The stamps of a converted task, in general: both receive one value,
    the clock reading when the [updated] field yields no instant or the
    instant zero, the parsed instant otherwise. *)
Lemma created_updated_spec rt g project_id assigned_id id_mapping current_ts t :
  convert_task_with_assigned_id rt g project_id assigned_id id_mapping current_ts
    = Some t →
  t_created t = t_updated t
  ∧ (parse_iso_to_unix_ms rt (g_updated g) = None → t_created t = current_ts)
  ∧ (parse_iso_to_unix_ms rt (g_updated g) = Some 0%Z → t_created t = current_ts)
  ∧ (∀ ms, parse_iso_to_unix_ms rt (g_updated g) = Some ms → ms ≠ 0%Z →
           t_created t = ms).
Proof.
  unfold convert_task_with_assigned_id. destruct (dropped g); [done|].
  intros [= <-]. simpl. repeat split.
  - by intros ->.
  - by intros ->.
  - intros ms -> Hms. simpl. by rewrite decide_False.
Qed.

(** C7, at the failing input.  A task last updated at the epoch has a
    [updated] field that parses, to the instant 0; [updated_ts or
    current_ts] takes that zero for a missing value and stamps the task
    with the clock reading. *)
Theorem epoch_update_replaced_by_clock :
  parse_iso_to_unix_ms Reference.rt (g_updated Samples.epoch_task) = Some 0%Z
  ∧ ∀ project_id assigned_id id_mapping current_ts,
      ∃ t, convert_task_with_assigned_id Reference.rt Samples.epoch_task
             project_id assigned_id id_mapping current_ts = Some t
           ∧ t_created t = current_ts ∧ t_updated t = current_ts.
Proof. split; [done|]. intros. eexists. split; [reflexivity|]. done. Qed.

(** ** The validator *)

Lemma remove_dups_length_le {A} `{EqDecision A} (l : list A) :
  length (remove_dups l) ≤ length l.
Proof.
  induction l as [|x l IH]; simpl; [done|]. case_decide; simpl; lia.
Qed.

(** [len(task_ids) != len(set(task_ids))] tests for a duplicate. *)
Lemma remove_dups_length_NoDup {A} `{EqDecision A} (l : list A) :
  length l = length (remove_dups l) ↔ NoDup l.
Proof.
  induction l as [|x l IH]; simpl.
  - split; [constructor | done].
  - pose proof (remove_dups_length_le l). rewrite NoDup_cons.
    case_decide as Hx; simpl.
    + split; [lia | naive_solver].
    + rewrite <-IH. split; [intros [=]; done | intros [_ ->]; done].
Qed.

Section Walk.
Context (task_entities : pydict v_task).

#[local] Abbreviation next := (Violations.next task_entities).
#[local] Abbreviation ancestor := (Violations.ancestor task_entities).
#[local] Abbreviation walk := (Validator.walk task_entities).

Lemma live_Some current c :
  live current = Some c →
  truthy_opt current = true ∧ default EmptyString current = c.
Proof.
  unfold live. destruct current as [x|]; simpl; [|done].
  destruct (truthy x) eqn:Hx; [|done]. by intros [= ->].
Qed.

Lemma live_None current : live current = None → truthy_opt current = false.
Proof.
  unfold live. destruct current as [x|]; simpl; [|done]. by destruct (truthy x).
Qed.

Lemma ancestor_None p n m : n ≤ m → ancestor p n = None → ancestor p m = None.
Proof.
  induction 1 as [|m _ IH]; [done|]. intros Hn. simpl. by rewrite IH.
Qed.

Lemma ancestor_Some_lt p n m x :
  ancestor p n = None → ancestor p m = Some x → m < n.
Proof.
  intros Hn Hm. destruct (decide (m < n)); [done|].
  rewrite (ancestor_None p n m) in Hm by (done || lia). done.
Qed.

Lemma unvisited_cons visited c :
  c ∉ visited → c ∈ task_entities.*1 →
  unvisited task_entities (c :: visited) < unvisited task_entities visited.
Proof.
  unfold unvisited. intros Hc Hin.
  induction task_entities as [|[k v] d IH]; simpl.
  - by apply elem_of_nil in Hin.
  - assert (Hle : length (filter (λ kv : string * v_task, kv.1 ∉ c :: visited) d)
                  ≤ length (filter (λ kv : string * v_task, kv.1 ∉ visited) d)).
    { clear. induction d as [|[k v] d IH]; simpl; [done|].
      rewrite !filter_cons. simpl.
      destruct (decide (k ∈ visited)) as [Hk|Hk].
      - rewrite decide_False by set_solver. rewrite decide_False by set_solver. done.
      - rewrite (decide_True (P := k ∉ visited)) by done.
        case_decide; simpl; lia. }
    rewrite !filter_cons. simpl in *.
    destruct (decide (k = c)) as [->|Hkc].
    + rewrite decide_False by set_solver.
      rewrite decide_True by done. simpl. lia.
    + apply elem_of_cons in Hin as [?|Hin]; [congruence|].
      specialize (IH Hin).
      destruct (decide (k ∈ visited)).
      * rewrite decide_False by set_solver. rewrite decide_False by set_solver. done.
      * rewrite decide_True by set_solver. rewrite decide_True by set_solver.
        simpl. lia.
Qed.

Lemma unvisited_le visited : unvisited task_entities visited ≤ length task_entities.
Proof. apply length_filter. Qed.

Lemma next_None_outside c : c ∉ task_entities.*1 → Validator.parent_of task_entities c = None.
Proof.
  intros Hc%PyDictFacts.get_None. unfold Validator.parent_of. by rewrite Hc.
Qed.

Lemma walk_inv_step t p n visited current c :
  walk_inv task_entities t p n visited current → live current = Some c → c ∉ visited →
  walk_inv task_entities t p (S n) (c :: visited) (Validator.parent_of task_entities c).
Proof.
  intros [Hv Hf Hd Hc] Hlive Hnot. rewrite Hlive in Hc. split.
  - intros x. rewrite elem_of_cons, Hv. split.
    + intros [->|[->|(i & ? & ?)]]; [right; exists n; auto|by left|].
      right. exists i. split; [lia|done].
    + intros [->|(i & Hi & Hx)]; [right; by left|].
      destruct (decide (i = n)) as [->|]; [left; congruence|].
      right. right. exists i. split; [lia|done].
  - intros i Hi Ht. destruct (decide (i = n)) as [->|].
    + apply Hnot, Hv. left. congruence.
    + apply (Hf i); [lia|done].
  - intros i j x Hij Hj Hi Hx. destruct (decide (j = n)) as [->|].
    + apply Hnot, Hv. right. exists i. split; [done|]. congruence.
    + apply (Hd i j x); [done|lia|done..].
  - simpl. rewrite <-Hc. done.
Qed.

(** With fuel for the unvisited entities and two more iterations the walk
    ends, and it reports a circle exactly when there is one. *)
Lemma walk_spec t p fuel n visited current :
  walk_inv task_entities t p n visited current → unvisited task_entities visited + 2 ≤ fuel →
  ∃ found, walk fuel visited current = Some found
           ∧ (found = true ↔ Violations.circular task_entities t p).
Proof.
  revert n visited current.
  induction fuel as [|fuel IH]; intros n visited current Hinv Hfuel; [lia|].
  simpl. destruct (live current) as [c|] eqn:Hlive.
  - destruct (live_Some _ _ Hlive) as [-> ->].
    case_bool_decide as Hc.
    + exists true. split; [done|]. split; [intros _|done].
      destruct Hinv as [Hv _ _ Hcur]. rewrite Hlive in Hcur.
      apply Hv in Hc as [->|(i & Hi & Hx)].
      * left. by exists n.
      * right. by exists i, n, c.
    + pose proof (walk_inv_step _ _ _ _ _ _ Hinv Hlive Hc) as Hinv'.
      destruct (decide (c ∈ task_entities.*1)) as [Hin|Hout].
      * apply (IH (S n)); [done|].
        pose proof (unvisited_cons visited c Hc Hin). lia.
      * rewrite (next_None_outside c Hout) in *.
        destruct fuel as [|fuel]; [lia|]. simpl.
        exists false. split; [done|]. split; [done|].
        destruct Hinv' as [_ Hf Hd Hcur]. simpl in Hcur.
        intros [(m & Hm)|(i & j & x & Hij & Hi & Hj)]; exfalso.
        -- apply (Hf m); [|done]. by apply (ancestor_Some_lt p (S n) m t).
        -- apply (Hd i j x); [done| |done..].
           by apply (ancestor_Some_lt p (S n) j x).
  - rewrite (live_None _ Hlive). exists false. split; [done|]. split; [done|].
    destruct Hinv as [_ Hf Hd Hcur]. rewrite Hlive in Hcur.
    intros [(m & Hm)|(i & j & x & Hij & Hi & Hj)]; exfalso.
    + apply (Hf m); [|done]. by apply (ancestor_Some_lt p n m t).
    + apply (Hd i j x); [done| |done..]. by apply (ancestor_Some_lt p n j x).
Qed.

Lemma walk_inv_init t p : p ≠ EmptyString → walk_inv task_entities t p 0 [t] (Some p).
Proof.
  intros Hp. split.
  - intros x. rewrite list_elem_of_singleton. split; [by left|].
    intros [->|(i & ? & _)]; [done|lia].
  - intros; lia.
  - intros; lia.
  - simpl. by apply truthy_true in Hp as ->.
Qed.

(** The circular-reference check of one task. *)
Lemma walk_total t p :
  p ≠ EmptyString →
  ∃ found, walk (Validator.walk_fuel task_entities) [t] (Some p) = Some found
           ∧ (found = true ↔ Violations.circular task_entities t p).
Proof.
  intros Hp. apply (walk_spec t p _ 0); [by apply walk_inv_init|].
  unfold Validator.walk_fuel. pose proof (unvisited_le [t]). lia.
Qed.
End Walk.

(** *** Loops that only append *)

Section Append.
Context {X : Type}.
Implicit Types (acc : list validation_error) (Q : X → validation_error → Prop).

Lemma foldl_append (body : list validation_error → X → list validation_error) Q :
  (∀ acc x, ∃ l, body acc x = acc ++ l ∧ ∀ e, e ∈ l ↔ Q x e) →
  ∀ xs acc, ∃ l, foldl body acc xs = acc ++ l
                 ∧ ∀ e, e ∈ l ↔ ∃ x, x ∈ xs ∧ Q x e.
Proof.
  intros Hbody xs. induction xs as [|x xs IH]; intros acc; simpl.
  - exists []. rewrite app_nil_r. split; [done|]. intros e. split.
    + by intros ?%elem_of_nil.
    + by intros (x & ?%elem_of_nil & _).
  - destruct (Hbody acc x) as (l1 & -> & H1).
    destruct (IH (acc ++ l1)) as (l2 & -> & H2).
    exists (l1 ++ l2). rewrite app_assoc. split; [done|].
    intros e. rewrite elem_of_app, H1, H2. split.
    + intros [?|(y & ? & ?)]; [exists x; split; [left|done] | exists y; split; [by right|done]].
    + intros (y & [->|?]%elem_of_cons & ?); [by left | right; eauto].
Qed.

Lemma foldl_append_opt
    (body : option (list validation_error) → X → option (list validation_error)) Q :
  (∀ acc x, ∃ l, body (Some acc) x = Some (acc ++ l) ∧ ∀ e, e ∈ l ↔ Q x e) →
  ∀ xs acc, ∃ l, foldl body (Some acc) xs = Some (acc ++ l)
                 ∧ ∀ e, e ∈ l ↔ ∃ x, x ∈ xs ∧ Q x e.
Proof.
  intros Hbody xs. induction xs as [|x xs IH]; intros acc; simpl.
  - exists []. rewrite app_nil_r. split; [done|]. intros e. split.
    + by intros ?%elem_of_nil.
    + by intros (x & ?%elem_of_nil & _).
  - destruct (Hbody acc x) as (l1 & -> & H1).
    destruct (IH (acc ++ l1)) as (l2 & -> & H2).
    exists (l1 ++ l2). rewrite app_assoc. split; [done|].
    intros e. rewrite elem_of_app, H1, H2. split.
    + intros [?|(y & ? & ?)]; [exists x; split; [left|done] | exists y; split; [by right|done]].
    + intros (y & [->|?]%elem_of_cons & ?); [by left | right; eauto].
Qed.
End Append.

Lemma append_none acc (Q : validation_error → Prop) :
  (∀ e, ¬ Q e) → ∃ l, acc = acc ++ l ∧ ∀ e, e ∈ l ↔ Q e.
Proof.
  intros HQ. exists []. rewrite app_nil_r. split; [done|]. intros e. split.
  - by intros ?%elem_of_nil.
  - by intros ?%HQ.
Qed.

Lemma append_one acc err (Q : validation_error → Prop) :
  (∀ e, Q e ↔ e = err) → ∃ l, acc ++ [err] = acc ++ l ∧ ∀ e, e ∈ l ↔ Q e.
Proof.
  intros HQ. exists [err]. split; [done|]. intros e.
  by rewrite list_elem_of_singleton, HQ.
Qed.

(** *** The bodies of the loops *)

Section Bodies.
Context (task_entities : pydict v_task) (project_entities : pydict v_project).

Lemma check_id_spec acc task_id :
  ∃ l, Validator.check_id task_entities acc task_id = acc ++ l
       ∧ ∀ e, e ∈ l ↔ PyDict.get task_id task_entities = None
                        ∧ e = TaskIdWithoutEntity task_id.
Proof.
  unfold Validator.check_id. destruct (PyDict.mem task_id task_entities) eqn:Hm.
  - apply append_none. intros e [Hnone _].
    apply PyDictFacts.mem_true, PyDictFacts.get_is_Some in Hm as [? ?]. congruence.
  - apply append_one. intros e.
    apply PyDictFacts.mem_false, PyDictFacts.get_None in Hm. naive_solver.
Qed.

Lemma check_project_ref_spec acc entry :
  ∃ l, Validator.check_project_ref project_entities acc entry = acc ++ l
       ∧ ∀ e, e ∈ l ↔ ∃ p, vt_projectId entry.2 = Some p ∧ p ≠ EmptyString
                            ∧ PyDict.get p project_entities = None
                            ∧ e = NonExistentProject entry.1 p.
Proof.
  unfold Validator.check_project_ref.
  destruct (vt_projectId entry.2) as [p|]; [|apply append_none; naive_solver].
  destruct (truthy p) eqn:Hp; simpl.
  - apply truthy_true in Hp.
    destruct (PyDict.mem p project_entities) eqn:Hm; simpl.
    + apply append_none. intros e (q & [= <-] & _ & Hnone & _).
      apply PyDictFacts.mem_true, PyDictFacts.get_is_Some in Hm as [? ?]. congruence.
    + apply append_one. intros e.
      apply PyDictFacts.mem_false, PyDictFacts.get_None in Hm. naive_solver.
  - apply truthy_false in Hp. apply append_none. naive_solver.
Qed.

Lemma check_parent_spec acc entry :
  ∃ l, Validator.check_parent task_entities (Some acc) entry = Some (acc ++ l)
       ∧ ∀ e, e ∈ l ↔ parent_violation task_entities entry e.
Proof.
  unfold Validator.check_parent, parent_violation. cbn -[Validator.walk_fuel].
  destruct (vt_parentId entry.2) as [p|].
  2:{ exists []. rewrite app_nil_r. split; [done|].
      intros e. split; [by intros ?%elem_of_nil|]. by intros (p & ? & _). }
  destruct (truthy p) eqn:Hp.
  2:{ apply truthy_false in Hp. exists []. rewrite app_nil_r. split; [done|].
      intros e. split; [by intros ?%elem_of_nil|].
      intros (q & [= <-] & ? & _). done. }
  apply truthy_true in Hp.
  destruct (PyDict.mem p task_entities) eqn:Hm; cbn -[Validator.walk_fuel].
  - apply PyDictFacts.mem_true, PyDictFacts.get_is_Some in Hm.
    case_bool_decide as Hpt.
    + exists [OwnParent entry.1]. split; [done|]. intros e.
      rewrite list_elem_of_singleton. split.
      * intros ->. exists p. naive_solver.
      * intros (q & [= <-] & _ & [[Hn _]|[(_ & _ & ->)|(_ & ? & _)]]); [|done|done].
        destruct Hm. congruence.
    + destruct (walk_total task_entities entry.1 p Hp) as (found & -> & Hfound).
      cbn. destruct found.
      * exists [CircularParent entry.1]. split; [done|]. intros e.
        rewrite list_elem_of_singleton. split.
        -- intros ->. exists p. split; [done|]. split; [done|].
           right. right. repeat split; [done..|]. by apply Hfound.
        -- intros (q & [= <-] & _ & [[Hn _]|[(_ & ? & _)|(_ & _ & _ & ->)]]); [|done|done].
           destruct Hm. congruence.
      * exists []. rewrite app_nil_r. split; [done|]. intros e.
        split; [by intros ?%elem_of_nil|].
        intros (q & [= <-] & _ & [[Hn _]|[(_ & ? & _)|(_ & _ & Hc & _)]]); [|done|].
        -- destruct Hm. congruence.
        -- apply Hfound in Hc. done.
  - apply PyDictFacts.mem_false, PyDictFacts.get_None in Hm.
    exists [NonExistentParent entry.1 p]. split; [done|]. intros e.
    rewrite list_elem_of_singleton. split.
    + intros ->. exists p. naive_solver.
    + intros (q & [= <-] & _ & [[_ ->]|[([? ?] & _)|([? ?] & _)]]); [done|congruence..].
Qed.

Lemma check_subtask_spec task_id acc subtask_id :
  ∃ l, Validator.check_subtask task_entities task_id acc subtask_id = acc ++ l
       ∧ ∀ e, e ∈ l ↔
           (PyDict.get subtask_id task_entities = None
            ∧ e = NonExistentSubtask task_id subtask_id)
           ∨ (∃ child, PyDict.get subtask_id task_entities = Some child
                       ∧ vt_parentId child ≠ Some task_id
                       ∧ e = SubtaskParentMismatch subtask_id task_id).
Proof.
  unfold Validator.check_subtask.
  destruct (PyDict.get subtask_id task_entities) as [child|].
  - case_bool_decide.
    + apply append_one. naive_solver.
    + apply append_none. naive_solver.
  - apply append_one. naive_solver.
Qed.

Lemma check_listed_spec project_id acc task_id :
  ∃ l, Validator.check_listed task_entities project_id acc task_id = acc ++ l
       ∧ ∀ e, e ∈ l ↔
           (PyDict.get task_id task_entities = None
            ∧ e = ProjectMissingTask project_id task_id)
           ∨ (∃ task, PyDict.get task_id task_entities = Some task
                      ∧ truthy_opt (vt_parentId task) = true
                      ∧ e = ProjectListsSubtask project_id task_id).
Proof.
  unfold Validator.check_listed.
  destruct (PyDict.get task_id task_entities) as [task|].
  - destruct (truthy_opt (vt_parentId task)) eqn:Ht.
    + apply append_one. naive_solver.
    + apply append_none. intros e [[? _]|(t0 & [= <-] & ? & _)]; congruence.
  - apply append_one. naive_solver.
Qed.
End Bodies.

(** *** The order of the messages *)

Lemma order_segment k k' l tail :
  k ≤ k' →
  (∀ e, e ∈ l → Violations.check_number e = k) →
  Violations.in_check_order tail →
  (∀ e, e ∈ tail → k' ≤ Violations.check_number e) →
  Violations.in_check_order (l ++ tail)
  ∧ (∀ e, e ∈ l ++ tail → k ≤ Violations.check_number e).
Proof.
  intros Hk Hl Htail Hlow. split.
  - intros i j e1 e2 Hij Hi Hj.
    destruct (decide (i < length l)) as [Hil|Hil].
    + rewrite lookup_app_l in Hi by done.
      apply list_elem_of_lookup_2, Hl in Hi. rewrite Hi.
      destruct (decide (j < length l)) as [Hjl|Hjl].
      * rewrite lookup_app_l in Hj by done.
        apply list_elem_of_lookup_2, Hl in Hj. lia.
      * rewrite lookup_app_r in Hj by lia.
        apply list_elem_of_lookup_2, Hlow in Hj. lia.
    + rewrite lookup_app_r in Hi by lia. rewrite lookup_app_r in Hj by lia.
      apply (Htail (i - length l) (j - length l)); [lia|done..].
  - intros e [He|He]%elem_of_app; [apply Hl in He; lia | apply Hlow in He; lia].
Qed.

Lemma order_nil : Violations.in_check_order [].
Proof. intros i j e1 e2 _ Hi. by rewrite lookup_nil in Hi. Qed.

(** *** The whole validator *)

Section Complete.
Context (b : v_backup) (d : v_data) (Hd : vb_data b = Some d).

#[local] Abbreviation tasks := (vd_task_entities d).
#[local] Abbreviation projects := (vd_project_entities d).

Lemma check_subtasks_spec acc entry :
  ∃ l, Validator.check_subtasks tasks acc entry = acc ++ l
       ∧ ∀ e, e ∈ l ↔
           ∃ s, s ∈ default [] (vt_subTaskIds entry.2)
                ∧ ((PyDict.get s tasks = None ∧ e = NonExistentSubtask entry.1 s)
                   ∨ (∃ child, PyDict.get s tasks = Some child
                               ∧ vt_parentId child ≠ Some entry.1
                               ∧ e = SubtaskParentMismatch s entry.1)).
Proof.
  unfold Validator.check_subtasks.
  apply (foldl_append (Validator.check_subtask tasks entry.1)
           (λ s e, (PyDict.get s tasks = None ∧ e = NonExistentSubtask entry.1 s)
                   ∨ (∃ child, PyDict.get s tasks = Some child
                               ∧ vt_parentId child ≠ Some entry.1
                               ∧ e = SubtaskParentMismatch s entry.1))).
  intros. apply check_subtask_spec.
Qed.

Lemma check_project_spec acc entry :
  ∃ l, Validator.check_project tasks acc entry = acc ++ l
       ∧ ∀ e, e ∈ l ↔
           ∃ t, t ∈ default [] (vp_taskIds entry.2)
                ∧ ((PyDict.get t tasks = None ∧ e = ProjectMissingTask entry.1 t)
                   ∨ (∃ task, PyDict.get t tasks = Some task
                              ∧ truthy_opt (vt_parentId task) = true
                              ∧ e = ProjectListsSubtask entry.1 t)).
Proof.
  unfold Validator.check_project.
  apply (foldl_append (Validator.check_listed tasks entry.1)
           (λ t e, (PyDict.get t tasks = None ∧ e = ProjectMissingTask entry.1 t)
                   ∨ (∃ task, PyDict.get t tasks = Some task
                              ∧ truthy_opt (vt_parentId task) = true
                              ∧ e = ProjectListsSubtask entry.1 t))).
  intros. apply check_listed_spec.
Qed.

(** The returned list, check by check. *)
Lemma errors_segments :
  ∃ l3 l4 l5 l6 l7,
    Validator.errors b
    = Some (envelope_errors b ++ duplicate_errors d ++ l3 ++ l4 ++ l5 ++ l6 ++ l7)
    ∧ (∀ e, e ∈ l3 ↔ ∃ t, t ∈ vd_task_ids d ∧ PyDict.get t tasks = None
                          ∧ e = TaskIdWithoutEntity t)
    ∧ (∀ e, e ∈ l4 ↔ ∃ entry, entry ∈ tasks
                      ∧ ∃ p, vt_projectId entry.2 = Some p ∧ p ≠ EmptyString
                             ∧ PyDict.get p projects = None
                             ∧ e = NonExistentProject entry.1 p)
    ∧ (∀ e, e ∈ l5 ↔ ∃ entry, entry ∈ tasks ∧ parent_violation tasks entry e)
    ∧ (∀ e, e ∈ l6 ↔ ∃ entry, entry ∈ tasks
                      ∧ ∃ s, s ∈ default [] (vt_subTaskIds entry.2)
                        ∧ ((PyDict.get s tasks = None
                            ∧ e = NonExistentSubtask entry.1 s)
                           ∨ (∃ child, PyDict.get s tasks = Some child
                                       ∧ vt_parentId child ≠ Some entry.1
                                       ∧ e = SubtaskParentMismatch s entry.1)))
    ∧ (∀ e, e ∈ l7 ↔ ∃ entry, entry ∈ projects
                      ∧ ∃ t, t ∈ default [] (vp_taskIds entry.2)
                        ∧ ((PyDict.get t tasks = None
                            ∧ e = ProjectMissingTask entry.1 t)
                           ∨ (∃ task, PyDict.get t tasks = Some task
                                      ∧ truthy_opt (vt_parentId task) = true
                                      ∧ e = ProjectListsSubtask entry.1 t))).
Proof.
  unfold Validator.errors. rewrite Hd.
  set (e4 := if bool_decide _ then _ else _).
  assert (He4 : e4 = envelope_errors b ++ duplicate_errors d).
  { subst e4. unfold envelope_errors, duplicate_errors.
    destruct (vb_crossModelVersion b), (vb_timestamp b), (vb_lastUpdate b),
      (bool_decide (length (vd_task_ids d) ≠ length (remove_dups (vd_task_ids d))));
      reflexivity. }
  rewrite He4. clear e4 He4.
  destruct (foldl_append (Validator.check_id tasks) _ (check_id_spec tasks)
              (vd_task_ids d) (envelope_errors b ++ duplicate_errors d))
    as (l3 & -> & H3).
  destruct (foldl_append (Validator.check_project_ref projects) _
              (check_project_ref_spec projects) tasks
              ((envelope_errors b ++ duplicate_errors d) ++ l3))
    as (l4 & -> & H4).
  destruct (foldl_append_opt (Validator.check_parent tasks) _
              (check_parent_spec tasks) tasks
              (((envelope_errors b ++ duplicate_errors d) ++ l3) ++ l4))
    as (l5 & -> & H5).
  cbn [mbind option_bind].
  destruct (foldl_append (Validator.check_subtasks tasks) _ check_subtasks_spec tasks
              ((((envelope_errors b ++ duplicate_errors d) ++ l3) ++ l4) ++ l5))
    as (l6 & -> & H6).
  destruct (foldl_append (Validator.check_project tasks) _ check_project_spec projects
              (((((envelope_errors b ++ duplicate_errors d) ++ l3) ++ l4) ++ l5) ++ l6))
    as (l7 & -> & H7).
  exists l3, l4, l5, l6, l7. rewrite <-!app_assoc. split; [done|].
  repeat split; try (by apply H3 || by apply H4 || by apply H5 || by apply H6 || by apply H7).
Qed.
End Complete.

(** With a [data] field the validator ends, and its list holds exactly the
    violations of the seven checks, check after check. *)
Lemma errors_spec b d :
  vb_data b = Some d →
  ∃ errs, Validator.errors b = Some errs
          ∧ (∀ e, e ∈ errs ↔ Violations.violation b e)
          ∧ Violations.in_check_order errs.
Proof.
  intros Hd.
  destruct (errors_segments b d Hd) as (l3 & l4 & l5 & l6 & l7 & -> & H3 & H4 & H5 & H6 & H7).
  eexists. split; [done|]. split.
  - intros e. rewrite !elem_of_app, H3, H4, H5, H6, H7.
    unfold envelope_errors, duplicate_errors, parent_violation. split.
    + intros [Henv|[Hdup|[(t & ? & ? & ->)|[([t task] & ? & p & ? & ? & ? & ->)|
        [([t task] & ? & p & ? & ? & Hpar)|[([t task] & ? & s & ? & Hsub)
        |([p proj] & ? & t & Ht & Hl)]]]]]]; simpl in *.
      * rewrite !elem_of_app in Henv.
        destruct Henv as [He|[He|He]];
          [destruct (vb_crossModelVersion b) eqn:?
          |destruct (vb_timestamp b) eqn:?
          |destruct (vb_lastUpdate b) eqn:?];
          try (by apply elem_of_nil in He);
          apply list_elem_of_singleton in He as ->; by constructor.
      * case_bool_decide as Hlen; [|by apply elem_of_nil in Hdup].
        apply list_elem_of_singleton in Hdup as ->.
        eapply Violations.duplicate_ids; [done|].
        by rewrite <-remove_dups_length_NoDup.
      * by eapply Violations.id_without_entity.
      * by eapply Violations.project_unresolved.
      * destruct Hpar as [[? ->]|[(? & -> & ->)|(? & ? & ? & ->)]].
        -- by eapply Violations.parent_unresolved.
        -- by eapply Violations.parent_is_self.
        -- by eapply Violations.parent_cycle.
      * destruct (vt_subTaskIds task) as [l|] eqn:Hl;
          [|match goal with H : _ ∈ default [] None |- _ => by apply elem_of_nil in H end].
        destruct Hsub as [[? ->]|(child & ? & ? & ->)].
        -- by eapply Violations.subtask_unresolved.
        -- by eapply Violations.subtask_mismatch.
      * destruct (vp_taskIds proj) as [l|] eqn:Hp; [|by apply elem_of_nil in Ht].
        destruct Hl as [[? ->]|(task & ? & ? & ->)].
        -- by eapply Violations.listed_unresolved.
        -- by eapply Violations.listed_subtask.
    + intros Hv. inversion Hv as
        [Hx|Hx|Hx|Hx|d' Hx Hnd|d' t Hx Hin Hget|d' t task p Hx Hin Hproj Hp Hget
        |d' t task p Hx Hin Hpar Hp Hget|d' t task Hx Hin Hpar Hp
        |d' t task p Hx Hin Hpar Hp Hpt Hsome Hcirc
        |d' t task l s Hx Hin Hsub Hs Hget|d' t task l s child Hx Hin Hsub Hs Hget Hne
        |d' p proj l t Hx Hin Hl Ht Hget|d' p proj l t task Hx Hin Hl Ht Hget Htr];
        subst; try (rewrite Hd in Hx; simplify_eq).
      * left. rewrite Hx. left.
      * left. rewrite Hx, !elem_of_app. right. left. left.
      * left. rewrite Hx, !elem_of_app. right. right. left.
      * right. left. rewrite bool_decide_eq_true_2; [left|].
        by rewrite remove_dups_length_NoDup.
      * right. right. left. eauto.
      * do 3 right. left. exists (t, task). split; [done|]. exists p. done.
      * do 4 right. left. exists (t, task). split; [done|]. exists p. simpl. eauto.
      * do 4 right. left. exists (t, task). split; [done|]. exists t. simpl.
        split; [done|]. split; [done|]. right. left.
        split; [|done]. by eapply PyDictFacts.elem_get_is_Some.
      * do 4 right. left. exists (t, task). split; [done|]. exists p. simpl.
        split; [done|]. split; [done|]. right. right. done.
      * do 5 right. left. exists (t, task). split; [done|]. exists s. simpl.
        split; [by rewrite Hsub|]. by left.
      * do 5 right. left. exists (t, task). split; [done|]. exists s. simpl.
        split; [by rewrite Hsub|]. right. by exists child.
      * do 6 right. exists (p, proj). split; [done|]. exists t. simpl.
        split; [by rewrite Hl|]. by left.
      * do 6 right. exists (p, proj). split; [done|]. exists t. simpl.
        split; [by rewrite Hl|]. right. by exists task.
  - assert (S7 : ∀ e, e ∈ l7 → Violations.check_number e = 7).
    { intros e (entry & _ & t & _ & Ht)%H7.
      by destruct Ht as [[_ ->]|(task & _ & _ & ->)]. }
    assert (S6 : ∀ e, e ∈ l6 → Violations.check_number e = 6).
    { intros e (entry & _ & s & _ & Hs)%H6.
      by destruct Hs as [[_ ->]|(child & _ & _ & ->)]. }
    assert (S5 : ∀ e, e ∈ l5 → Violations.check_number e = 5).
    { intros e (entry & _ & p & _ & _ & Hp)%H5.
      by destruct Hp as [[_ ->]|[(_ & _ & ->)|(_ & _ & _ & ->)]]. }
    assert (S4 : ∀ e, e ∈ l4 → Violations.check_number e = 4).
    { by intros e (entry & _ & p & _ & _ & _ & ->)%H4. }
    assert (S3 : ∀ e, e ∈ l3 → Violations.check_number e = 3).
    { by intros e (t & _ & _ & ->)%H3. }
    assert (S2 : ∀ e, e ∈ duplicate_errors d → Violations.check_number e = 2).
    { unfold duplicate_errors. intros e He. case_bool_decide.
      - by apply list_elem_of_singleton in He as ->.
      - by apply elem_of_nil in He. }
    assert (S1 : ∀ e, e ∈ envelope_errors b → Violations.check_number e = 1).
    { unfold envelope_errors. intros e. rewrite !elem_of_app.
      intros [He|[He|He]];
        [destruct (vb_crossModelVersion b)
        |destruct (vb_timestamp b)
        |destruct (vb_lastUpdate b)];
        try (by apply elem_of_nil in He);
        by apply list_elem_of_singleton in He as ->. }
    rewrite <-(app_nil_r l7).
    destruct (order_segment 7 7 l7 [] (le_n _) S7 order_nil) as [O7 B7].
    { by intros e ?%elem_of_nil. }
    destruct (order_segment 6 7 l6 _ ltac:(lia) S6 O7 B7) as [O6 B6].
    destruct (order_segment 5 6 l5 _ ltac:(lia) S5 O6 B6) as [O5 B5].
    destruct (order_segment 4 5 l4 _ ltac:(lia) S4 O5 B5) as [O4 B4].
    destruct (order_segment 3 4 l3 _ ltac:(lia) S3 O4 B4) as [O3 B3].
    destruct (order_segment 2 3 _ _ ltac:(lia) S2 O3 B3) as [O2 B2].
    destruct (order_segment 1 2 _ _ ltac:(lia) S1 O2 B2) as [O1 _].
    done.
Qed.

(** The validator once the sub-documents are found: the list it returns
    holds exactly the violations, check after check. *)
Lemma validate_with_sub_documents (b : v_backup) :
  ∃ errs, Validator.errors b = Some errs
          ∧ validate_sp_data b = Some (message <$> errs)
          ∧ (vb_data b = None → errs = [MissingData])
          ∧ (is_Some (vb_data b) →
               (∀ e, e ∈ errs ↔ Violations.violation b e)
               ∧ Violations.in_check_order errs).
Proof.
  destruct (vb_data b) as [d|] eqn:Hd.
  - destruct (errors_spec b d Hd) as (errs & Herrs & Hiff & Hord).
    exists errs. unfold validate_sp_data. rewrite Herrs. repeat split; try done.
    + by apply Hiff.
    + by apply Hiff.
  - exists [MissingData]. unfold validate_sp_data, Validator.errors. rewrite Hd.
    repeat split; try done; by intros [? ?].
Qed.

(** The subscripts succeed exactly on the documents that are
    [Raw.subscriptable]. *)
Lemma sub_documents_Returns (doc : Raw.backup) (sp_data : Raw.data) :
  Raw.subscriptable doc → Raw.data_field doc = Some sp_data →
  ∃ d, Raw.sub_documents sp_data = Returns d.
Proof.
  intros Hsub Hd. destruct (Hsub sp_data Hd) as (t & p & Ht & Hp & [i Hi] & [e He] & [pe Hpe]).
  unfold Raw.sub_documents. rewrite Ht, Hi, He, Hp, Hpe. by eexists.
Qed.

(** C5, as the code has it.  Take a backup document in which every key
    that the validator subscripts is there: [data], if present, holds
    [task] with [ids] and [entities], and [project] with [entities].  On
    such a document [validate_sp_data] ends normally.  Without a [data]
    field it returns the one message about that field and looks no
    further.  With a [data] field it returns, rendered as text, a list
    that holds exactly the violations of the checks 1 to 7, with the
    messages of a check before those of the next. *)
Theorem validate_complete (doc : Raw.backup) :
  Raw.subscriptable doc →
  match Raw.data_field doc with
  | None => Raw.validate_sp_data doc = Returns (Some [message MissingData])
  | Some sp_data =>
      ∃ d errs,
        Raw.sub_documents sp_data = Returns d
        ∧ Raw.validate_sp_data doc = Returns (Some (message <$> errs))
        ∧ (∀ e, e ∈ errs ↔ Violations.violation (Raw.typed doc d) e)
        ∧ Violations.in_check_order errs
  end.
Proof.
  intros Hsub. unfold Raw.validate_sp_data.
  destruct (Raw.data_field doc) as [sp_data|] eqn:Hd; [|done].
  destruct (sub_documents_Returns doc sp_data Hsub Hd) as [d Hdocs].
  destruct (errors_spec (Raw.typed doc d) d eq_refl) as (errs & Herrs & Hiff & Hord).
  exists d, errs. rewrite Hdocs, Herrs. done.
Qed.

Lemma validate_complete_witness :
  Raw.subscriptable MoreSamples.raw_two_cycle
  ∧ ∃ d errs,
      Raw.sub_documents
        (Raw.Data
           (Some (Raw.Tasks (Some ["task_a"; "task_b"])
                    (Some [("task_a", VTask (Some "project") (Some "task_b") (Some []));
                           ("task_b", VTask (Some "project") (Some "task_a") (Some []))])))
           (Some (Raw.Projects (Some [("project", VProject (Some []))]))))
      = Returns d
      ∧ Raw.validate_sp_data MoreSamples.raw_two_cycle
        = Returns (Some (message <$> errs))
      ∧ (∀ e, e ∈ errs
              ↔ Violations.violation (Raw.typed MoreSamples.raw_two_cycle d) e)
      ∧ Violations.in_check_order errs.
Proof.
  assert (Hsub : Raw.subscriptable MoreSamples.raw_two_cycle).
  { intros sp_data [= <-]. eexists _, _. repeat split; by eexists. }
  split; [exact Hsub|].
  exact (validate_complete MoreSamples.raw_two_cycle Hsub).
Defined.

Example validate_two_cycle :
  Raw.validate_sp_data MoreSamples.raw_two_cycle
  = Returns (Some ["Missing 'crossModelVersion' field in backup";
                   "Circular parent reference detected involving task 'task_a'";
                   "Circular parent reference detected involving task 'task_b'"]).
Proof. vm_compute. reflexivity. Qed.

(** A document that lacks a key the validator subscripts makes it raise:
    the call ends with [KeyError] exactly when the document is not
    [Raw.subscriptable]. *)
Lemma validate_raises (doc : Raw.backup) :
  (∃ key, Raw.validate_sp_data doc = KeyError key) ↔ ¬ Raw.subscriptable doc.
Proof.
  unfold Raw.validate_sp_data, Raw.subscriptable. split.
  - intros [key Hkey] Hsub.
    destruct (Raw.data_field doc) as [sp_data|]; [|done].
    destruct (Hsub sp_data eq_refl) as (t & p & Ht & Hp & [i Hi] & [e He] & [pe Hpe]).
    unfold Raw.sub_documents in Hkey. by rewrite Ht, Hi, He, Hp, Hpe in Hkey.
  - intros Hno. destruct (Raw.data_field doc) as [sp_data|].
    + destruct (Raw.sub_documents sp_data) as [d|key] eqn:Hdocs; [|by exists key].
      exfalso. apply Hno. intros ? [= <-]. unfold Raw.sub_documents in Hdocs.
      destruct (Raw.task sp_data) as [t|]; [|done].
      destruct (Raw.ids t) as [i|] eqn:Hi; [|done].
      destruct (Raw.entities t) as [e|] eqn:He; [|done].
      destruct (Raw.project sp_data) as [p|]; [|done].
      destruct (Raw.project_entities p) as [pe|] eqn:Hpe; [|done].
      exists t, p. rewrite Hi, He, Hpe. repeat split; by eexists.
    + exfalso. apply Hno. by intros ? [=].
Qed.

Example validate_empty_data :
  Raw.validate_sp_data MoreSamples.raw_empty_data = KeyError "task".
Proof. reflexivity. Qed.

(** C5 as stated fails: without [data] the validator returns at once, and a
    missing [crossModelVersion] goes unreported. *)
Lemma missing_data_hides_other_fields :
  Raw.validate_sp_data MoreSamples.raw_bare
  = Returns (Some ["Missing 'data' field in backup"])
  ∧ Raw.crossModelVersion MoreSamples.raw_bare = false
  ∧ validate_sp_data Samples.bare_backup = Some ["Missing 'data' field in backup"]
  ∧ Validator.errors Samples.bare_backup = Some [MissingData]
  ∧ Violations.violation Samples.bare_backup MissingCrossModelVersion
  ∧ MissingCrossModelVersion ∉ [MissingData].
Proof.
  split; [done|]. split; [done|]. split; [done|]. split; [done|].
  split; [by constructor|]. by intros [=]%list_elem_of_singleton.
Qed.

(** C6. On a backup with a [data] field the validator reports: every task
    whose [projectId] names no project entity; both tasks of a pair that
    name each other as parent; every task that a project lists although it
    has a [parentId].  (Names and identifiers are non-empty strings: the
    validator reads an empty reference as no reference.) *)
Theorem validator_detects_corruptions (b : v_backup) (d : v_data) :
  vb_data b = Some d →
  ∃ errs,
    Validator.errors b = Some errs
    ∧ validate_sp_data b = Some (message <$> errs)
    ∧ (∀ t task p,
         PyDict.get t (vd_task_entities d) = Some task →
         vt_projectId task = Some p → p ≠ EmptyString →
         PyDict.get p (vd_project_entities d) = None →
         NonExistentProject t p ∈ errs)
    ∧ (∀ t1 t2 task1 task2,
         PyDict.get t1 (vd_task_entities d) = Some task1 →
         PyDict.get t2 (vd_task_entities d) = Some task2 →
         t1 ≠ t2 → t1 ≠ EmptyString → t2 ≠ EmptyString →
         vt_parentId task1 = Some t2 → vt_parentId task2 = Some t1 →
         CircularParent t1 ∈ errs ∧ CircularParent t2 ∈ errs)
    ∧ (∀ p proj l t task q,
         PyDict.get p (vd_project_entities d) = Some proj →
         vp_taskIds proj = Some l → t ∈ l →
         PyDict.get t (vd_task_entities d) = Some task →
         vt_parentId task = Some q → q ≠ EmptyString →
         ProjectListsSubtask p t ∈ errs).
Proof.
  intros Hd. destruct (errors_spec b d Hd) as (errs & Herrs & Hiff & _).
  exists errs. unfold validate_sp_data. rewrite Herrs.
  split; [done|]. split; [done|]. split; [|split].
  - intros t task p Ht Hp Hne Hnone. apply Hiff.
    eapply Violations.project_unresolved; [done| |done..].
    by apply PyDictFacts.get_Some_elem.
  - assert (Hhalf : ∀ t1 t2 task1 task2,
              PyDict.get t1 (vd_task_entities d) = Some task1 →
              PyDict.get t2 (vd_task_entities d) = Some task2 →
              t1 ≠ t2 → t1 ≠ EmptyString → t2 ≠ EmptyString →
              vt_parentId task1 = Some t2 → vt_parentId task2 = Some t1 →
              CircularParent t1 ∈ errs).
    { intros t1 t2 task1 task2 H1 H2 Hne Hn1 Hn2 Hp1 Hp2. apply Hiff.
      eapply (Violations.parent_cycle b d t1 task1 t2); [done| |done|done|done|by eauto|].
      - by apply PyDictFacts.get_Some_elem.
      - left. exists 1. simpl. unfold Violations.next, Validator.parent_of.
        rewrite H2. simpl. rewrite Hp2. simpl.
        by apply truthy_true in Hn1 as ->. }
    intros t1 t2 task1 task2 H1 H2 Hne Hn1 Hn2 Hp1 Hp2. split.
    + by apply (Hhalf t1 t2 task1 task2).
    + by apply (Hhalf t2 t1 task2 task1).
  - intros p proj l t task q Hp Hl Ht Htask Hq Hne. apply Hiff.
    eapply Violations.listed_subtask; [done| |done..|].
    + by apply PyDictFacts.get_Some_elem.
    + rewrite Hq. simpl. by apply truthy_true.
Qed.

Lemma validator_detects_corruptions_witness :
  (∃ d, vb_data Samples.bad_project_backup = Some d)
  ∧ (∃ errs, validate_sp_data Samples.bad_project_backup = Some (message <$> errs)
             ∧ NonExistentProject "bad_task" "non_existent_project" ∈ errs)
  ∧ (∃ errs, validate_sp_data Samples.two_cycle_backup = Some (message <$> errs)
             ∧ CircularParent "task_a" ∈ errs ∧ CircularParent "task_b" ∈ errs)
  ∧ (∃ errs, validate_sp_data Samples.listed_subtask_backup = Some (message <$> errs)
             ∧ ProjectListsSubtask "project" "task_b" ∈ errs).
Proof.
  split; [by eexists|]. split; [|split].
  - destruct (validator_detects_corruptions Samples.bad_project_backup _ eq_refl)
      as (errs & _ & Hv & H1 & _).
    exists errs. split; [done|]. by eapply H1.
  - destruct (validator_detects_corruptions Samples.two_cycle_backup _ eq_refl)
      as (errs & _ & Hv & _ & H2 & _).
    exists errs. split; [done|]. by eapply (H2 "task_a" "task_b").
  - destruct (validator_detects_corruptions Samples.listed_subtask_backup _ eq_refl)
      as (errs & _ & Hv & _ & _ & H3).
    exists errs. split; [done|].
    eapply (H3 "project" _ _ "task_b"); [done|done| |done|done|done].
    right. left.
Defined.

(** ** The tests of the repository, on the model *)

Example test_sanitize_title_normal : sanitize_title (Some "My Task") = "My Task".
Proof. reflexivity. Qed.

Example test_sanitize_title_empty :
  sanitize_title (Some EmptyString) = "Untitled Task"
  ∧ sanitize_title None = "Untitled Task"
  ∧ sanitize_title (Some "   ") = "Untitled Task".
Proof. repeat split. Qed.

Example test_sanitize_title_whitespace :
  sanitize_title (Some "  My Task  ") = "My Task".
Proof. reflexivity. Qed.

Example test_parse_iso_to_unix_ms_none_and_empty rt :
  parse_iso_to_unix_ms rt None = None
  ∧ parse_iso_to_unix_ms rt (Some EmptyString) = None.
Proof. split; reflexivity. Qed.

Example test_parse_iso_to_unix_ms_valid :
  parse_iso_to_unix_ms Reference.rt (Some "2020-10-10T03:46:42.098751Z")
  = Some 1602301602098%Z.
Proof. reflexivity. Qed.

Example test_parse_iso_to_date_string_valid :
  parse_iso_to_date_string Reference.rt (Some "2020-10-10T03:46:42.098751Z")
  = Some "2020-10-10".
Proof. reflexivity. Qed.

Example test_empty_input :
  let out := convert_google_tasks_to_sp Reference.rt
               (GoogleTasks (Some "tasks#taskLists") (Some [])) in
  b_project_ids out = [] ∧ b_task_ids out = [].
Proof. split; reflexivity. Qed.

Example test_subtasks_not_in_project_taskids :
  b_project_entities
    (convert_google_tasks_to_sp Reference.rt Samples.doc_parent_child)
  = [("uuid-0", SpProject "uuid-0" "My Tasks" ["uuid-1"])].
Proof. vm_compute. reflexivity. Qed.

Example test_duplicate_task_ids :
  let out := convert_google_tasks_to_sp Reference.rt Samples.doc_duplicates in
  b_task_ids out = ["uuid-1"; "uuid-2"; "uuid-4"; "uuid-5"]
  ∧ t_title <$> (b_task_entities out).*2
    = ["Task One"; "Task Two"; "Task Three"; "Task Four"]
  ∧ validate_sp_data (view_backup out) = Some [].
Proof. repeat split; vm_compute; reflexivity. Qed.

Example test_detect_invalid_project_reference :
  validate_sp_data Samples.bad_project_backup
  = Some ["Task 'bad_task' references non-existent project 'non_existent_project'"].
Proof. vm_compute. reflexivity. Qed.

Example test_detect_circular_reference :
  validate_sp_data Samples.two_cycle_backup
  = Some ["Circular parent reference detected involving task 'task_a'";
          "Circular parent reference detected involving task 'task_b'"].
Proof. vm_compute. reflexivity. Qed.

(** ** Titles *)

Module PyStrFacts.

Lemma append_nil_l s : EmptyString +:+ s = s.
Proof. done. Qed.

Lemma append_cons a s t : String a s +:+ t = String a (s +:+ t).
Proof. done. Qed.

Lemma append_nil_r s : s +:+ EmptyString = s.
Proof. induction s as [|a s IH]; [done|]. by rewrite append_cons, IH. Qed.

Lemma append_assoc s t u : (s +:+ t) +:+ u = s +:+ (t +:+ u).
Proof. induction s as [|a s IH]; [done|]. by rewrite !append_cons, IH. Qed.

Lemma append_length s t : String.length (s +:+ t) = String.length s + String.length t.
Proof. induction s as [|a s IH]; [done|]. rewrite append_cons. simpl. by rewrite IH. Qed.

(** *** One white-space character at the head *)

Lemma skip_space_split s r :
  skip_space s = Some r →
  ∃ w, s = w +:+ r ∧ skip_space w = Some EmptyString
       ∧ String.length r < String.length s.
Proof.
  destruct s as [|a [|b [|c r3]]]; simpl; [done|..].
  - destruct (PyStr.space (PyStr.code1 a)) eqn:H1; [|done]. intros [= <-].
    exists (String a EmptyString). simpl. rewrite H1. repeat split; try done; simpl; lia.
  - destruct (PyStr.space (PyStr.code1 a)) eqn:H1.
    + intros [= <-]. exists (String a EmptyString). simpl. rewrite H1.
      repeat split; try done; simpl; lia.
    + destruct (PyStr.space (PyStr.code2 a b)) eqn:H2; [|done]. intros [= <-].
      exists (String a (String b EmptyString)). simpl. rewrite H1, H2.
      repeat split; try done; simpl; lia.
  - destruct (PyStr.space (PyStr.code1 a)) eqn:H1.
    + intros [= <-]. exists (String a EmptyString). simpl. rewrite H1.
      repeat split; try done; simpl; lia.
    + destruct (PyStr.space (PyStr.code2 a b)) eqn:H2.
      * intros [= <-]. exists (String a (String b EmptyString)). simpl.
        rewrite H1, H2. repeat split; try done; simpl; lia.
      * destruct (PyStr.space (PyStr.code3 a b c)) eqn:H3; [|done]. intros [= <-].
        exists (String a (String b (String c EmptyString))). simpl.
        rewrite H1, H2, H3. repeat split; try done; simpl; lia.
Qed.

Lemma skip_space_app s r t :
  skip_space s = Some r → skip_space (s +:+ t) = Some (r +:+ t).
Proof.
  destruct s as [|a [|b [|c r3]]]; [done|..];
    rewrite ?append_cons, ?append_nil_l; cbn [skip_space].
  - destruct (PyStr.space (PyStr.code1 a)) eqn:H1; [|done]. by intros [= <-].
  - destruct (PyStr.space (PyStr.code1 a)) eqn:H1; [by intros [= <-]|].
    destruct (PyStr.space (PyStr.code2 a b)) eqn:H2; [|done]. by intros [= <-].
  - destruct (PyStr.space (PyStr.code1 a)) eqn:H1; [by intros [= <-]|].
    destruct (PyStr.space (PyStr.code2 a b)) eqn:H2; [by intros [= <-]|].
    destruct (PyStr.space (PyStr.code3 a b c)) eqn:H3; [|done]. by intros [= <-].
Qed.

Lemma blank_skip s :
  PyStr.blank s =
    match skip_space s with
    | Some r => PyStr.blank r
    | None => if s is EmptyString then true else false
    end.
Proof.
  destruct s as [|a [|b [|c r3]]]; simpl; [done|..].
  - by destruct (PyStr.space (PyStr.code1 a)).
  - destruct (PyStr.space (PyStr.code1 a)); [done|].
    by destruct (PyStr.space (PyStr.code2 a b)).
  - destruct (PyStr.space (PyStr.code1 a)); [done|].
    destruct (PyStr.space (PyStr.code2 a b)); [done|].
    by destruct (PyStr.space (PyStr.code3 a b c)).
Qed.

Lemma lstrip_skip s :
  PyStr.lstrip s = match skip_space s with Some r => PyStr.lstrip r | None => s end.
Proof.
  destruct s as [|a [|b [|c r3]]]; simpl; [done|..].
  - by destruct (PyStr.space (PyStr.code1 a)).
  - destruct (PyStr.space (PyStr.code1 a)); [done|].
    by destruct (PyStr.space (PyStr.code2 a b)).
  - destruct (PyStr.space (PyStr.code1 a)); [done|].
    destruct (PyStr.space (PyStr.code2 a b)); [done|].
    by destruct (PyStr.space (PyStr.code3 a b c)).
Qed.

(** Induction along the white space at the head of a string. *)
Lemma skip_space_ind (P : string → Prop) :
  (∀ s, (∀ r, skip_space s = Some r → P r) → P s) → ∀ s, P s.
Proof.
  intros Hstep s. remember (String.length s) as n eqn:Hn. revert s Hn.
  induction n as [n IH] using lt_wf_ind. intros s ->.
  apply Hstep. intros r Hr. apply skip_space_split in Hr as (_ & _ & _ & Hlt).
  by apply (IH (String.length r)).
Qed.

(** *** Blank strings *)

Lemma blank_app s t : PyStr.blank s = true → PyStr.blank (s +:+ t) = PyStr.blank t.
Proof.
  induction s as [s IH] using skip_space_ind. rewrite (blank_skip s).
  destruct (skip_space s) as [r|] eqn:Hr.
  - intros Hb. rewrite (blank_skip (s +:+ t)), (skip_space_app s r t Hr). by apply IH.
  - destruct s; [done|done].
Qed.

Lemma lstrip_split s : ∃ pre, s = pre +:+ PyStr.lstrip s ∧ PyStr.blank pre = true.
Proof.
  induction s as [s IH] using skip_space_ind. rewrite (lstrip_skip s).
  destruct (skip_space s) as [r|] eqn:Hr; [|by exists EmptyString].
  destruct (IH r eq_refl) as (pre & Hpre & Hb).
  destruct (skip_space_split s r Hr) as (w & Hs & Hw & _).
  exists (w +:+ pre). rewrite append_assoc, <- Hpre. split; [done|].
  rewrite blank_app; [done|]. by rewrite blank_skip, Hw.
Qed.

Lemma lstrip_blank s : PyStr.blank s = true → PyStr.lstrip s = EmptyString.
Proof.
  induction s as [s IH] using skip_space_ind.
  rewrite (blank_skip s), (lstrip_skip s).
  destruct (skip_space s) as [r|] eqn:Hr; [by apply IH|]. by destruct s.
Qed.

Lemma lstrip_clean s : skip_space (PyStr.lstrip s) = None.
Proof.
  induction s as [s IH] using skip_space_ind. rewrite (lstrip_skip s).
  destruct (skip_space s) as [r|] eqn:Hr; [by apply IH|done].
Qed.

Lemma lstrip_fixed s : skip_space s = None → PyStr.lstrip s = s.
Proof. intros Hs. by rewrite lstrip_skip, Hs. Qed.

Lemma rstrip_split s : ∃ post, s = PyStr.rstrip s +:+ post ∧ PyStr.blank post = true.
Proof.
  induction s as [|a s (post & Hs & Hpost)]; [by exists EmptyString|].
  cbn [PyStr.rstrip]. destruct (PyStr.blank (String a s)) eqn:Hb.
  - by exists (String a s).
  - exists post. split; [|done]. rewrite append_cons. by rewrite <- Hs.
Qed.

Lemma rstrip_blank s : PyStr.rstrip s = EmptyString ↔ PyStr.blank s = true.
Proof.
  destruct s as [|a s]; [done|]. cbn [PyStr.rstrip].
  by destruct (PyStr.blank (String a s)).
Qed.

Lemma blank_rstrip s : PyStr.blank (PyStr.rstrip s) = true → PyStr.blank s = true.
Proof.
  intros Hb. destruct (rstrip_split s) as (post & Hs & Hpost).
  rewrite Hs, blank_app; done.
Qed.

Lemma rstrip_idemp s : PyStr.rstrip (PyStr.rstrip s) = PyStr.rstrip s.
Proof.
  induction s as [|a s IH]; [done|].
  cbn [PyStr.rstrip]. destruct (PyStr.blank (String a s)) eqn:Hb; [done|].
  cbn [PyStr.rstrip]. rewrite IH.
  destruct (PyStr.blank (String a (PyStr.rstrip s))) eqn:Hb'; [|done].
  assert (PyStr.blank (PyStr.rstrip (String a s)) = true) as Hr.
  { cbn [PyStr.rstrip]. by rewrite Hb. }
  apply blank_rstrip in Hr. congruence.
Qed.

(** Trimming on the right leaves the head of the string as it is. *)
Lemma rstrip_clean s : skip_space s = None → skip_space (PyStr.rstrip s) = None.
Proof.
  intros Hs. destruct (skip_space (PyStr.rstrip s)) as [r|] eqn:Hr; [|done].
  destruct (rstrip_split s) as (post & Heq & _).
  apply (skip_space_app _ _ post) in Hr. rewrite <- Heq in Hr. congruence.
Qed.

Lemma strip_idemp s : PyStr.strip (PyStr.strip s) = PyStr.strip s.
Proof.
  unfold PyStr.strip.
  rewrite (lstrip_fixed (PyStr.rstrip (PyStr.lstrip s)))
    by apply rstrip_clean, lstrip_clean.
  apply rstrip_idemp.
Qed.

Lemma strip_blank s : PyStr.strip s = EmptyString ↔ PyStr.blank s = true.
Proof.
  unfold PyStr.strip. rewrite rstrip_blank.
  destruct (lstrip_split s) as (pre & Hpre & Hb). split.
  - intros Hl. rewrite Hpre, blank_app; done.
  - intros Hs. by rewrite lstrip_blank.
Qed.

Lemma strip_split s :
  ∃ pre post, s = pre +:+ PyStr.strip s +:+ post
              ∧ PyStr.blank pre = true ∧ PyStr.blank post = true.
Proof.
  destruct (lstrip_split s) as (pre & Hpre & Hb).
  destruct (rstrip_split (PyStr.lstrip s)) as (post & Hpost & Hb').
  exists pre, post. unfold PyStr.strip. by rewrite <- Hpost.
Qed.

End PyStrFacts.

(** X1.  [sanitize_title] always returns a title that is not empty and has
    no white space at either end, and it leaves such a title as it is:
    sanitizing twice is sanitizing once. *)
Theorem sanitize_title_clean (title : option string) :
  let r := sanitize_title title in
  r ≠ EmptyString ∧ PyStr.strip r = r ∧ sanitize_title (Some r) = r.
Proof.
  assert (Hclean : ∀ r, r ≠ EmptyString → PyStr.strip r = r → sanitize_title (Some r) = r).
  { intros r Hr Hs. unfold sanitize_title. rewrite Hs.
    apply truthy_true in Hr. by rewrite Hr. }
  assert (Hdef : let r := "Untitled Task" in
                 r ≠ EmptyString ∧ PyStr.strip r = r ∧ sanitize_title (Some r) = r).
  { by vm_compute. }
  destruct title as [s|]; [|exact Hdef].
  unfold sanitize_title.
  destruct (truthy s && truthy (PyStr.strip s)) eqn:Ht; [|exact Hdef].
  apply andb_true_iff in Ht as [_ Ht]. apply truthy_true in Ht.
  cbv zeta. split; [done|]. split; [apply PyStrFacts.strip_idemp|].
  apply Hclean; [done|apply PyStrFacts.strip_idemp].
Qed.

(** X2.  A title is only trimmed: unless it is white space only, the
    result is the title without a prefix and a suffix of white space, the
    text between them untouched; a title of white space only, like a
    missing one, becomes the placeholder. *)
Theorem sanitize_title_trims (s : string) :
  if PyStr.blank s then sanitize_title (Some s) = "Untitled Task"
  else ∃ pre post, s = pre +:+ sanitize_title (Some s) +:+ post
                   ∧ PyStr.blank pre = true ∧ PyStr.blank post = true.
Proof.
  unfold sanitize_title. destruct (PyStr.blank s) eqn:Hb.
  - apply PyStrFacts.strip_blank in Hb. rewrite Hb. simpl. by rewrite andb_false_r.
  - assert (Hs : PyStr.strip s ≠ EmptyString).
    { intros Hs. apply PyStrFacts.strip_blank in Hs. congruence. }
    assert (Hne : s ≠ EmptyString) by (by intros ->).
    apply truthy_true in Hs, Hne. rewrite Hs, Hne. simpl.
    apply PyStrFacts.strip_split.
Qed.
(** Titles with white space that is not ASCII: a no-break space before
    the text, a title that is one no-break space, an ideographic space
    and an em space around the text, and a title in another script. *)
Example sanitize_title_unicode :
  sanitize_title (Some (MoreSamples.utf8 [194; 160] +:+ "Task")) = "Task"
  ∧ sanitize_title (Some (MoreSamples.utf8 [194; 160])) = "Untitled Task"
  ∧ sanitize_title
      (Some (MoreSamples.utf8 [227; 128; 128] +:+ "Task"
             +:+ MoreSamples.utf8 [226; 128; 131]))
    = "Task"
  ∧ sanitize_title (Some (MoreSamples.utf8 [32; 227; 129; 130; 32]))
    = MoreSamples.utf8 [227; 129; 130].
Proof. repeat split; vm_compute; reflexivity. Qed.

(** ** Timestamps *)

Module SplitFacts.
Import PyStrFacts.

Lemma contains_app c s t :
  PyStr.contains c (s +:+ t) = PyStr.contains c s || PyStr.contains c t.
Proof.
  induction s as [|a s IH]; [done|]. rewrite append_cons. simpl.
  by destruct (decide (a = c)).
Qed.

Lemma contains_cons c s : PyStr.contains c (String c s) = true.
Proof. simpl. by rewrite decide_True. Qed.

Lemma lacks_app c s t : lacks c (s +:+ t) ↔ lacks c s ∧ lacks c t.
Proof. unfold lacks. rewrite contains_app. apply orb_false_iff. Qed.

Lemma split_lacks c s : lacks c s → PyStr.split c s = [s].
Proof.
  unfold lacks. induction s as [|a s IH]; simpl; [done|].
  destruct (decide (a = c)); [done|]. intros Hs. by rewrite IH.
Qed.

Lemma split_length c s : 0 < length (PyStr.split c s).
Proof.
  induction s as [|a s IH]; simpl; [lia|].
  destruct (decide (a = c)); simpl; [lia|].
  destruct (PyStr.split c s); simpl; lia.
Qed.

Lemma split_app c s t :
  PyStr.split c (s +:+ String c t) = PyStr.split c s ++ PyStr.split c t.
Proof.
  induction s as [|a s IH].
  - rewrite append_nil_l. simpl. by rewrite decide_True.
  - rewrite append_cons. simpl. destruct (decide (a = c)); [by rewrite IH|].
    rewrite IH. pose proof (split_length c s).
    destruct (PyStr.split c s); [simpl in *; lia|done].
Qed.

(** The first part of a split: the text before the first separator. *)
Lemma split_head c s r :
  head (PyStr.split c s) = Some r
  ↔ lacks c r ∧ (s = r ∨ ∃ rest, s = r +:+ String c rest).
Proof.
  unfold lacks. revert r. induction s as [|a s IH]; intros r; simpl.
  - split.
    + intros [= <-]. by split; [|left].
    + intros [Hr [<-|(rest & Hs)]]; [done|].
      destruct r; by rewrite ?append_nil_l, ?append_cons in Hs.
  - destruct (decide (a = c)) as [->|Hac]; simpl.
    + split.
      * intros [= <-]. split; [done|]. right. by exists s.
      * intros [Hr [<-|(rest & Hs)]].
        -- simpl in Hr. by rewrite decide_True in Hr.
        -- destruct r as [|b r]; [done|]. rewrite append_cons in Hs.
           injection Hs as <- _. simpl in Hr. by rewrite decide_True in Hr.
    + pose proof (split_length c s) as Hlen.
      destruct (PyStr.split c s) as [|p ps] eqn:Hsp; [simpl in Hlen; lia|].
      simpl. split.
      * intros [= <-]. destruct (proj1 (IH p) eq_refl) as [Hp Hs].
        split; [simpl; by rewrite decide_False|].
        destruct Hs as [->|(rest & ->)]; [by left|]. right. by exists rest.
      * intros [Hr [<-|(rest & Hs)]].
        -- simpl in Hr. rewrite decide_False in Hr by done.
           f_equal. f_equal. apply (inj Some). apply IH. split; [done|by left].
        -- destruct r as [|b r].
           ++ rewrite append_nil_l in Hs. by injection Hs as -> _.
           ++ rewrite append_cons in Hs. injection Hs as <- ->.
              simpl in Hr. rewrite decide_False in Hr by done.
              f_equal. f_equal. apply (inj Some). apply IH. split; [done|].
              right. by exists rest.
Qed.

Lemma rsplit1_lacks c s : lacks c s → PyStr.rsplit1 c s = None.
Proof.
  unfold lacks. induction s as [|a s IH]; simpl; [done|].
  destruct (decide (a = c)); [done|]. intros Hs. by rewrite IH.
Qed.

Lemma rsplit1_last c s t :
  lacks c t → PyStr.rsplit1 c (s +:+ String c t) = Some (s, t).
Proof.
  intros Ht. induction s as [|a s IH].
  - rewrite append_nil_l. simpl. rewrite rsplit1_lacks by done. by rewrite decide_True.
  - rewrite append_cons. simpl. by rewrite IH.
Qed.

Lemma replace_Z_app s t :
  PyStr.replace_Z (s +:+ t) = PyStr.replace_Z s +:+ PyStr.replace_Z t.
Proof.
  induction s as [|a s IH]; [done|]. rewrite append_cons. simpl.
  destruct (decide (a = "Z"%char)).
  - by rewrite IH, append_assoc.
  - by rewrite IH.
Qed.

Lemma replace_Z_lacks s : lacks "Z" s → PyStr.replace_Z s = s.
Proof.
  unfold lacks. induction s as [|a s IH]; simpl; [done|].
  destruct (decide (a = "Z"%char)); [done|]. intros Hs. by rewrite IH.
Qed.

Lemma replace_Z_clean s : lacks "Z" (PyStr.replace_Z s).
Proof.
  induction s as [|a s IH]; simpl; [done|].
  destruct (decide (a = "Z"%char)).
  - apply lacks_app. split; [done|exact IH].
  - unfold lacks. simpl. by rewrite decide_False.
Qed.

Lemma replace_Z_truthy s : truthy (PyStr.replace_Z s) = truthy s.
Proof. destruct s as [|a s]; simpl; [done|]. by destruct (decide (a = "Z"%char)). Qed.

End SplitFacts.

(** X3.  What the retry of [parse_iso_to_unix_ms] parses when the text has
    one period: the text before the period followed by the offset that
    comes after a plus sign; after a minus sign the offset is kept only
    if it holds a colon, and is dropped otherwise; without a sign only the
    text before the period is left. *)
Theorem strip_fraction_spec (base frac tz : string) :
  lacks "." base → lacks "." frac → lacks "." tz →
  lacks "+" frac → lacks "+" tz →
  strip_fraction (base +:+ "." +:+ frac +:+ "+" +:+ tz) = Some (base +:+ "+" +:+ tz)
  ∧ (lacks "-" tz →
     strip_fraction (base +:+ "." +:+ frac +:+ "-" +:+ tz)
     = Some (if PyStr.contains ":" tz then base +:+ "-" +:+ tz else base))
  ∧ (lacks "-" frac → strip_fraction (base +:+ "." +:+ frac) = Some base).
Proof.
  intros Hb Hf Ht Hpf Hpt.
  assert (Hsplit : ∀ rest, lacks "." rest →
            PyStr.contains "." (base +:+ "." +:+ rest) = true
            ∧ PyStr.split "." (base +:+ "." +:+ rest) = [base; rest]).
  { intros rest Hrest. split.
    - rewrite SplitFacts.contains_app. simpl. apply orb_true_r.
    - change ("." +:+ rest) with (String "." rest).
      rewrite SplitFacts.split_app, !SplitFacts.split_lacks by done. done. }
  repeat split.
  - destruct (Hsplit (frac +:+ "+" +:+ tz)) as [Hc Hs].
    { apply SplitFacts.lacks_app. split; [done|]. apply SplitFacts.lacks_app. by split. }
    unfold strip_fraction. rewrite Hc, Hs.
    rewrite SplitFacts.contains_app. simpl. rewrite orb_true_r.
    change ("+" +:+ tz) with (String "+" tz).
    rewrite SplitFacts.split_app, !SplitFacts.split_lacks by done. done.
  - intros Hmt.
    destruct (Hsplit (frac +:+ "-" +:+ tz)) as [Hc Hs].
    { apply SplitFacts.lacks_app. split; [done|]. apply SplitFacts.lacks_app. by split. }
    unfold strip_fraction. rewrite Hc, Hs.
    rewrite !SplitFacts.contains_app. rewrite Hpf, Hpt. simpl. rewrite orb_true_r.
    change ("-" +:+ tz) with (String "-" tz).
    rewrite SplitFacts.rsplit1_last by done. by destruct (PyStr.contains ":" tz).
  - intros Hmf. destruct (Hsplit frac Hf) as [Hc Hs].
    unfold strip_fraction. rewrite Hc, Hs, Hpf, Hmf. done.
Qed.

Lemma strip_fraction_spec_witness :
  strip_fraction "2020-10-10T03:46:42.098751+00:00" = Some "2020-10-10T03:46:42+00:00"
  ∧ strip_fraction "2020-10-10T03:46:42.098751-0500" = Some "2020-10-10T03:46:42"
  ∧ strip_fraction "2020-10-10T03:46:42.098751" = Some "2020-10-10T03:46:42".
Proof.
  pose proof (strip_fraction_spec "2020-10-10T03:46:42" "098751" "00:00"
                eq_refl eq_refl eq_refl eq_refl eq_refl) as (H1 & _ & H3).
  pose proof (strip_fraction_spec "2020-10-10T03:46:42" "098751" "0500"
                eq_refl eq_refl eq_refl eq_refl eq_refl) as (_ & H2 & _).
  split; [exact H1|]. split; [exact (H2 eq_refl)|exact (H3 eq_refl)].
Defined.

(** X4.  A timestamp the runtime rejects at the first attempt yields no
    value when it has no period (the retry parses the same text) and when
    it has more than one (the retry is given up). *)
Theorem parse_iso_gives_up (rt : runtime) (s : string) :
  fromisoformat_ms rt (PyStr.replace_Z s) = None →
  lacks "." s ∨ (∃ a b c, s = a +:+ "." +:+ b +:+ "." +:+ c) →
  parse_iso_to_unix_ms rt (Some s) = None.
Proof.
  intros Hfail Hs. unfold parse_iso_to_unix_ms.
  destruct (truthy s); [|done]. rewrite Hfail.
  destruct Hs as [Hs|(a & b & c & ->)].
  - assert (Hl : lacks "." (PyStr.replace_Z s)).
    { clear Hfail. induction s as [|x s IH]; [done|]. simpl.
      unfold lacks in Hs. simpl in Hs. destruct (decide (x = "."%char)); [done|].
      destruct (decide (x = "Z"%char)).
      - apply SplitFacts.lacks_app. split; [done|by apply IH].
      - unfold lacks. simpl. rewrite decide_False by done. by apply IH. }
    unfold strip_fraction. rewrite Hl. simpl. exact Hfail.
  - unfold strip_fraction.
    rewrite !SplitFacts.replace_Z_app.
    change (PyStr.replace_Z ".") with ".".
    set (a' := PyStr.replace_Z a). set (b' := PyStr.replace_Z b).
    set (c' := PyStr.replace_Z c).
    rewrite SplitFacts.contains_app. simpl. rewrite orb_true_r.
    change ("." +:+ b' +:+ "." +:+ c') with (String "." (b' +:+ String "." c')).
    rewrite !SplitFacts.split_app.
    pose proof (SplitFacts.split_length "." a').
    pose proof (SplitFacts.split_length "." b').
    pose proof (SplitFacts.split_length "." c').
    destruct (PyStr.split "." a') as [|a1 [|a2 la]]; simpl in *; [lia| |].
    + destruct (PyStr.split "." b') as [|b1 lb]; simpl in *; [lia|].
      destruct (lb ++ PyStr.split "." c') as [|x l] eqn:Hl; [|done].
      apply app_eq_nil in Hl as [_ Hl]. rewrite Hl in *. simpl in *. lia.
    + destruct (la ++ PyStr.split "." b' ++ PyStr.split "." c') as [|x l] eqn:Hl; [|done].
      apply app_eq_nil in Hl as [_ Hl]. apply app_eq_nil in Hl as [Hl _].
      rewrite Hl in *. simpl in *. lia.
Qed.

Lemma parse_iso_gives_up_witness :
  parse_iso_to_unix_ms Reference.rt (Some "yesterday") = None
  ∧ parse_iso_to_unix_ms Reference.rt (Some "2020.10.10") = None.
Proof.
  split.
  - apply parse_iso_gives_up; [done|by left].
  - apply parse_iso_gives_up; [done|]. right. by exists "2020", "10", "10".
Defined.

(** X5.  Every [Z] of a timestamp, wherever it stands, is read as the
    offset [+00:00]: a timestamp written with [Z] and the same text
    written with [+00:00] give the same result. *)
Theorem parse_iso_reads_Z_as_utc (rt : runtime) (s : string) :
  parse_iso_to_unix_ms rt (Some s) = parse_iso_to_unix_ms rt (Some (PyStr.replace_Z s)).
Proof.
  unfold parse_iso_to_unix_ms. rewrite SplitFacts.replace_Z_truthy.
  by rewrite (SplitFacts.replace_Z_lacks (PyStr.replace_Z s))
    by apply SplitFacts.replace_Z_clean.
Qed.

(** X6.  The timestamp the docstring gives as example: with fractional
    seconds and a final [Z].  When the runtime rejects it as it stands, the
    result is that of the same instant without the fraction, at offset
    [+00:00]. *)
Theorem parse_iso_drops_fraction (rt : runtime) (base frac : string) :
  lacks "." base → lacks "Z" base →
  lacks "." frac → lacks "Z" frac → lacks "+" frac →
  fromisoformat_ms rt (base +:+ "." +:+ frac +:+ "+00:00") = None →
  parse_iso_to_unix_ms rt (Some (base +:+ "." +:+ frac +:+ "Z"))
  = fromisoformat_ms rt (base +:+ "+00:00").
Proof.
  intros Hb HbZ Hf HfZ Hpf Hfail. unfold parse_iso_to_unix_ms.
  assert (Ht : truthy (base +:+ "." +:+ frac +:+ "Z") = true).
  { apply truthy_true. destruct base; by rewrite ?PyStrFacts.append_nil_l, ?PyStrFacts.append_cons. }
  rewrite Ht. rewrite !SplitFacts.replace_Z_app.
  rewrite (SplitFacts.replace_Z_lacks base), (SplitFacts.replace_Z_lacks frac) by done.
  change (PyStr.replace_Z ".") with ".". change (PyStr.replace_Z "Z") with "+00:00".
  rewrite Hfail.
  destruct (strip_fraction_spec base frac "00:00" Hb Hf eq_refl Hpf eq_refl) as [Hs _].
  change ("+" +:+ "00:00") with "+00:00" in Hs. rewrite Hs. done.
Qed.

Lemma parse_iso_drops_fraction_witness :
  parse_iso_to_unix_ms Reference.rt (Some "2020-10-10T03:46:42.09875Z")
  = Some 1602301602000%Z.
Proof.
  exact (parse_iso_drops_fraction Reference.rt "2020-10-10T03:46:42" "09875"
           eq_refl eq_refl eq_refl eq_refl eq_refl eq_refl).
Defined.

(** X7.  [parse_iso_to_date_string] returns the text before the first
    [T], and only if the runtime accepts that text as a date; what
    follows the [T] is never looked at. *)
Theorem date_string_is_date_part (rt : runtime) (s r : string) :
  parse_iso_to_date_string rt (Some s) = Some r
  ↔ s ≠ EmptyString ∧ strptime_ymd rt r = true ∧ lacks "T" r
    ∧ (s = r ∨ ∃ rest, s = r +:+ "T" +:+ rest).
Proof.
  unfold parse_iso_to_date_string.
  pose proof (SplitFacts.split_head "T" s) as Hhead.
  pose proof (SplitFacts.split_length "T" s) as Hlen.
  destruct (truthy s) eqn:Ht.
  - apply truthy_true in Ht.
    destruct (PyStr.split "T" s) as [|d l]; [simpl in Hlen; lia|]. simpl in Hhead.
    split.
    + destruct (strptime_ymd rt d) eqn:Hd; [|done]. intros [= <-].
      destruct (proj1 (Hhead d) eq_refl) as [Hl Hs]. done.
    + intros (_ & Hr & Hl & Hs).
      assert (Some d = Some r) as [= ->] by (by apply Hhead).
      by rewrite Hr.
  - apply truthy_false in Ht. split; [done|]. by intros [? _].
Qed.

(** ** The second pass on any table *)

Section SecondPassAny.
Context (id_mapping : gmap string string).

#[local] Abbreviation step := (link_subtask id_mapping).

Lemma update_id {V} k (f : V → V) (d : pydict V) :
  (∀ v, PyDict.get k d = Some v → f v = v) → PyDict.update k f d = d.
Proof.
  induction d as [|[k' v'] d IH]; simpl; [done|]. intros Hf.
  destruct (decide (k' = k)).
  - by rewrite Hf.
  - by rewrite IH.
Qed.

Lemma update_Forall2 {V} (R : V → V → Prop) k (f : V → V) (d : pydict V) :
  (∀ v, R v v) → (∀ v, PyDict.get k d = Some v → R v (f v)) →
  Forall2 (λ kv kv', kv.1 = kv'.1 ∧ R kv.2 kv'.2) d (PyDict.update k f d).
Proof.
  intros Hrefl. induction d as [|[k' v'] d IH]; simpl; [constructor|]. intros Hf.
  destruct (decide (k' = k)).
  - constructor; [by split; [|apply Hf]|]. apply Forall2_same_length_lookup_2; [done|].
    intros i x y Hx Hy. assert (x = y) as -> by congruence. done.
  - constructor; [done|]. by apply IH.
Qed.

Lemma only_linked_refl keys t : only_linked keys t t.
Proof.
  unfold only_linked. repeat split; try done; [by left|].
  exists []. by rewrite app_nil_r.
Qed.

Lemma only_linked_trans keys t1 t2 t3 :
  only_linked keys t1 t2 → only_linked keys t2 t3 → only_linked keys t1 t3.
Proof.
  unfold only_linked.
  intros (?&?&?&?&?&?&?&?&?&?& Hp & l & Hl & Hk) (?&?&?&?&?&?&?&?&?&?& Hp' & l' & Hl' & Hk').
  repeat split; try congruence.
  - destruct Hp' as [Hp'|Hp']; [|by right]. rewrite Hp'. done.
  - exists (l ++ l'). split; [by rewrite Hl', Hl, app_assoc|]. by apply Forall_app.
Qed.

Lemma only_linked_Forall2_refl keys (d : pydict sp_task) :
  Forall2 (λ kv kv', kv.1 = kv'.1 ∧ only_linked keys kv.2 kv'.2) d d.
Proof.
  apply Forall2_same_length_lookup_2; [done|].
  intros i x y Hx Hy. assert (x = y) as -> by congruence.
  split; [done|apply only_linked_refl].
Qed.

Lemma only_linked_Forall2_trans keys (d0 d1 d2 : pydict sp_task) :
  Forall2 (λ kv kv', kv.1 = kv'.1 ∧ only_linked keys kv.2 kv'.2) d0 d1 →
  Forall2 (λ kv kv', kv.1 = kv'.1 ∧ only_linked keys kv.2 kv'.2) d1 d2 →
  Forall2 (λ kv kv', kv.1 = kv'.1 ∧ only_linked keys kv.2 kv'.2) d0 d2.
Proof.
  intros H1. revert d2.
  induction H1 as [|kv kv' d0 d1 [Hk Ho] _ IH]; intros d2 H2.
  - by inversion H2.
  - inversion H2 as [|? kv'' ? d2' [Hk' Ho'] H2']; subst. constructor.
    + split; [congruence|]. by eapply only_linked_trans.
    + by apply IH.
Qed.

Lemma step_keys acc e : (step acc e).1.*1 = acc.1.*1.
Proof.
  unfold link_subtask. destruct (declared_parent e.2); [|done].
  destruct (negb (PyDict.mem e.1 acc.1)); [done|].
  destruct (id_mapping !! s) as [x|]; [|done].
  destruct (truthy x && PyDict.mem x acc.1); [|done]. simpl.
  match goal with |- context [if ?b then _ else _] => destruct b end;
    by rewrite ?PyDictFacts.keys_update.
Qed.

(** One iteration changes entities by linking only. *)
Lemma step_only_linked acc e :
  Forall2 (λ kv kv', kv.1 = kv'.1 ∧ only_linked acc.1.*1 kv.2 kv'.2)
    acc.1 (step acc e).1.
Proof.
  pose proof (only_linked_Forall2_refl acc.1.*1 acc.1) as Hrefl.
  unfold link_subtask. destruct (declared_parent e.2) as [p|]; [|done].
  destruct (negb (PyDict.mem e.1 acc.1)) eqn:Hmem; [done|].
  destruct (id_mapping !! p) as [x|]; [|done].
  destruct (truthy x && PyDict.mem x acc.1) eqn:Hx; [|done]. simpl.
  apply andb_true_iff in Hx as [Hx Hin].
  apply truthy_true in Hx. apply PyDictFacts.mem_true in Hin.
  apply negb_false_iff, PyDictFacts.mem_true in Hmem.
  set (tasks1 := PyDict.update e.1 (set_parentId x) acc.1).
  assert (H1 : Forall2 (λ kv kv' : string * sp_task,
                  kv.1 = kv'.1 ∧ only_linked acc.1.*1 kv.2 kv'.2) acc.1 tasks1).
  { apply update_Forall2; [apply only_linked_refl|]. intros v _.
    unfold only_linked. simpl. repeat split; try done; [right; by exists x|].
    exists []. by rewrite app_nil_r. }
  match goal with |- context [if ?b then _ else _] => destruct b end; [done|].
  assert (H2 : Forall2 (λ kv kv' : string * sp_task,
                  kv.1 = kv'.1 ∧ only_linked acc.1.*1 kv.2 kv'.2) tasks1
                 (PyDict.update x (append_subTaskId e.1) tasks1)).
  { apply update_Forall2; [apply only_linked_refl|]. intros v _.
    unfold only_linked. simpl. repeat split; try done; [by left|].
    exists [e.1]. split; [done|]. by apply Forall_singleton. }
  by eapply only_linked_Forall2_trans.
Qed.

Lemma step_subtasks acc e c :
  c ∈ (step acc e).2 → c ∈ acc.2 ∨ (c = e.1 ∧ c ∈ acc.1.*1).
Proof.
  unfold link_subtask. destruct (declared_parent e.2) as [p|]; [|by left].
  destruct (negb (PyDict.mem e.1 acc.1)) eqn:Hmem; [by left|].
  destruct (id_mapping !! p) as [x|]; [|by left].
  destruct (truthy x && PyDict.mem x acc.1); [|by left]. simpl.
  apply negb_false_iff, PyDictFacts.mem_true in Hmem.
  intros [->%elem_of_singleton|Hc]%elem_of_union; [by right|by left].
Qed.

Lemma build_only_linked (tasks : pydict sp_task)
    (task_id_to_original : pydict gtask) :
  let r := build_subtask_relationships tasks id_mapping task_id_to_original in
  Forall2 (λ kv kv', kv.1 = kv'.1 ∧ only_linked tasks.*1 kv.2 kv'.2) tasks r.1
  ∧ ∀ c, c ∈ r.2 → c ∈ tasks.*1.
Proof.
  unfold build_subtask_relationships.
  assert (Hgen : ∀ entries (acc : pydict sp_task * gset string),
            acc.1.*1 = tasks.*1 →
            Forall2 (λ kv kv', kv.1 = kv'.1 ∧ only_linked tasks.*1 kv.2 kv'.2) tasks acc.1 →
            (∀ c, c ∈ acc.2 → c ∈ tasks.*1) →
            let r := foldl step acc entries in
            Forall2 (λ kv kv', kv.1 = kv'.1 ∧ only_linked tasks.*1 kv.2 kv'.2) tasks r.1
            ∧ ∀ c, c ∈ r.2 → c ∈ tasks.*1).
  { induction entries as [|e entries IH]; intros acc Hkeys Hrel Hsub; simpl; [done|].
    apply IH.
    - by rewrite step_keys.
    - pose proof (step_only_linked acc e) as Hstep. rewrite Hkeys in Hstep.
      by eapply only_linked_Forall2_trans.
    - intros c [Hc|[_ Hc]]%step_subtasks; [by apply Hsub|]. by rewrite <- Hkeys. }
  apply Hgen; [done|apply only_linked_Forall2_refl|set_solver].
Qed.

(** X8.  Whatever it is given, [build_subtask_relationships] adds, removes
    and reorders no task; of an entity it changes at most [parentId],
    which it sets to the key of a task, and [subTaskIds], to which it
    appends keys of tasks; and the identifiers it returns are keys of
    tasks. *)
Theorem second_pass_only_links (tasks : pydict sp_task)
    (task_id_to_original : pydict gtask) :
  let r := build_subtask_relationships tasks id_mapping task_id_to_original in
  Forall2 (λ kv kv', kv.1 = kv'.1 ∧ only_linked tasks.*1 kv.2 kv'.2) tasks r.1
  ∧ ∀ c, c ∈ r.2 → c ∈ tasks.*1.
Proof. apply build_only_linked. Qed.

(** *** Running the pass again *)

(** The parent the pass finds for an entry depends on the keys only. *)
Lemma linked_parent_keys (tasks tasks' : pydict sp_task) g :
  tasks'.*1 = tasks.*1 →
  linked_parent id_mapping tasks' g = linked_parent id_mapping tasks g.
Proof.
  intros Hk. unfold linked_parent.
  destruct (declared_parent g) as [p|]; [|done]. simpl.
  destruct (id_mapping !! p) as [x|]; [|done]. simpl.
  assert (PyDict.mem x tasks' = PyDict.mem x tasks) as ->; [|done].
  destruct (PyDict.mem x tasks) eqn:Hm.
  - apply PyDictFacts.mem_true. rewrite Hk. by apply PyDictFacts.mem_true.
  - apply PyDictFacts.mem_false. rewrite Hk. by apply PyDictFacts.mem_false.
Qed.

(** One iteration, in terms of [linked_parent]. *)
Lemma step_unfold acc e :
  step acc e =
    if PyDict.mem e.1 acc.1 then
      match linked_parent id_mapping acc.1 e.2 with
      | Some x =>
          let tasks1 := PyDict.update e.1 (set_parentId x) acc.1 in
          let listed := match PyDict.get x tasks1 with
                        | Some parent => bool_decide (e.1 ∈ t_subTaskIds parent)
                        | None => false
                        end in
          (if listed then tasks1
           else PyDict.update x (append_subTaskId e.1) tasks1, {[e.1]} ∪ acc.2)
      | None => acc
      end
    else acc.
Proof.
  unfold link_subtask, linked_parent.
  destruct (declared_parent e.2) as [p|]; simpl; [|by destruct (PyDict.mem e.1 acc.1)].
  destruct (PyDict.mem e.1 acc.1); simpl; [|done].
  destruct (id_mapping !! p) as [x|]; simpl; [|done].
  by destruct (truthy x && PyDict.mem x acc.1).
Qed.

#[local] Abbreviation settled := (settled id_mapping).

Lemma linked_parent_mem tasks g x :
  linked_parent id_mapping tasks g = Some x → is_Some (PyDict.get x tasks).
Proof.
  unfold linked_parent. destruct (declared_parent g) as [p|]; [|done]. simpl.
  destruct (id_mapping !! p) as [y|]; [|done]. simpl.
  destruct (truthy y && PyDict.mem y tasks) eqn:Hy; [|done]. intros [= ->].
  apply andb_true_iff in Hy as [_ Hy].
  apply PyDictFacts.get_is_Some. by apply PyDictFacts.mem_true.
Qed.

Lemma step_settles acc e : settled (step acc e).1 e.
Proof.
  intros Hmem x Hx.
  rewrite (linked_parent_keys acc.1) in Hx by apply step_keys.
  assert (Hmem' : PyDict.mem e.1 acc.1 = true).
  { apply PyDictFacts.mem_true. rewrite <- (step_keys acc e).
    by apply PyDictFacts.mem_true. }
  rewrite step_unfold, Hmem', Hx. cbv zeta.
  apply PyDictFacts.mem_true, PyDictFacts.get_is_Some in Hmem' as [t Ht].
  destruct (linked_parent_mem _ _ _ Hx) as [tx Htx].
  set (tasks1 := PyDict.update e.1 (set_parentId x) acc.1).
  assert (H1 : PyDict.get e.1 tasks1 = Some (set_parentId x t)).
  { unfold tasks1. rewrite PyDictFacts.get_update, decide_True by done. by rewrite Ht. }
  assert (Hx1 : ∃ tx1, PyDict.get x tasks1 = Some tx1).
  { unfold tasks1. rewrite PyDictFacts.get_update.
    destruct (decide (e.1 = x)); [rewrite Ht|rewrite Htx]; by eexists. }
  destruct Hx1 as [tx1 Hx1]. rewrite Hx1.
  destruct (bool_decide (e.1 ∈ t_subTaskIds tx1)) eqn:Hl; cbn [fst].
  - apply bool_decide_eq_true in Hl. split; [by eexists|]. by exists tx1.
  - rewrite !PyDictFacts.get_update, Hx1, H1. simpl. split.
    + destruct (decide (x = e.1)) as [Heq|]; [|by eexists].
      rewrite Heq, H1 in Hx1. injection Hx1 as <-. by eexists.
    + rewrite decide_True by done. eexists. split; [done|]. simpl.
      apply elem_of_app. right. by apply list_elem_of_singleton.
Qed.

Lemma step_keeps_settled acc e e' :
  e'.1 ≠ e.1 → settled acc.1 e' → settled (step acc e).1 e'.
Proof.
  intros Hne Hs Hmem x Hx.
  rewrite (linked_parent_keys acc.1) in Hx by apply step_keys.
  assert (Hmem' : PyDict.mem e'.1 acc.1 = true).
  { apply PyDictFacts.mem_true. rewrite <- (step_keys acc e).
    by apply PyDictFacts.mem_true. }
  destruct (Hs Hmem' x Hx) as [(t & Ht & Hp) (tx & Htx & Hc)].
  rewrite step_unfold. destruct (PyDict.mem e.1 acc.1); [|by split; eexists].
  destruct (linked_parent id_mapping acc.1 e.2) as [y|]; [|by split; eexists].
  cbv zeta.
  set (tasks1 := PyDict.update e.1 (set_parentId y) acc.1).
  assert (H1 : PyDict.get e'.1 tasks1 = Some t).
  { unfold tasks1. by rewrite PyDictFacts.get_update, decide_False. }
  assert (Hx1 : ∃ tx1, PyDict.get x tasks1 = Some tx1 ∧ e'.1 ∈ t_subTaskIds tx1).
  { unfold tasks1. rewrite PyDictFacts.get_update.
    destruct (decide (e.1 = x)) as [->|]; [|by eexists].
    rewrite Htx. simpl. by eexists. }
  destruct Hx1 as (tx1 & Hx1 & Hc1).
  match goal with |- context [if ?b then _ else _] => destruct b end; cbn [fst].
  - split; by eexists.
  - rewrite !PyDictFacts.get_update. split.
    + destruct (decide (y = e'.1)) as [->|]; [|by eexists].
      rewrite H1. simpl. by eexists.
    + destruct (decide (y = x)) as [->|]; [|by eexists].
      rewrite Hx1. simpl. eexists. split; [done|]. simpl. apply elem_of_app. by left.
Qed.

Lemma step_settled acc e : settled acc.1 e → (step acc e).1 = acc.1.
Proof.
  intros Hs. rewrite step_unfold.
  destruct (PyDict.mem e.1 acc.1) eqn:Hmem; [|done].
  destruct (linked_parent id_mapping acc.1 e.2) as [x|] eqn:Hx; [|done].
  destruct (Hs Hmem x Hx) as [(t & Ht & Hp) (tx & Htx & Hc)]. cbv zeta.
  rewrite (update_id e.1).
  - rewrite Htx. by rewrite bool_decide_eq_true_2.
  - intros v Hv. assert (v = t) as -> by congruence.
    destruct t. simpl in *. by subst.
Qed.

(** The returned set depends on the keys only. *)
Lemma steps_subtasks entries acc acc' :
  acc'.1.*1 = acc.1.*1 → acc'.2 = acc.2 →
  (foldl step acc' entries).2 = (foldl step acc entries).2.
Proof.
  revert acc acc'. induction entries as [|e entries IH]; intros acc acc' Hk Hs; simpl; [done|].
  apply IH.
  - by rewrite !step_keys.
  - rewrite !step_unfold.
    assert (PyDict.mem e.1 acc'.1 = PyDict.mem e.1 acc.1) as ->.
    { destruct (PyDict.mem e.1 acc.1) eqn:Hm.
      - apply PyDictFacts.mem_true. rewrite Hk. by apply PyDictFacts.mem_true.
      - apply PyDictFacts.mem_false. rewrite Hk. by apply PyDictFacts.mem_false. }
    rewrite (linked_parent_keys acc.1 acc'.1) by done.
    destruct (PyDict.mem e.1 acc.1); [|done].
    destruct (linked_parent id_mapping acc.1 e.2); [|done]. simpl. by rewrite Hs.
Qed.

Lemma steps_keys entries acc : (foldl step acc entries).1.*1 = acc.1.*1.
Proof.
  revert acc. induction entries as [|e entries IH]; intros acc; simpl; [done|].
  by rewrite IH, step_keys.
Qed.

Lemma steps_settle rest seen acc :
  NoDup (seen ++ rest).*1 → Forall (settled acc.1) seen →
  Forall (settled (foldl step acc rest).1) (seen ++ rest).
Proof.
  revert seen acc. induction rest as [|e rest IH]; intros seen acc Hnd Hs; simpl.
  - by rewrite app_nil_r.
  - rewrite (cons_middle e), app_assoc. apply IH; [by rewrite <- app_assoc|].
    apply Forall_app. split; [|apply Forall_singleton, step_settles].
    apply Forall_forall. intros e' He'. apply step_keeps_settled.
    + rewrite fmap_app, fmap_cons in Hnd. apply NoDup_app in Hnd as (_ & Hnd & _).
      intros Heq. apply (Hnd e'.1); [by apply list_elem_of_fmap_2|].
      rewrite Heq. apply elem_of_cons. by left.
    + by apply (proj1 (Forall_forall _ _) Hs).
Qed.

Lemma steps_settled entries acc :
  Forall (settled acc.1) entries → (foldl step acc entries).1 = acc.1.
Proof.
  revert acc. induction entries as [|e entries IH]; intros acc Hs; simpl; [done|].
  apply Forall_cons in Hs as [He Hs].
  rewrite IH; [by apply step_settled|]. by rewrite step_settled.
Qed.

End SecondPassAny.

(** X9.  [build_subtask_relationships] is idempotent: run a second time
    on the table it has changed, it changes nothing more (no child is
    listed twice) and returns the same set.  The keys of
    [task_id_to_original], a dictionary, are distinct. *)
Theorem second_pass_idempotent (tasks : pydict sp_task)
    (id_mapping : gmap string string) (task_id_to_original : pydict gtask) :
  NoDup task_id_to_original.*1 →
  let r := build_subtask_relationships tasks id_mapping task_id_to_original in
  build_subtask_relationships r.1 id_mapping task_id_to_original = r.
Proof.
  intros Hnd r. unfold r, build_subtask_relationships.
  set (first := foldl (link_subtask id_mapping) (tasks, ∅) task_id_to_original).
  pose proof (steps_settle id_mapping task_id_to_original [] (tasks, ∅) Hnd
                (Forall_nil_2 _)) as Hs.
  simpl in Hs. fold first in Hs.
  apply injective_projections.
  - by rewrite (steps_settled id_mapping task_id_to_original (first.1, ∅)).
  - apply (steps_subtasks id_mapping task_id_to_original (tasks, ∅) (first.1, ∅));
      [|done].
    apply (steps_keys id_mapping task_id_to_original (tasks, ∅)).
Qed.

Lemma second_pass_idempotent_witness :
  let r := build_subtask_relationships MoreSamples.two_tasks
             MoreSamples.one_mapping MoreSamples.one_link in
  NoDup MoreSamples.one_link.*1
  ∧ build_subtask_relationships r.1 MoreSamples.one_mapping MoreSamples.one_link = r.
Proof.
  assert (Hnd : NoDup MoreSamples.one_link.*1) by (apply NoDup_singleton).
  split; [exact Hnd|].
  exact (second_pass_idempotent MoreSamples.two_tasks MoreSamples.one_mapping
           MoreSamples.one_link Hnd).
Defined.

(** X10.  The second pass confirms the first: when every [parentId] that
    is already there is the one [id_mapping] gives for the declared parent
    of the task, as the first pass leaves it, no such [parentId] is
    changed; the pass only fills in the missing ones. *)
Theorem second_pass_keeps_guesses (tasks : pydict sp_task)
    (id_mapping : gmap string string) (task_id_to_original : pydict gtask) :
  (∀ a g t x, (a, g) ∈ task_id_to_original → PyDict.get a tasks = Some t →
              t_parentId t = Some x →
              ∃ p, declared_parent g = Some p ∧ id_mapping !! p = Some x) →
  let r := build_subtask_relationships tasks id_mapping task_id_to_original in
  ∀ a t x, PyDict.get a tasks = Some t → t_parentId t = Some x →
           ∃ t', PyDict.get a r.1 = Some t' ∧ t_parentId t' = Some x.
Proof.
  intros Hguess r a t x Ht Hx. unfold r, build_subtask_relationships.
  assert (Hgen : ∀ entries (acc : pydict sp_task * gset string),
            (∀ g, (a, g) ∈ entries →
                  ∃ p, declared_parent g = Some p ∧ id_mapping !! p = Some x) →
            (∃ t', PyDict.get a acc.1 = Some t' ∧ t_parentId t' = Some x) →
            ∃ t', PyDict.get a (foldl (link_subtask id_mapping) acc entries).1 = Some t'
                  ∧ t_parentId t' = Some x).
  { induction entries as [|e entries IH]; intros acc Hent Hacc; simpl; [done|].
    apply IH; [intros g Hg; apply Hent, elem_of_cons; by right|].
    destruct Hacc as (t' & Ht' & Hx').
    rewrite step_unfold. destruct (PyDict.mem e.1 acc.1); [|by eexists].
    destruct (linked_parent id_mapping acc.1 e.2) as [y|] eqn:Hy; [|by eexists].
    cbv zeta.
    set (tasks1 := PyDict.update e.1 (set_parentId y) acc.1).
    assert (H1 : ∃ t1, PyDict.get a tasks1 = Some t1 ∧ t_parentId t1 = Some x).
    { unfold tasks1. rewrite PyDictFacts.get_update.
      destruct (decide (e.1 = a)) as [Hea|]; [|by eexists].
      rewrite Hea, Ht'. simpl. eexists. split; [done|]. simpl.
      destruct e as [a' g]. simpl in Hea. subst a'.
      destruct (Hent g) as (p & Hp & Hm); [apply elem_of_cons; by left|].
      unfold linked_parent in Hy. simpl in Hy. rewrite Hp in Hy. simpl in Hy.
      rewrite Hm in Hy. simpl in Hy.
      destruct (truthy x && PyDict.mem x acc.1); congruence. }
    destruct H1 as (t1 & Ht1 & Hx1).
    match goal with |- context [if ?b then _ else _] => destruct b end; cbn [fst].
    - by eexists.
    - rewrite PyDictFacts.get_update.
      destruct (decide (y = a)) as [->|]; [|by eexists].
      rewrite Ht1. simpl. by eexists. }
  apply Hgen; [|by exists t].
  intros g Hg. by apply (Hguess a g t x).
Qed.

Lemma second_pass_keeps_guesses_witness :
  let r := build_subtask_relationships MoreSamples.guessed_tasks
             MoreSamples.one_mapping MoreSamples.one_link in
  ∃ t', PyDict.get "c" r.1 = Some t' ∧ t_parentId t' = Some "p".
Proof.
  refine (second_pass_keeps_guesses MoreSamples.guessed_tasks
            MoreSamples.one_mapping MoreSamples.one_link
            _ "c" (set_parentId "p" (MoreSamples.plain_task "c")) "p" eq_refl eq_refl).
  intros a g t x Hin Ht Hx.
  apply list_elem_of_singleton in Hin. injection Hin as -> ->.
  injection Ht as <-. injection Hx as <-. by exists "P".
Defined.

(** ** The older conversion of one task *)

Lemma convert_task_dropped rt g project_id s :
  dropped g = true → convert_task rt g project_id s = (None, s).
Proof. unfold convert_task. by intros ->. Qed.

Lemma convert_task_Some rt g project_id s t s' :
  convert_task rt g project_id s = (Some t, s') →
  dropped g = false
  ∧ t_id t = default (uuid rt (ct_uuids s)) (ct_id_mapping s !! original_id g)
  ∧ ct_id_mapping s' =
      (if truthy (original_id g) then <[original_id g := t_id t]> (ct_id_mapping s)
       else ct_id_mapping s).
Proof.
  unfold convert_task. destruct (dropped g); [done|].
  intros [= <- <-]. done.
Qed.

(** X11.  [convert_task] keeps [id_mapping] a table of first assignments:
    a task whose original identifier is in the table takes the identifier
    found there, another one takes the identifier just drawn; afterwards
    the table maps the task's original identifier, unless it is empty, to
    the identifier of the task, and every other entry is as before.  A
    deleted or hidden task changes nothing. *)
Theorem convert_task_mapping (rt : runtime) (g : gtask) (project_id : string)
    (s : ct_state) :
  let r := convert_task rt g project_id s in
  if dropped g then r = (None, s)
  else ∃ t, r.1 = Some t
     ∧ t_id t = default (uuid rt (ct_uuids s)) (ct_id_mapping s !! original_id g)
     ∧ (original_id g ≠ EmptyString →
        ct_id_mapping r.2 !! original_id g = Some (t_id t))
     ∧ (∀ o, o ≠ original_id g ∨ o = EmptyString →
             ct_id_mapping r.2 !! o = ct_id_mapping s !! o)
     ∧ (∀ o x, ct_id_mapping s !! o = Some x → ct_id_mapping r.2 !! o = Some x).
Proof.
  cbv zeta. destruct (dropped g) eqn:Hd; [by apply convert_task_dropped|].
  unfold convert_task. rewrite Hd. eexists. split; [done|]. cbn [fst snd t_id ct_id_mapping].
  split; [done|]. split; [|split].
  - intros Ho. apply truthy_true in Ho. rewrite Ho. by rewrite lookup_insert_eq.
  - intros o Ho. destruct (truthy (original_id g)) eqn:Ht; [|done].
    apply truthy_true in Ht. rewrite lookup_insert_ne; [done|].
    destruct Ho as [Ho| ->]; congruence.
  - intros o x Hx. destruct (truthy (original_id g)); [|done].
    destruct (decide (original_id g = o)) as [<-|].
    + rewrite lookup_insert_eq, Hx. done.
    + by rewrite lookup_insert_ne.
Qed.

(** X12.  Two tasks that carry the same original identifier, converted one
    after the other by [convert_task], receive the same identifier: the
    second takes the one the first has left in [id_mapping]. *)
Theorem convert_task_reuses_identifier (rt : runtime) (g1 g2 : gtask)
    (project1 project2 : string) (s s1 s2 : ct_state) (t1 t2 : sp_task) :
  original_id g1 ≠ EmptyString → original_id g2 = original_id g1 →
  convert_task rt g1 project1 s = (Some t1, s1) →
  convert_task rt g2 project2 s1 = (Some t2, s2) →
  t_id t2 = t_id t1.
Proof.
  intros Hne Heq H1 H2.
  apply convert_task_Some in H1 as (_ & _ & Hm1).
  apply convert_task_Some in H2 as (_ & Hid2 & _).
  apply truthy_true in Hne. rewrite Hne in Hm1.
  by rewrite Hid2, Heq, Hm1, lookup_insert_eq.
Qed.

Lemma convert_task_reuses_identifier_witness :
  ∃ t1 t2 s1 s2,
    convert_task Reference.rt (Samples.task "SAME_ID" "Task One" None None)
      "project" (CtState 0 0 ∅) = (Some t1, s1)
    ∧ convert_task Reference.rt (Samples.task "SAME_ID" "Task Two" None None)
        "project" s1 = (Some t2, s2)
    ∧ t_id t2 = t_id t1.
Proof.
  eexists _, _, _, _. split; [reflexivity|]. split; [reflexivity|].
  eapply (convert_task_reuses_identifier Reference.rt
            (Samples.task "SAME_ID" "Task One" None None)
            (Samples.task "SAME_ID" "Task Two" None None));
    [done|reflexivity|reflexivity|reflexivity].
Defined.

(** ** The fields of the converted tasks *)

Section Payload.
Context (rt : runtime) (Hinj : Inj (=) (=) (uuid rt)).
Context (owner : nat * gtask → string → Prop).

#[local] Abbreviation pinv := (payload_inv rt owner).

Lemma eligible_tasks_one n g :
  eligible_tasks [(n, g)] = if dropped g then [] else [(n, g)].
Proof.
  unfold eligible_tasks, eligible. destruct (dropped g) eqn:Hd.
  - by rewrite filter_cons_False by (simpl; rewrite Hd; simpl; congruence).
  - by rewrite filter_cons_True by (simpl; by rewrite Hd).
Qed.

Lemma first_pass_length l n s :
  first_pass_inv rt l n s → length (cs_all_tasks s) = length (eligible_tasks l).
Proof. intros [_ _ _ Ht]. by eapply Forall2_length. Qed.

Lemma convert_item_payload project_id l n s ids g :
  first_pass_inv rt l n s → Forall (λ e, e.1 < n) l →
  pinv l s → owner (n, g) project_id →
  pinv (l ++ [(n, g)]) (convert_item rt project_id (s, ids) g).1.
Proof.
  intros Hinv Hlt [Hclock Hent] Hown.
  pose proof (first_pass_fresh rt Hinj _ _ _ Hinv Hlt) as Hfresh.
  pose proof (first_pass_length _ _ _ Hinv) as Hlen.
  destruct Hinv as [Hn _ _ _].
  unfold payload_inv, convert_item, convert_task_with_assigned_id. cbn [fst snd].
  rewrite Hn, eligible_tasks_app, eligible_tasks_one.
  destruct (dropped g) eqn:Hd; cbn [fst cs_clock cs_all_tasks t_id].
  - rewrite app_nil_r. by split.
  - rewrite length_app. simpl. split; [rewrite Hclock; lia|].
    rewrite PyDictFacts.set_fresh by done.
    intros i kt Hi. apply lookup_app_Some in Hi as [Hi|[Hge Hi]].
    + destruct (Hent i kt Hi) as (e & pid & He & Ho & Hk & Hf).
      exists e, pid. split; [|done]. by apply lookup_app_l_Some.
    + rewrite Hlen in Hge, Hi.
      destruct (i - length (eligible_tasks l)) as [|j] eqn:Hj; [|done].
      simpl in Hi. injection Hi as <-.
      assert (i = length (eligible_tasks l)) as -> by lia.
      exists (n, g), project_id. split.
      { rewrite lookup_app_r by done. by rewrite Nat.sub_diag. }
      split; [done|]. split; [done|].
      rewrite Hclock. unfold converted_fields. simpl. done.
Qed.

Lemma convert_items_payload project_id items l n s ids :
  first_pass_inv rt l n s → Forall (λ e, e.1 < n) l → pinv l s →
  (∀ e, e ∈ label_items n items → owner e project_id) →
  pinv (l ++ label_items n items)
    (foldl (convert_item rt project_id) (s, ids) items).1.
Proof.
  revert l n s ids. induction items as [|g items IH]; intros l n s ids Hinv Hlt Hp Hown; simpl.
  - by rewrite app_nil_r.
  - destruct (convert_item_inv rt Hinj project_id l n s ids g Hinv Hlt) as [Hinv' _].
    pose proof (convert_item_payload project_id l n s ids g Hinv Hlt Hp) as Hp'.
    destruct (convert_item rt project_id (s, ids) g) as [s' ids'] eqn:Hstep.
    rewrite (cons_middle (n, g)), app_assoc. apply IH.
    + exact Hinv'.
    + apply Forall_app. split; [|by repeat constructor].
      eapply Forall_impl; [done|]. simpl. lia.
    + apply Hp'. apply Hown. simpl. apply elem_of_cons. by left.
    + intros e He. apply Hown. simpl. apply elem_of_cons. by right.
Qed.

Lemma convert_task_list_payload l n s tl :
  first_pass_inv rt l n s → Forall (λ e, e.1 < n) l → pinv l s →
  (∀ e, e ∈ group_tasks (n, tl) → owner e (uuid rt n)) →
  pinv (l ++ group_tasks (n, tl)) (convert_task_list rt tl s).1.1.
Proof.
  intros Hinv Hlt Hp Hown. unfold convert_task_list. cbn [fst].
  destruct Hinv as [Hn Hmap Horig Htasks]. rewrite Hn.
  apply (convert_items_payload (uuid rt n) (items_of tl) l (S n)).
  - by split.
  - eapply Forall_impl; [done|]. simpl. lia.
  - exact Hp.
  - exact Hown.
Qed.

Lemma add_task_lists_payload lists grps n a :
  assembly_inv rt grps n a → labels_below n grps →
  pinv (grps ≫= group_tasks) (as_state a) →
  (∀ grp e, grp ∈ label_lists n lists → e ∈ group_tasks grp → owner e (uuid rt grp.1)) →
  pinv ((grps ++ label_lists n lists) ≫= group_tasks)
    (as_state (foldl (add_task_list rt) a lists)).
Proof.
  revert grps n a. induction lists as [|tl lists IH]; intros grps n a Hinv Hb Hp Hown; simpl.
  - by rewrite app_nil_r.
  - rewrite (cons_middle (n, tl)), app_assoc. apply IH.
    + by apply add_task_list_inv.
    + by apply labels_below_snoc.
    + rewrite bind_app. simpl. rewrite app_nil_r.
      destruct Hinv as [Hs _ _ _]. destruct Hb as [_ Hb].
      unfold add_task_list. cbn [as_state].
      apply convert_task_list_payload; [done..|].
      intros e He. apply (Hown (n, tl)); [|done]. simpl. apply elem_of_cons. by left.
    + intros grp e Hg He. apply (Hown grp); [|done]. simpl. apply elem_of_cons. by right.
Qed.

End Payload.

Section Fields.
Context (rt : runtime) (Hinj : Inj (=) (=) (uuid rt)).
Context (doc : google_tasks_data).

#[local] Abbreviation run := (run_conversion rt doc).
#[local] Abbreviation out := (cv_backup (run_conversion rt doc)).
#[local] Abbreviation L := (source_tasks doc).
#[local] Abbreviation E := (eligible_tasks (source_tasks doc)).
#[local] Abbreviation first_state :=
  (as_state (foldl (add_task_list rt)
               (Assembly (ConvState 0 1 ∅ [] []) [] [] [])
               (default [] (gd_items doc)))).

Lemma first_loop_payload : payload_inv rt (project_of_task rt doc) L first_state.
Proof.
  apply (add_task_lists_payload rt Hinj _ (default [] (gd_items doc)) [] 0).
  - apply assembly_init.
  - by split; constructor.
  - split; [done|]. intros i kt Hi. done.
  - intros grp e Hg He. by exists grp.
Qed.

(** The task table of the backup is the one the second pass leaves. *)
Lemma run_backup_tasks :
  b_task_entities out
  = (build_subtask_relationships (cs_all_tasks first_state)
       (cs_id_mapping first_state) (cs_task_id_to_original first_state)).1.
Proof.
  destruct (first_loop_inv rt Hinj doc) as (n & [Hs _ _ _] & _).
  pose proof (first_pass_keys rt _ _ _ Hs) as Hkeys.
  unfold run_conversion. cbn [cv_backup b_task_entities].
  set (second := build_subtask_relationships _ _ _).
  assert (Hk : second.1.*1 = new_id rt <$> E).
  { unfold second, build_subtask_relationships. by rewrite steps_keys. }
  rewrite (add_tasks_spec second.1 [] []); [done|].
  simpl. rewrite Hk. apply (new_id_NoDup rt Hinj doc).
Qed.

Lemma run_entity_fields i e :
  E !! i = Some e →
  ∃ t project_id,
    b_task_entities out !! i = Some (new_id rt e, t)
    ∧ project_of_task rt doc e project_id
    ∧ converted_fields rt project_id (clock rt (S i)) e.2 t.
Proof.
  intros He.
  destruct (first_loop_inv rt Hinj doc) as (n & [Hs _ _ _] & _).
  pose proof (first_pass_length rt _ _ _ Hs) as Hlen.
  destruct first_loop_payload as [_ Hp].
  destruct (lookup_lt_is_Some_2 (cs_all_tasks first_state) i) as [kt Hkt].
  { rewrite Hlen. by eapply lookup_lt_Some. }
  destruct (Hp i kt Hkt) as (e' & pid & He' & Hown & Hk & Hf).
  assert (e' = e) as -> by congruence.
  destruct (build_only_linked (cs_id_mapping first_state) (cs_all_tasks first_state)
              (cs_task_id_to_original first_state)) as [Hrel _].
  rewrite <- run_backup_tasks in Hrel.
  destruct (Forall2_lookup_l _ _ _ _ _ Hrel Hkt) as ([k t] & Hout & Hkey & Hlink).
  simpl in Hkey, Hlink. exists t, pid. split; [|split; [done|]].
  - rewrite Hout. by rewrite <- Hkey, Hk.
  - destruct Hlink as (?&?&?&?&?&?&?&?&?&?&_).
    destruct Hf as (?&?&?&?&?&?&?&?&?).
    unfold converted_fields. repeat split; congruence.
Qed.

End Fields.

(** ** The validator on the converter's output *)

Lemma get_fmap_view {A B} (f : A → B) (d : pydict A) k :
  PyDict.get k (prod_map id f <$> d) = f <$> PyDict.get k d.
Proof.
  induction d as [|[k' v] d IH]; simpl; [done|].
  destruct (decide (k' = k)); [done|]. exact IH.
Qed.

Lemma elem_fmap_view {A B} (f : A → B) (d : pydict A) k v :
  (k, v) ∈ prod_map id f <$> d → ∃ v0, (k, v0) ∈ d ∧ v = f v0.
Proof.
  intros ([k' v0] & Heq & Hin)%list_elem_of_fmap. simpl in Heq.
  injection Heq as -> ->. by exists v0.
Qed.

Section Chains.
Context (tasks : pydict sp_task).

#[local] Abbreviation entities := (prod_map id view_task <$> tasks).

Lemma next_view c x :
  Violations.next entities c = Some x ↔ parent_link tasks c x ∧ x ≠ EmptyString.
Proof.
  unfold Violations.next, Validator.parent_of, parent_link.
  rewrite get_fmap_view. destruct (PyDict.get c tasks) as [t|]; simpl.
  - destruct (t_parentId t) as [p|] eqn:Hp; simpl.
    + destruct (truthy p) eqn:Ht.
      * apply truthy_true in Ht. split.
        -- intros [= <-]. split; [by exists t|done].
        -- intros [(t' & [= <-] & Hp') _]. congruence.
      * apply truthy_false in Ht. split; [done|].
        intros [(t' & [= <-] & Hp') Hx]. congruence.
    + split; [done|]. intros [(t' & [= <-] & Hp') _]. congruence.
  - split; [done|]. by intros [(t' & ? & _) _].
Qed.

Lemma ancestor_add p n m :
  Violations.ancestor entities p (n + m)
  = Violations.ancestor entities p n ≫= λ x, Violations.ancestor entities x m.
Proof.
  induction m as [|m IH].
  - rewrite Nat.add_0_r. simpl. by destruct (Violations.ancestor entities p n).
  - rewrite Nat.add_succ_r. simpl. rewrite IH.
    by destruct (Violations.ancestor entities p n).
Qed.

Lemma ancestor_chain p n x :
  Violations.ancestor entities p (S n) = Some x → clos_trans string (parent_link tasks) p x.
Proof.
  revert x. induction n as [|n IH]; intros x Hx.
  - simpl in Hx. apply next_view in Hx as [Hx _]. by apply t_step.
  - change (Violations.ancestor entities p (S (S n)))
      with (Violations.ancestor entities p (S n) ≫= Violations.next entities) in Hx.
    destruct (Violations.ancestor entities p (S n)) as [y|] eqn:Hy; [|done].
    simpl in Hx. apply next_view in Hx as [Hx _].
    eapply t_trans; [by apply IH|by apply t_step].
Qed.

(** A chain the validator calls circular holds a cycle of parent links. *)
Lemma circular_cycle t p :
  parent_link tasks t p → Violations.circular entities t p →
  ∃ a, clos_trans string (parent_link tasks) a a.
Proof.
  intros Htp [[n Hn]|(i & j & x & Hij & Hi & Hj)].
  - exists t. destruct n as [|n].
    + simpl in Hn. injection Hn as ->. by apply t_step.
    + eapply t_trans; [by apply t_step|by apply ancestor_chain in Hn].
  - exists x. assert (j = i + S (j - i - 1)) as Hj' by lia.
    rewrite Hj', ancestor_add, Hi in Hj. simpl in Hj.
    by apply ancestor_chain in Hj.
Qed.

(** A cycle of truthy parent links comes back after some steps. *)
Lemma chain_ancestor a b :
  clos_trans string (λ c x, parent_link tasks c x ∧ x ≠ EmptyString) a b →
  ∃ n, Violations.ancestor entities a (S n) = Some b.
Proof.
  induction 1 as [a b Hab|a b c _ [n Hn] _ [m Hm]].
  - exists 0. simpl. by apply next_view.
  - exists (n + S m). rewrite <- Nat.add_succ_l, ancestor_add, Hn. done.
Qed.

End Chains.

Section Verdict.
Context (rt : runtime).
Context (Hinj : Inj (=) (=) (uuid rt)) (Hne : ∀ n, uuid rt n ≠ EmptyString).
Context (doc : google_tasks_data).

#[local] Abbreviation run := (run_conversion rt doc).
#[local] Abbreviation out := (cv_backup (run_conversion rt doc)).
#[local] Abbreviation tasks := (b_task_entities (cv_backup (run_conversion rt doc))).
#[local] Abbreviation L := (source_tasks doc).
#[local] Abbreviation E := (eligible_tasks (source_tasks doc)).
#[local] Abbreviation vdata :=
  (VData (b_task_ids (cv_backup (run_conversion rt doc)))
     (prod_map id view_task <$> b_task_entities (cv_backup (run_conversion rt doc)))
     (prod_map id view_project <$> b_project_entities (cv_backup (run_conversion rt doc)))).

Lemma task_keys_NoDup : NoDup tasks.*1.
Proof. rewrite (run_task_keys rt Hinj doc). apply (new_id_NoDup rt Hinj doc). Qed.

Lemma entity_source a t :
  (a, t) ∈ tasks → ∃ e, e ∈ E ∧ a = new_id rt e ∧ PyDict.get (new_id rt e) tasks = Some t.
Proof.
  intros Hin. apply (PyDictFacts.elem_get _ _ _ task_keys_NoDup) in Hin.
  destruct (run_entity_inv rt Hinj doc a t Hin) as (e & He & ->). by exists e.
Qed.

Lemma converted_entity e : e ∈ E → is_Some (PyDict.get (new_id rt e) tasks).
Proof.
  intros He. apply PyDictFacts.get_is_Some. rewrite (run_task_keys rt Hinj doc).
  by apply list_elem_of_fmap_2.
Qed.

(** The [parentId] of a converted task names an entity or the task is
    [dangling]. *)
Lemma parent_exists_or_dangling e t x :
  e ∈ E → PyDict.get (new_id rt e) tasks = Some t → t_parentId t = Some x →
  (∃ e', e' ∈ E ∧ x = new_id rt e' ∧ resolved_parent L e.2 = Some e'.1)
  ∨ dangling L e.
Proof.
  intros He Ht Hx.
  destruct (run_entity_parent rt Hinj Hne doc e He) as (t' & Ht' & Hp).
  assert (t' = t) as -> by congruence. rewrite Hx in Hp.
  unfold resolved_parent, dangling.
  destruct (declared_parent e.2) as [p|]; [|done]. simpl in *.
  destruct (first_occurrence p L) as [ej|] eqn:Hfo; [|done]. simpl in *.
  destruct (eligible ej.2) eqn:Hel.
  - injection Hp as ->. left. exists ej. split; [|done].
    apply eligible_tasks_elem. split; [|done]. by apply first_occurrence_Some in Hfo as [? _].
  - destruct (decide (ej.1 < e.1)); [|done]. right. exists p, ej.
    repeat split; try done. unfold eligible in Hel. by apply negb_false_iff.
Qed.

Lemma project_exists a t :
  (a, t) ∈ tasks → is_Some (PyDict.get (t_projectId t) (b_project_entities out)).
Proof.
  intros Hin. apply list_elem_of_lookup in Hin as [i Hi].
  assert (is_Some (E !! i)) as [e He].
  { apply lookup_lt_is_Some. apply lookup_lt_Some in Hi.
    rewrite <- (length_fmap (new_id rt)), <- (run_task_keys rt Hinj doc), length_fmap. done. }
  destruct (run_entity_fields rt Hinj doc i e He) as (t' & pid & Ht' & (grp & Hg & _ & ->) & Hf).
  assert (t' = t) as -> by congruence.
  destruct Hf as (_ & _ & -> & _).
  rewrite (run_project_entity rt Hinj doc grp Hg). by eexists.
Qed.

Lemma no_violation :
  (∀ e, e ∈ E → ¬ dangling L e) → (∀ k, ¬ clos_trans nat (source_link doc) k k) →
  ∀ err, ¬ Violations.violation (view_backup out) err.
Proof.
  intros Hdang Hacyc err Hv.
  assert (Hcyc : ∀ a, ¬ clos_trans string (parent_link tasks) a a).
  { intros a Ha. destruct (parent_cycle_source rt Hinj Hne doc a Ha) as [k Hk].
    by apply (Hacyc k). }
  inversion Hv as [Hd|Hd|Hd|Hd|d Hd Hdup|d t Hd Hin Hget
                   |d t task p Hd Hin Hproj Hp Hget
                   |d t task p Hd Hin Hpar Hp Hget
                   |d t task Hd Hin Hpar Ht
                   |d t task p Hd Hin Hpar Hp Hpt Hsome Hcirc
                   |d t task l s Hd Hin Hl Hs Hget
                   |d t task l s child Hd Hin Hl Hs Hget Hmis
                   |d p proj l t Hd Hin Hl Ht Hget
                   |d p proj l t task Hd Hin Hl Ht Hget Htr]; subst;
    try done;
    change (Some (VData (b_task_ids out) (prod_map id view_task <$> tasks)
                    (prod_map id view_project <$> b_project_entities out)) = Some d) in Hd;
    apply (inj Some) in Hd as <-;
    cbn [vd_task_ids vd_task_entities vd_project_entities] in *.
  - (* duplicates *)
    apply Hdup. rewrite (run_task_ids rt Hinj doc). apply (new_id_NoDup rt Hinj doc).
  - (* identifier without entity *)
    rewrite get_fmap_view in Hget. apply fmap_None, PyDictFacts.get_None in Hget.
    apply Hget. by rewrite (run_task_keys rt Hinj doc), <- (run_task_ids rt Hinj doc).
  - (* project reference *)
    apply elem_fmap_view in Hin as (t0 & Hin & ->). simpl in Hproj. injection Hproj as <-.
    rewrite get_fmap_view in Hget. apply fmap_None in Hget.
    destruct (project_exists t t0 Hin) as [? Hsome]. congruence.
  - (* parent reference *)
    apply elem_fmap_view in Hin as (t0 & Hin & ->). simpl in Hpar.
    rewrite get_fmap_view in Hget. apply fmap_None in Hget.
    destruct (entity_source t t0 Hin) as (e & He & -> & Ht0).
    destruct (parent_exists_or_dangling e t0 p He Ht0 Hpar) as [(e' & He' & -> & _)|Hd].
    + destruct (converted_entity e' He') as [? Hsome]. congruence.
    + by apply (Hdang e).
  - (* own parent *)
    apply elem_fmap_view in Hin as (t0 & Hin & ->). simpl in Hpar.
    apply (PyDictFacts.elem_get _ _ _ task_keys_NoDup) in Hin.
    apply (Hcyc t). apply t_step. by exists t0.
  - (* circular chain *)
    apply elem_fmap_view in Hin as (t0 & Hin & ->). simpl in Hpar.
    apply (PyDictFacts.elem_get _ _ _ task_keys_NoDup) in Hin.
    destruct (circular_cycle tasks t p) as [a Ha]; [by exists t0|done|].
    by apply (Hcyc a).
  - (* listed child without entity *)
    apply elem_fmap_view in Hin as (t0 & Hin & ->). simpl in Hl. injection Hl as <-.
    rewrite get_fmap_view in Hget. apply fmap_None, PyDictFacts.get_None in Hget.
    apply Hget. rewrite (run_task_keys rt Hinj doc).
    apply (PyDictFacts.elem_get _ _ _ task_keys_NoDup) in Hin.
    by apply (run_entity_children rt Hinj doc t t0).
  - (* listed child with another parent *)
    apply elem_fmap_view in Hin as (t0 & Hin & ->). simpl in Hl. injection Hl as <-.
    rewrite get_fmap_view in Hget.
    destruct (PyDict.get s tasks) as [tc|] eqn:Hc; [|done].
    simpl in Hget. injection Hget as <-. simpl in Hmis.
    destruct (entity_source t t0 Hin) as (e & He & -> & Ht0).
    destruct (run_entity rt Hinj Hne doc e He) as (t' & Ht' & _ & Hsub & _).
    assert (t' = t0) as -> by congruence.
    rewrite Hsub in Hs. apply list_elem_of_fmap in Hs as (c & -> & Hcin).
    apply list_elem_of_filter in Hcin as [Hres Hcin].
    destruct (run_entity rt Hinj Hne doc c Hcin) as (tc' & Htc' & _ & _ & Hpar & _).
    assert (tc' = tc) as -> by congruence.
    by rewrite (Hpar _ Hres) in Hmis.
  - (* project lists a missing task *)
    apply elem_fmap_view in Hin as (proj0 & Hin & ->). simpl in Hl. injection Hl as <-.
    rewrite get_fmap_view in Hget. apply fmap_None, PyDictFacts.get_None in Hget.
    apply Hget. rewrite (run_task_keys rt Hinj doc).
    by destruct (run_project_listed rt Hinj doc p proj0 t Hin Ht).
  - (* project lists a subtask *)
    apply elem_fmap_view in Hin as (proj0 & Hin & ->). simpl in Hl. injection Hl as <-.
    rewrite get_fmap_view in Hget.
    destruct (PyDict.get t tasks) as [t0|] eqn:Ht0; [|done].
    simpl in Hget. injection Hget as <-. simpl in Htr.
    destruct (run_project_listed rt Hinj doc p proj0 t Hin Ht) as [Hconv Hnot].
    apply list_elem_of_fmap in Hconv as (e & -> & He).
    destruct (t_parentId t0) as [x|] eqn:Hx; [|done].
    destruct (parent_exists_or_dangling e t0 x He Ht0 Hx) as [(e' & He' & -> & Hres)|Hd].
    + apply Hnot. apply (run_subtask_ids rt Hinj Hne doc). exists e. by rewrite Hres.
    + by apply (Hdang e).
Qed.

Lemma dangling_violation e :
  e ∈ E → dangling L e → ∃ err, Violations.violation (view_backup out) err.
Proof.
  intros He (p & ej & Hp & Hfo & Hd & Hlt).
  destruct (run_entity_parent rt Hinj Hne doc e He) as (t & Ht & Hpar).
  rewrite Hp in Hpar. simpl in Hpar. rewrite Hfo in Hpar. simpl in Hpar.
  unfold eligible in Hpar. rewrite Hd in Hpar. simpl in Hpar.
  rewrite decide_True in Hpar by done.
  exists (NonExistentParent (new_id rt e) (new_id rt ej)).
  eapply Violations.parent_unresolved with (d := vdata) (task := view_task t);
    [done| | | |]; cbn [vd_task_entities].
  - apply list_elem_of_fmap. exists (new_id rt e, t). split; [done|].
    by apply PyDictFacts.get_Some_elem.
  - done.
  - apply Hne.
  - rewrite get_fmap_view. apply fmap_None, PyDictFacts.get_None.
    rewrite (run_task_keys rt Hinj doc).
    apply first_occurrence_Some in Hfo as [Hin _]. destruct ej as [j gj].
    by apply (dropped_not_converted rt Hinj doc j gj).
Qed.

Lemma source_link_parent k j :
  source_link doc k j →
  parent_link tasks (uuid rt k) (uuid rt j) ∧ uuid rt j ≠ EmptyString.
Proof.
  intros (g & Hin & Hel & Hres). split; [|apply Hne].
  assert (He : (k, g) ∈ E) by (by apply eligible_tasks_elem).
  destruct (run_entity rt Hinj Hne doc (k, g) He) as (t & Ht & _ & _ & Hpar & _).
  exists t. split; [done|]. by apply Hpar.
Qed.

Lemma cycle_violation k :
  clos_trans nat (source_link doc) k k →
  ∃ err, Violations.violation (view_backup out) err.
Proof.
  intros Hk.
  assert (Hchain : ∀ a b, clos_trans nat (source_link doc) a b →
            clos_trans string (λ c x, parent_link tasks c x ∧ x ≠ EmptyString)
              (uuid rt a) (uuid rt b)).
  { induction 1 as [a b Hab|a b c _ IH1 _ IH2].
    - apply t_step. by apply source_link_parent.
    - by eapply t_trans. }
  apply Hchain, chain_ancestor in Hk as [n Hn].
  set (t := uuid rt k) in *.
  change (S n) with (1 + n) in Hn. rewrite ancestor_add in Hn.
  destruct (Violations.ancestor (prod_map id view_task <$> tasks) t 1) as [p|] eqn:Hp;
    [|done].
  change (Violations.next (prod_map id view_task <$> tasks) t = Some p) in Hp.
  change (Violations.ancestor (prod_map id view_task <$> tasks) p n = Some t) in Hn.
  pose proof Hp as Hnext. apply next_view in Hnext as [(t0 & Ht0 & Hpar) Hpne].
  assert (Hin : (t, view_task t0) ∈ prod_map id view_task <$> tasks).
  { apply list_elem_of_fmap. exists (t, t0). split; [done|].
    by apply PyDictFacts.get_Some_elem. }
  destruct (decide (p = t)) as [->|Hpt].
  - exists (OwnParent t).
    eapply Violations.parent_is_self with (d := vdata) (task := view_task t0);
      [done|exact Hin|done|apply Hne].
  - exists (CircularParent t).
    eapply Violations.parent_cycle with (d := vdata) (task := view_task t0) (p := p);
      [done|exact Hin|done|done|done| |]; cbn [vd_task_entities].
    + destruct n as [|n].
      { change (Some p = Some t) in Hn. congruence. }
      change (S n) with (1 + n) in Hn. rewrite ancestor_add in Hn.
      destruct (Violations.ancestor (prod_map id view_task <$> tasks) p 1) as [q|] eqn:Hq;
        [|done].
      change (Violations.next (prod_map id view_task <$> tasks) p = Some q) in Hq.
      apply next_view in Hq as [(tp & Htp & _) _].
      rewrite get_fmap_view, Htp. by eexists.
    + left. by exists n.
Qed.

Lemma verdict :
  validate_sp_data (view_backup out) = Some []
  ↔ (∀ e, e ∈ E → ¬ dangling L e) ∧ (∀ k, ¬ clos_trans nat (source_link doc) k k).
Proof.
  destruct (errors_spec (view_backup out) _ eq_refl) as (errs & Herrs & Hspec & _).
  unfold validate_sp_data. rewrite Herrs. simpl. split.
  - intros [= Hmap]. apply fmap_nil_inv in Hmap. subst errs.
    split.
    + intros e He Hd. destruct (dangling_violation e He Hd) as [err Herr].
      apply Hspec in Herr. by apply elem_of_nil in Herr.
    + intros k Hk. destruct (cycle_violation k Hk) as [err Herr].
      apply Hspec in Herr. by apply elem_of_nil in Herr.
  - intros [Hdang Hacyc]. destruct errs as [|err errs]; [done|].
    exfalso. apply (no_violation Hdang Hacyc err). apply Hspec, elem_of_cons. by left.
Qed.

End Verdict.

(** ** The whole conversion *)

Lemma filter_ext_in {A} (P Q : A → Prop) `{∀ x, Decision (P x)} `{∀ x, Decision (Q x)}
    (l : list A) :
  (∀ x, x ∈ l → P x ↔ Q x) → filter P l = filter Q l.
Proof.
  induction l as [|x l IH]; intros Hpq; [done|].
  rewrite !filter_cons.
  assert (Hx : P x ↔ Q x) by (apply Hpq, elem_of_cons; by left).
  rewrite IH by (intros y Hy; apply Hpq, elem_of_cons; by right).
  destruct (decide (P x)), (decide (Q x)); tauto.
Qed.

Lemma filter_fmap_comp {A B} (f : A → B) (P : B → Prop) `{∀ y, Decision (P y)}
    (l : list A) :
  filter P (f <$> l) = f <$> filter (λ x, P (f x)) l.
Proof.
  induction l as [|x l IH]; [done|]. rewrite fmap_cons, !filter_cons, IH.
  by destruct (decide (P (f x))).
Qed.

Lemma bind_Forall2 {A B C} (g : A → list C) (f : B → list C) l1 l2 :
  Forall2 (λ a b, g a = f b) l1 l2 → l1 ≫= g = l2 ≫= f.
Proof.
  induction 1 as [|a b l1 l2 Hab _ IH]; [done|]. by rewrite !bind_cons, Hab, IH.
Qed.

Lemma label_lists_length n lists : length (label_lists n lists) = length lists.
Proof.
  revert n. induction lists as [|tl lists IH]; intros n; simpl; [done|]. by rewrite IH.
Qed.

Lemma label_lists_values n lists : (label_lists n lists).*2 = lists.
Proof.
  revert n. induction lists as [|tl lists IH]; intros n; simpl; [done|]. by rewrite IH.
Qed.

Lemma label_items_values n items : (label_items n items).*2 = items.
Proof.
  revert n. induction items as [|g items IH]; intros n; simpl; [done|]. by rewrite IH.
Qed.

Lemma eligible_tasks_values l :
  (eligible_tasks l).*2 = filter (λ g, dropped g = false) l.*2.
Proof.
  unfold eligible_tasks. rewrite filter_fmap_comp. f_equal.
  apply filter_ext_in. intros e _. unfold eligible. by destruct (dropped e.2).
Qed.

Lemma source_tasks_values doc :
  (source_tasks doc).*2 = default [] (gd_items doc) ≫= items_of.
Proof.
  unfold source_tasks, source_groups. generalize 0.
  induction (default [] (gd_items doc)) as [|tl lists IH]; intros n; simpl; [done|].
  rewrite fmap_app, IH. unfold group_tasks at 1. simpl.
  by rewrite label_items_values.
Qed.

Section Output.
Context (rt : runtime).
Context (Hinj : Inj (=) (=) (uuid rt)).
Context (doc : google_tasks_data).

#[local] Abbreviation run := (run_conversion rt doc).
#[local] Abbreviation out := (cv_backup (run_conversion rt doc)).
#[local] Abbreviation tasks := (b_task_entities (cv_backup (run_conversion rt doc))).
#[local] Abbreviation L := (source_tasks doc).
#[local] Abbreviation E := (eligible_tasks (source_tasks doc)).

Lemma run_project_keys :
  (b_project_entities out).*1 = (λ grp, uuid rt grp.1) <$> source_groups doc.
Proof. rewrite (run_project_entities rt Hinj doc). by rewrite <- list_fmap_compose. Qed.

Lemma run_project_id q proj :
  PyDict.get q (b_project_entities out) = Some proj → p_id proj = q.
Proof.
  intros Hget%PyDictFacts.get_Some_elem.
  rewrite (run_project_entities rt Hinj doc) in Hget.
  by apply list_elem_of_fmap in Hget as (grp & [= -> ->] & _).
Qed.

Lemma arrival_ids_all :
  source_groups doc ≫= arrival_ids rt = new_id rt <$> E.
Proof.
  unfold source_tasks. induction (source_groups doc) as [|grp grps IH]; [done|].
  rewrite !bind_cons, eligible_tasks_app, fmap_app, IH. done.
Qed.

End Output.

Section Listing.
Context (rt : runtime).
Context (Hinj : Inj (=) (=) (uuid rt)) (Hne : ∀ n, uuid rt n ≠ EmptyString).
Context (doc : google_tasks_data).

#[local] Abbreviation run := (run_conversion rt doc).
#[local] Abbreviation out := (cv_backup (run_conversion rt doc)).
#[local] Abbreviation tasks := (b_task_entities (cv_backup (run_conversion rt doc))).
#[local] Abbreviation L := (source_tasks doc).
#[local] Abbreviation E := (eligible_tasks (source_tasks doc)).

Lemma not_subtask e :
  e ∈ E → new_id rt e ∉ cv_subtask_ids run ↔ resolved_parent L e.2 = None.
Proof.
  intros He. rewrite (run_subtask_ids rt Hinj Hne doc). split.
  - intros Hno. destruct (resolved_parent L e.2) eqn:Hres; [|done].
    exfalso. apply Hno. exists e. by rewrite Hres.
  - intros Hres (e' & He' & Heq & Hsome).
    apply (new_id_inj rt Hinj doc) in Heq; [|by apply eligible_tasks_elem in He as [? _]
                                            |by apply eligible_tasks_elem in He' as [? _]].
    subst e'. rewrite Hres in Hsome. by destruct Hsome.
Qed.

Lemma run_visible :
  (b_project_entities out).*2 ≫= p_taskIds
  = new_id rt <$> filter (λ e, resolved_parent L e.2 = None) E.
Proof.
  rewrite (run_project_entities rt Hinj doc), <- list_fmap_compose, list_fmap_bind.
  transitivity (filter (λ tid, tid ∉ cv_subtask_ids run) (source_groups doc ≫= arrival_ids rt)).
  - induction (source_groups doc) as [|grp grps IH]; [done|].
    rewrite !bind_cons, filter_app, <- IH. done.
  - rewrite arrival_ids_all, filter_fmap_comp. f_equal.
    apply filter_ext_in. intros e He. by apply not_subtask.
Qed.

Lemma run_children :
  tasks.*2 ≫= t_subTaskIds
  = E ≫= λ e, new_id rt <$> filter (λ c, resolved_parent L c.2 = Some e.1) E.
Proof.
  set (f := λ e : nat * gtask,
          new_id rt <$> filter (λ c, resolved_parent L c.2 = Some e.1) E).
  assert (Hrel : Forall2 (λ kt e, t_subTaskIds kt.2 = f e) tasks E).
  { apply Forall2_same_length_lookup_2.
    - rewrite <- (length_fmap fst tasks), (run_task_keys rt Hinj doc), length_fmap. done.
    - intros i [k t] e Hi He. simpl.
      assert (Hk : tasks.*1 !! i = Some k) by (by rewrite list_lookup_fmap, Hi).
      rewrite (run_task_keys rt Hinj doc), list_lookup_fmap, He in Hk.
      injection Hk as <-.
      apply list_elem_of_lookup_2 in Hi, He.
      apply (PyDictFacts.elem_get _ _ _ (task_keys_NoDup rt Hinj doc)) in Hi.
      destruct (run_entity rt Hinj Hne doc e He) as (t' & Ht' & _ & Hsub & _).
      unfold f. congruence. }
  rewrite list_fmap_bind. by apply bind_Forall2.
Qed.

Lemma resolved_parent_converted (e : nat * gtask) j :
  resolved_parent L e.2 = Some j → ∃ ej, ej ∈ E ∧ ej.1 = j.
Proof.
  unfold resolved_parent. destruct (declared_parent e.2) as [p|]; [|done]. simpl.
  destruct (first_occurrence p L) as [ej|] eqn:Hfo; [|done]. simpl.
  destruct (eligible ej.2) eqn:Hel; [|done]. intros [= <-].
  exists ej. split; [|done]. apply eligible_tasks_elem. split; [|done].
  by apply first_occurrence_Some in Hfo as [? _].
Qed.

Lemma eligible_label_inj e e' : e ∈ E → e' ∈ E → e.1 = e'.1 → e = e'.
Proof.
  intros [He _]%eligible_tasks_elem [He' _]%eligible_tasks_elem Heq.
  apply (new_id_inj rt Hinj doc); [done|done|]. unfold new_id. by rewrite Heq.
Qed.

Lemma eligible_NoDup : NoDup E.
Proof.
  apply (NoDup_fmap_1 (new_id rt)). apply (new_id_NoDup rt Hinj doc).
Qed.

Lemma children_permutation :
  (E ≫= λ e, new_id rt <$> filter (λ c, resolved_parent L c.2 = Some e.1) E)
  ≡ₚ new_id rt <$> filter (λ e, ¬ resolved_parent L e.2 = None) E.
Proof.
  assert (Hinj' : ∀ c c', c ∈ E → c' ∈ E → new_id rt c = new_id rt c' → c = c').
  { intros c c' [Hc _]%eligible_tasks_elem [Hc' _]%eligible_tasks_elem.
    by apply (new_id_inj rt Hinj doc). }
  assert (Hnd : ∀ (P : nat * gtask → Prop) `{∀ x, Decision (P x)},
            NoDup (new_id rt <$> filter P E)).
  { intros P ?. apply (sublist_NoDup _ (new_id rt <$> E));
      [apply (new_id_NoDup rt Hinj doc)|].
    apply fmap_sublist, sublist_filter. }
  apply NoDup_Permutation.
  - apply NoDup_bind; [|intros; apply Hnd|apply eligible_NoDup].
    intros e1 e2 y He1 He2 (c1 & -> & Hc1)%list_elem_of_fmap (c2 & Heq & Hc2)%list_elem_of_fmap.
    apply list_elem_of_filter in Hc1 as [Hr1 Hc1], Hc2 as [Hr2 Hc2].
    apply Hinj' in Heq; [|done..]. subst c2.
    apply eligible_label_inj; [done..|]. congruence.
  - apply Hnd.
  - intros y. rewrite list_elem_of_bind, list_elem_of_fmap. split.
    + intros (e & (c & -> & Hc)%list_elem_of_fmap & He).
      apply list_elem_of_filter in Hc as [Hr Hc].
      exists c. split; [done|]. apply list_elem_of_filter. split; [|done]. by rewrite Hr.
    + intros (c & -> & Hc). apply list_elem_of_filter in Hc as [Hr Hc].
      destruct (resolved_parent L c.2) as [j|] eqn:Hres; [|done].
      destruct (resolved_parent_converted c j Hres) as (ej & Hej & <-).
      exists ej. split; [|done]. apply list_elem_of_fmap. exists c. split; [done|].
      by apply list_elem_of_filter.
Qed.

Lemma listed_once :
  ((b_project_entities out).*2 ≫= p_taskIds) ++ (tasks.*2 ≫= t_subTaskIds)
  ≡ₚ b_task_ids out.
Proof.
  rewrite run_visible, run_children, children_permutation, (run_task_ids rt Hinj doc).
  rewrite <- fmap_app. apply fmap_Permutation. apply filter_app_complement.
Qed.

(** Who has children, or is named as parent, is the first task to carry
    its original identifier. *)
Lemma parent_is_first_occurrence (e c : nat * gtask) :
  e ∈ L → resolved_parent L c.2 = Some e.1 →
  original_id e.2 ≠ EmptyString ∧ first_occurrence (original_id e.2) L = Some e.
Proof.
  intros He. unfold resolved_parent.
  destruct (declared_parent c.2) as [p|] eqn:Hp; [|done]. simpl.
  destruct (first_occurrence p L) as [ej|] eqn:Hfo; [|done]. simpl.
  destruct (eligible ej.2); [|done]. intros [= Heq].
  pose proof (first_occurrence_Some _ _ _ Hfo) as [Hej Hid].
  assert (ej = e) as ->.
  { apply (new_id_inj rt Hinj doc); [done..|]. unfold new_id. by rewrite Heq. }
  rewrite Hid. split; [|done]. apply truthy_true. by eapply declared_parent_truthy.
Qed.

End Listing.

Lemma filter_filter_and {A} (P Q : A → Prop) `{∀ x, Decision (P x)} `{∀ x, Decision (Q x)}
    (l : list A) :
  filter P (filter Q l) = filter (λ x, Q x ∧ P x) l.
Proof.
  induction l as [|x l IH]; [done|]. rewrite !filter_cons.
  destruct (decide (Q x)) as [HQ|HQ].
  - rewrite filter_cons, IH. destruct (decide (P x)), (decide (Q x ∧ P x)); tauto.
  - rewrite IH. destruct (decide (Q x ∧ P x)); tauto.
Qed.

(** X13.  Every source task that is not dropped becomes one entity, stored
    under the identifier drawn for it, in the project of its group, which
    exists.  Title, notes, completion, due day and the record of the
    original identifier come from the source task as
    [convert_task_with_assigned_id] computes them, and the second pass
    changes none of them; [created] and [updated] are the parsed [updated]
    stamp or, when there is none or it is zero, the clock reading made
    for this task: the [i]-th converted task (from 0) gets reading
    [i + 1]. *)
Theorem converted_task_fields (rt : runtime) (doc : google_tasks_data)
    (i k : nat) (g : gtask) :
  Inj (=) (=) (uuid rt) →
  eligible_tasks (source_tasks doc) !! i = Some (k, g) →
  let out := convert_google_tasks_to_sp rt doc in
  ∃ t grp,
    PyDict.get (uuid rt k) (b_task_entities out) = Some t
    ∧ grp ∈ source_groups doc ∧ (k, g) ∈ group_tasks grp
    ∧ t_id t = uuid rt k
    ∧ converted_fields rt (uuid rt grp.1) (clock rt (S i)) g t
    ∧ is_Some (PyDict.get (t_projectId t) (b_project_entities out)).
Proof.
  intros Hinj He out. unfold out, convert_google_tasks_to_sp.
  destruct (run_entity_fields rt Hinj doc i (k, g) He)
    as (t & pid & Ht & (grp & Hg & Hin & ->) & Hf).
  apply list_elem_of_lookup_2 in Ht.
  pose proof (project_exists rt Hinj doc _ _ Ht) as Hproj.
  apply (PyDictFacts.elem_get _ _ _ (task_keys_NoDup rt Hinj doc)) in Ht.
  exists t, grp. split; [done|]. split; [done|]. split; [done|].
  split; [by apply (run_entity_id rt Hinj doc) in Ht|]. by split.
Qed.

Lemma converted_task_fields_witness :
  let out := convert_google_tasks_to_sp Reference.rt Samples.doc_parent_child in
  ∃ t grp,
    PyDict.get "uuid-2" (b_task_entities out) = Some t
    ∧ grp ∈ source_groups Samples.doc_parent_child
    ∧ (2, Samples.child_task) ∈ group_tasks grp
    ∧ t_id t = "uuid-2"
    ∧ converted_fields Reference.rt (uuid Reference.rt grp.1)
        (clock Reference.rt 2) Samples.child_task t
    ∧ is_Some (PyDict.get (t_projectId t) (b_project_entities out)).
Proof.
  exact (converted_task_fields Reference.rt Samples.doc_parent_child 1 2
           Samples.child_task reference_uuid_inj eq_refl).
Defined.

(** X14.  When the converter's output passes the validator: exactly when
    no converted task declares a parent whose identifier first occurs on
    a task dropped before it, and the parent declarations of the source
    tasks, followed through first occurrences, run in no circle. *)
Theorem converted_backup_validates (rt : runtime) (doc : google_tasks_data) :
  Inj (=) (=) (uuid rt) → (∀ n, uuid rt n ≠ EmptyString) →
  validate_sp_data (view_backup (convert_google_tasks_to_sp rt doc)) = Some []
  ↔ (∀ e, e ∈ eligible_tasks (source_tasks doc) → ¬ dangling (source_tasks doc) e)
    ∧ (∀ k, ¬ clos_trans nat (source_link doc) k k).
Proof. intros Hinj Hne. apply (verdict rt Hinj Hne doc). Qed.

Lemma converted_backup_validates_witness :
  validate_sp_data
    (view_backup (convert_google_tasks_to_sp Reference.rt Samples.doc_dropped_parent))
  = Some []
  ↔ (∀ e, e ∈ eligible_tasks (source_tasks Samples.doc_dropped_parent) →
          ¬ dangling (source_tasks Samples.doc_dropped_parent) e)
    ∧ (∀ k, ¬ clos_trans nat (source_link Samples.doc_dropped_parent) k k).
Proof.
  exact (converted_backup_validates Reference.rt Samples.doc_dropped_parent
           reference_uuid_inj reference_uuid_nonempty).
Defined.

(** X15.  The two identifier lists of the backup are the keys of the two
    entity tables, in the same order and without repetition, and every
    entity carries its key as [id].  There is one project for each source
    group and one task for each source task that is not deleted or hidden,
    both in source order. *)
Theorem output_lists (rt : runtime) (doc : google_tasks_data) :
  Inj (=) (=) (uuid rt) →
  let out := convert_google_tasks_to_sp rt doc in
  b_task_ids out = (b_task_entities out).*1
  ∧ b_project_ids out = (b_project_entities out).*1
  ∧ NoDup (b_task_ids out) ∧ NoDup (b_project_ids out)
  ∧ (∀ a t, PyDict.get a (b_task_entities out) = Some t → t_id t = a)
  ∧ (∀ q p, PyDict.get q (b_project_entities out) = Some p → p_id p = q)
  ∧ b_project_ids out = (λ grp, uuid rt grp.1) <$> source_groups doc
  ∧ b_task_ids out = (λ e, uuid rt e.1) <$> eligible_tasks (source_tasks doc)
  ∧ length (b_project_ids out) = length (default [] (gd_items doc))
  ∧ length (b_task_ids out)
    = length (filter (λ g, dropped g = false) (default [] (gd_items doc) ≫= items_of)).
Proof.
  intros Hinj out. unfold out, convert_google_tasks_to_sp.
  rewrite (run_task_keys rt Hinj doc), (run_project_keys rt Hinj doc),
    (run_task_ids rt Hinj doc), (run_project_ids rt Hinj doc).
  repeat split; try done.
  - apply (new_id_NoDup rt Hinj doc).
  - apply (project_keys_NoDup rt Hinj doc).
  - apply (run_entity_id rt Hinj doc).
  - apply (run_project_id rt Hinj doc).
  - rewrite length_fmap. apply label_lists_length.
  - rewrite length_fmap, <- source_tasks_values, <- eligible_tasks_values.
    by rewrite length_fmap.
Qed.

Lemma output_lists_witness :
  let out := convert_google_tasks_to_sp Reference.rt Samples.doc_duplicates in
  b_task_ids out = ["uuid-1"; "uuid-2"; "uuid-4"; "uuid-5"]
  ∧ b_project_ids out = ["uuid-0"; "uuid-3"]
  ∧ NoDup (b_task_ids out).
Proof.
  pose proof (output_lists Reference.rt Samples.doc_duplicates reference_uuid_inj)
    as (_ & _ & Hnd & _ & _ & _ & Hp & Ht & _).
  split; [exact Ht|]. split; [exact Hp|exact Hnd].
Defined.

(** X16.  Every converted task is listed exactly once: the visible lists
    of the projects and the child lists of the tasks, taken together, are
    a rearrangement of the list of task identifiers. *)
Theorem every_task_listed_once (rt : runtime) (doc : google_tasks_data) :
  Inj (=) (=) (uuid rt) → (∀ n, uuid rt n ≠ EmptyString) →
  let out := convert_google_tasks_to_sp rt doc in
  ((b_project_entities out).*2 ≫= p_taskIds)
  ++ ((b_task_entities out).*2 ≫= t_subTaskIds)
  ≡ₚ b_task_ids out.
Proof. intros Hinj Hne. apply (listed_once rt Hinj Hne doc). Qed.

Lemma every_task_listed_once_witness :
  let out := convert_google_tasks_to_sp Reference.rt Samples.doc_chain in
  ((b_project_entities out).*2 ≫= p_taskIds)
  ++ ((b_task_entities out).*2 ≫= t_subTaskIds)
  ≡ₚ b_task_ids out.
Proof.
  exact (every_task_listed_once Reference.rt Samples.doc_chain
           reference_uuid_inj reference_uuid_nonempty).
Defined.

(** X17.  Only the first task that carries an original identifier can be
    a parent: if a converted task has children, or if the identifier
    drawn for a source task, dropped or not, is the [parentId] of some
    entity, then that source task has an original identifier and is the
    first of the document to carry it.  A task without identifier and a
    later task with a repeated identifier are never parents. *)
Theorem parents_are_first_occurrences (rt : runtime) (doc : google_tasks_data)
    (k : nat) (g : gtask) :
  Inj (=) (=) (uuid rt) → (∀ n, uuid rt n ≠ EmptyString) →
  (k, g) ∈ source_tasks doc →
  let tasks := b_task_entities (convert_google_tasks_to_sp rt doc) in
  (∃ t, PyDict.get (uuid rt k) tasks = Some t ∧ t_subTaskIds t ≠ [])
  ∨ (∃ a ta, PyDict.get a tasks = Some ta ∧ t_parentId ta = Some (uuid rt k)) →
  original_id g ≠ EmptyString
  ∧ first_occurrence (original_id g) (source_tasks doc) = Some (k, g).
Proof.
  intros Hinj Hne Hin tasks. unfold tasks, convert_google_tasks_to_sp.
  intros [(t & Ht & Hsub)|(a & ta & Ha & Hpar)].
  - pose proof (entity_of_label rt Hinj doc k g t Hin Ht) as He.
    destruct (run_entity rt Hinj Hne doc (k, g) He) as (t' & Ht' & _ & Hsub' & _).
    change (new_id rt (k, g)) with (uuid rt k) in Ht'.
    assert (t' = t) as -> by congruence. rewrite Hsub' in Hsub.
    destruct (filter _ _) as [|c l] eqn:Hf; [done|].
    assert (Hc : c ∈ filter (λ c : nat * gtask,
                   resolved_parent (source_tasks doc) c.2 = Some (k, g).1)
                   (eligible_tasks (source_tasks doc))).
    { rewrite Hf. apply elem_of_cons. by left. }
    apply list_elem_of_filter in Hc as [Hres _].
    apply (parent_is_first_occurrence rt Hinj doc (k, g) c Hin Hres).
  - destruct (run_entity_inv rt Hinj doc a ta Ha) as (e & He & ->).
    destruct (run_entity rt Hinj Hne doc e He) as (t' & Ht' & _ & _ & _ & Hfirst).
    assert (t' = ta) as -> by congruence.
    destruct (Hfirst _ Hpar) as (p & e' & Hp & Hfo & Heq).
    pose proof (first_occurrence_Some _ _ _ Hfo) as [He' Hid].
    assert (e' = (k, g)) as ->.
    { apply (new_id_inj rt Hinj doc); [done..|]. by rewrite <- Heq. }
    simpl in Hid. rewrite Hid. split; [|done].
    apply truthy_true. by eapply declared_parent_truthy.
Qed.

Lemma parents_are_first_occurrences_witness :
  original_id Samples.parent_task ≠ EmptyString
  ∧ first_occurrence (original_id Samples.parent_task)
      (source_tasks Samples.doc_parent_child) = Some (1, Samples.parent_task).
Proof.
  apply (parents_are_first_occurrences Reference.rt Samples.doc_parent_child 1
           Samples.parent_task reference_uuid_inj reference_uuid_nonempty).
  - apply elem_of_cons. by left.
  - left. eexists. split; [reflexivity|]. done.
Defined.

(** X18.  The project made for a source group: it is stored under the
    identifier drawn for the group, its title is the sanitized title of
    the group, and its visible list holds, in source order, the tasks of
    the group that are converted and have not been linked to a parent. *)
Theorem visible_list_spec (rt : runtime) (doc : google_tasks_data)
    (grp : nat * task_list) :
  Inj (=) (=) (uuid rt) → (∀ n, uuid rt n ≠ EmptyString) →
  grp ∈ source_groups doc →
  let out := convert_google_tasks_to_sp rt doc in
  ∃ proj,
    PyDict.get (uuid rt grp.1) (b_project_entities out) = Some proj
    ∧ p_id proj = uuid rt grp.1
    ∧ p_title proj = sanitize_title (tl_title grp.2)
    ∧ p_taskIds proj
      = (λ e, uuid rt e.1)
          <$> filter (λ e, eligible e.2 = true
                           ∧ resolved_parent (source_tasks doc) e.2 = None)
                (group_tasks grp).
Proof.
  intros Hinj Hne Hg out. unfold out, convert_google_tasks_to_sp.
  rewrite (run_project_entity rt Hinj doc grp Hg). eexists. split; [done|].
  split; [done|]. split; [done|]. simpl. unfold arrival_ids, eligible_tasks.
  rewrite filter_fmap_comp, <- filter_filter_and. f_equal.
  apply filter_ext_in. intros e He. apply (not_subtask rt Hinj Hne doc).
  apply list_elem_of_filter in He as [Hel He]. apply eligible_tasks_elem.
  split; [|done]. apply source_tasks_group. by exists grp.
Qed.

Lemma visible_list_spec_witness :
  let out := convert_google_tasks_to_sp Reference.rt Samples.doc_chain in
  ∃ proj,
    PyDict.get "uuid-0" (b_project_entities out) = Some proj
    ∧ p_id proj = "uuid-0"
    ∧ p_title proj = "My Tasks"
    ∧ p_taskIds proj = ["uuid-1"].
Proof.
  refine (visible_list_spec Reference.rt Samples.doc_chain
            (0, TaskList (Some "My Tasks")
                  (Some [Samples.grandparent; Samples.middle; Samples.grandchild]))
            reference_uuid_inj reference_uuid_nonempty _).
  apply elem_of_cons. by left.
Defined.

(** ** What a backup that passes the validator is like *)

Lemma validate_passes b :
  validate_sp_data b = Some [] →
  ∃ d, vb_data b = Some d ∧ ∀ err, ¬ Violations.violation b err.
Proof.
  unfold validate_sp_data. intros Hv.
  destruct (vb_data b) as [d|] eqn:Hd.
  - exists d. split; [done|]. intros err Herr.
    destruct (errors_spec b d Hd) as (errs & Herrs & Hspec & _).
    rewrite Herrs in Hv. simpl in Hv. injection Hv as Hv.
    apply fmap_nil_inv in Hv. subst errs. apply Hspec in Herr.
    by apply elem_of_nil in Herr.
  - unfold Validator.errors in Hv. rewrite Hd in Hv. done.
Qed.

Lemma passes_validate b d :
  vb_data b = Some d → (∀ err, ¬ Violations.violation b err) →
  validate_sp_data b = Some [].
Proof.
  intros Hd Hno. destruct (errors_spec b d Hd) as (errs & Herrs & Hspec & _).
  unfold validate_sp_data. rewrite Herrs. simpl.
  destruct errs as [|err errs]; [done|].
  exfalso. apply (Hno err), Hspec, elem_of_cons. by left.
Qed.

Section AnyChains.
Context (entities : pydict v_task).

Lemma next_link c x :
  Violations.next entities c = Some x ↔ v_parent_link entities c x.
Proof.
  unfold Violations.next, Validator.parent_of, v_parent_link.
  destruct (PyDict.get c entities) as [t|]; simpl.
  - destruct (vt_parentId t) as [p|] eqn:Hp; simpl.
    + destruct (truthy p) eqn:Ht.
      * apply truthy_true in Ht. split.
        -- intros [= <-]. by exists t.
        -- intros (t' & [= <-] & Hp' & _). congruence.
      * apply truthy_false in Ht. split; [done|].
        intros (t' & [= <-] & Hp' & Hx). congruence.
    + split; [done|]. intros (t' & [= <-] & Hp' & _). congruence.
  - split; [done|]. by intros (t' & ? & _).
Qed.

Lemma any_ancestor_add p n m :
  Violations.ancestor entities p (n + m)
  = Violations.ancestor entities p n ≫= λ x, Violations.ancestor entities x m.
Proof.
  induction m as [|m IH].
  - rewrite Nat.add_0_r. simpl. by destruct (Violations.ancestor entities p n).
  - rewrite Nat.add_succ_r. simpl. rewrite IH.
    by destruct (Violations.ancestor entities p n).
Qed.

Lemma link_chain_ancestor a b :
  clos_trans string (v_parent_link entities) a b →
  ∃ n, Violations.ancestor entities a (S n) = Some b.
Proof.
  induction 1 as [a b Hab|a b c _ [n Hn] _ [m Hm]].
  - exists 0. simpl. by apply next_link.
  - exists (n + S m). rewrite <- Nat.add_succ_l, any_ancestor_add, Hn. done.
Qed.

End AnyChains.

(** A circle of parent references is a violation of check 5. *)
Lemma circle_violation b d a :
  vb_data b = Some d →
  clos_trans string (v_parent_link (vd_task_entities d)) a a →
  ∃ err, Violations.violation b err.
Proof.
  intros Hd Ha. apply link_chain_ancestor in Ha as [n Hn].
  change (S n) with (1 + n) in Hn. rewrite any_ancestor_add in Hn.
  destruct (Violations.ancestor (vd_task_entities d) a 1) as [p|] eqn:Hp; [|done].
  change (Violations.next (vd_task_entities d) a = Some p) in Hp.
  change (Violations.ancestor (vd_task_entities d) p n = Some a) in Hn.
  pose proof Hp as Hnext. apply next_link in Hnext as (t0 & Ht0 & Hpar & Hpne).
  apply PyDictFacts.get_Some_elem in Ht0.
  destruct (decide (p = a)) as [->|Hpa].
  - exists (OwnParent a). by eapply Violations.parent_is_self.
  - exists (CircularParent a).
    eapply Violations.parent_cycle with (p := p); [done..| |].
    + destruct n as [|n].
      { change (Some p = Some a) in Hn. congruence. }
      change (S n) with (1 + n) in Hn. rewrite any_ancestor_add in Hn.
      destruct (Violations.ancestor (vd_task_entities d) p 1) as [q|] eqn:Hq; [|done].
      change (Violations.next (vd_task_entities d) p = Some q) in Hq.
      apply next_link in Hq as (tp & Htp & _). by eexists.
    + left. by exists n.
Qed.

(** X19.  In a backup that passes [validate_sp_data] the parent references
    form a forest: every (truthy) [parentId] is the key of a task entity,
    and no task is reached from itself by following [parentId]. *)
Theorem validated_is_forest (b : v_backup) (d : v_data) :
  validate_sp_data b = Some [] → vb_data b = Some d →
  (∀ c x, v_parent_link (vd_task_entities d) c x →
          is_Some (PyDict.get x (vd_task_entities d)))
  ∧ (∀ a, ¬ clos_trans string (v_parent_link (vd_task_entities d)) a a).
Proof.
  intros Hv Hd. apply validate_passes in Hv as (d' & Hd' & Hno).
  assert (d' = d) as -> by congruence. split.
  - intros c x (t & Ht & Hp & Hx).
    destruct (PyDict.get x (vd_task_entities d)) eqn:Hget; [by eexists|].
    exfalso. apply (Hno (NonExistentParent c x)).
    apply PyDictFacts.get_Some_elem in Ht.
    by eapply Violations.parent_unresolved.
  - intros a Ha. destruct (circle_violation b d a Hd Ha) as [err Herr].
    by apply (Hno err).
Qed.

Lemma validated_is_forest_witness :
  validate_sp_data MoreSamples.family_backup = Some []
  ∧ ¬ clos_trans string
        (v_parent_link [("task_a", VTask (Some "project") None (Some ["task_b"]));
                        ("task_b", VTask (Some "project") (Some "task_a") (Some []))])
        "task_b" "task_b".
Proof.
  split; [reflexivity|].
  exact (proj2 (validated_is_forest MoreSamples.family_backup _ eq_refl eq_refl)
           "task_b").
Defined.

Section Forget.
Context (entities : pydict v_task).

#[local] Abbreviation forgotten := (prod_map id forget_subTaskIds <$> entities).

Lemma forget_get k :
  PyDict.get k forgotten = forget_subTaskIds <$> PyDict.get k entities.
Proof. apply get_fmap_view. Qed.

Lemma forget_next c : Violations.next forgotten c = Violations.next entities c.
Proof.
  unfold Violations.next, Validator.parent_of. rewrite forget_get.
  by destruct (PyDict.get c entities).
Qed.

Lemma forget_ancestor p n :
  Violations.ancestor forgotten p n = Violations.ancestor entities p n.
Proof.
  induction n as [|n IH]; [done|]. simpl. rewrite IH.
  destruct (Violations.ancestor entities p n); [|done]. simpl. apply forget_next.
Qed.

Lemma forget_circular t p :
  Violations.circular forgotten t p → Violations.circular entities t p.
Proof.
  intros [[n Hn]|(i & j & x & Hij & Hi & Hj)].
  - left. exists n. by rewrite <- forget_ancestor.
  - right. exists i, j, x. by rewrite <- !forget_ancestor.
Qed.

End Forget.

Lemma forget_violation b err :
  Violations.violation (forget_children b) err → Violations.violation b err.
Proof.
  intros Hv.
  inversion Hv as [Hd|Hd|Hd|Hd|d Hd Hdup|d t Hd Hin Hget
                   |d t task p Hd Hin Hproj Hp Hget
                   |d t task p Hd Hin Hpar Hp Hget
                   |d t task Hd Hin Hpar Ht
                   |d t task p Hd Hin Hpar Hp Hpt Hsome Hcirc
                   |d t task l s Hd Hin Hl Hs Hget
                   |d t task l s child Hd Hin Hl Hs Hget Hmis
                   |d p proj l t Hd Hin Hl Ht Hget
                   |d p proj l t task Hd Hin Hl Ht Hget Htr]; subst;
    unfold forget_children in Hd; cbn [vb_data vb_crossModelVersion vb_timestamp
                                       vb_lastUpdate] in Hd;
    try (destruct (vb_data b) as [d0|] eqn:Hd0; [|done]; cbn [fmap option_fmap option_map] in Hd;
         apply (inj Some) in Hd as <-;
         cbn [vd_task_ids vd_task_entities vd_project_entities] in *).
  - apply Violations.missing_data. by destruct (vb_data b).
  - by apply Violations.missing_version.
  - by apply Violations.missing_timestamp.
  - by apply Violations.missing_lastUpdate.
  - by eapply Violations.duplicate_ids.
  - rewrite forget_get in Hget. apply fmap_None in Hget.
    by eapply Violations.id_without_entity.
  - apply elem_fmap_view in Hin as (t0 & Hin & ->).
    by eapply Violations.project_unresolved.
  - apply elem_fmap_view in Hin as (t0 & Hin & ->).
    rewrite forget_get in Hget. apply fmap_None in Hget.
    by eapply Violations.parent_unresolved.
  - apply elem_fmap_view in Hin as (t0 & Hin & ->).
    by eapply Violations.parent_is_self.
  - apply elem_fmap_view in Hin as (t0 & Hin & ->).
    rewrite forget_get in Hsome. apply fmap_is_Some in Hsome.
    apply forget_circular in Hcirc.
    by eapply Violations.parent_cycle.
  - by apply elem_fmap_view in Hin as (t0 & Hin & ->).
  - by apply elem_fmap_view in Hin as (t0 & Hin & ->).
  - rewrite forget_get in Hget. apply fmap_None in Hget.
    by eapply Violations.listed_unresolved.
  - rewrite forget_get in Hget.
    destruct (PyDict.get t (vd_task_entities d0)) as [t0|] eqn:Ht0; [|done].
    simpl in Hget. injection Hget as <-.
    by eapply Violations.listed_subtask.
Qed.

(** X20.  The validator does not ask a parent to list its children: a
    backup that passes still passes when the [subTaskIds] of every task
    are taken away, whatever [parentId] the tasks have. *)
Theorem validator_ignores_unlisted_children (b : v_backup) :
  validate_sp_data b = Some [] → validate_sp_data (forget_children b) = Some [].
Proof.
  intros Hv. apply validate_passes in Hv as (d & Hd & Hno).
  eapply passes_validate.
  - unfold forget_children. cbn [vb_data]. by rewrite Hd.
  - intros err Herr%forget_violation. by apply (Hno err).
Qed.

Lemma validator_ignores_unlisted_children_witness :
  validate_sp_data MoreSamples.family_backup = Some []
  ∧ validate_sp_data
      (VBackup
         (Some (VData ["task_a"; "task_b"]
                  [("task_a", VTask (Some "project") None None);
                   ("task_b", VTask (Some "project") (Some "task_a") None)]
                  [("project", VProject (Some ["task_a"]))]))
         true true true) = Some [].
Proof.
  split; [reflexivity|].
  exact (validator_ignores_unlisted_children MoreSamples.family_backup eq_refl).
Defined.
